(** * stargeezers: the e-mail enrichment scripts [cloud02.py] and [cloud03.py]

    A shallow embedding of the two scripts and the properties of their
    contact extractor, credential rotator, directory lookup and batch
    runner.

    Python strings are sequences of Unicode code points; they are modelled
    as lists of code points.  Whatever the scripts obtain from outside (the
    remote service's replies, the wall clock, the interpreter's Unicode
    table) is an explicit parameter of the model. *)

From Stdlib Require Import ZArith NArith Ascii String List Bool Lia.
From stdpp Require Import base list gmap.

Local Open Scope Z_scope.

(** ** Text *)

Abbreviation char := N.
Abbreviation str := (list N).

(** A literal of the source, as a Python [str]. *)
Definition py (s : string) : str := map N_of_ascii (list_ascii_of_string s).

Definition chr (a : ascii) : char := N_of_ascii a.

(** [c in chars], for a literal set of characters. *)
Definition one_of (chars : string) (c : char) : bool :=
  existsb (N.eqb c) (py chars).

(** A range [a-b] of a character class. *)
Definition range (a b : ascii) (c : char) : bool :=
  (chr a <=? c)%N && (c <=? chr b)%N.

(** [str.lstrip(chars)], [str.rstrip(chars)], [str.strip(chars)]. *)
Fixpoint lstrip (chars : string) (s : str) : str :=
  match s with
  | c :: s' => if one_of chars c then lstrip chars s' else s
  | [] => []
  end.

Definition rstrip (chars : string) (s : str) : str :=
  rev (lstrip chars (rev s)).

Definition strip (chars : string) (s : str) : str :=
  rstrip chars (lstrip chars s).

(** [s.startswith(p)] *)
Fixpoint startswith (p s : str) : bool :=
  match p, s with
  | [], _ => true
  | a :: p', b :: s' => (a =? b)%N && startswith p' s'
  | _ :: _, [] => false
  end.

(** [s.split(sep)] for a one-character separator: the pieces between the
    separators, at least one piece. *)
Fixpoint split_on (sep : char) (s : str) : list str :=
  match s with
  | [] => [[]]
  | c :: s' =>
      if (c =? sep)%N then [] :: split_on sep s'
      else match split_on sep s' with
           | piece :: pieces => (c :: piece) :: pieces
           | [] => [[c]]
           end
  end.

(** ** Regular expressions, as Python's backtracking matcher runs them *)

Section Regex.

(** Python's [\w] on a [str] pattern is Unicode aware: a code point is a word
    character when it is alphanumeric or the underscore.  On ASCII that is
    [[A-Za-z0-9_]]; above it the interpreter consults its Unicode database,
    which is this parameter. *)
Variable unicode_alnum : char -> bool.

Definition is_word (c : char) : bool :=
  if (c <? 128)%N
  then range "A" "Z" c || range "a" "z" c || range "0" "9" c || one_of "_" c
  else unicode_alnum c.

Definition is_word_at (c : option char) : bool :=
  match c with Some c => is_word c | None => false end.

(** [\b]: exactly one of the two neighbours is a word character; the ends of
    the text count as non-word. *)
Definition word_boundary (prev next : option char) : bool :=
  xorb (is_word_at prev) (is_word_at next).

(** The fragment of the pattern language the scripts use. *)
Inductive regex : Type :=
| Boundary                                   (* \b *)
| Lit (c : ascii)                            (* a literal character *)
| Repeat (lo : nat) (cls : char -> bool)     (* [cls]{lo,}, greedy *)
| Seq (r1 r2 : regex).

(** The character before the cursor once [m] has been consumed. *)
Definition last_or (prev : option char) (m : str) : option char :=
  match last m with Some c => Some c | None => prev end.

(** The greedy [cls]{lo,}: every admissible split of [s], longest first. *)
Fixpoint repeat_greedy (lo : nat) (cls : char -> bool) (s : str) : list (str * str) :=
  let stop := match lo with O => [([], s)] | S _ => [] end in
  match s with
  | c :: s' =>
      if cls c
      then map (fun '(m, rest) => (c :: m, rest)) (repeat_greedy (pred lo) cls s') ++ stop
      else stop
  | [] => stop
  end.

(** All the ways [r] matches a prefix of [s] when the character before the
    cursor is [prev], as (matched text, rest), in the order in which the
    backtracking matcher tries them. *)
Fixpoint run (r : regex) (prev : option char) (s : str) : list (str * str) :=
  match r with
  | Boundary => if word_boundary prev (head s) then [([], s)] else []
  | Lit a =>
      match s with
      | c :: s' => if (c =? chr a)%N then [([c], s')] else []
      | [] => []
      end
  | Repeat lo cls => repeat_greedy lo cls s
  | Seq r1 r2 =>
      flat_map (fun '(m1, s1) =>
                  map (fun '(m2, s2) => (m1 ++ m2, s2)) (run r2 (last_or prev m1) s1))
               (run r1 prev s)
  end.

(** [re.findall(r, text)] for a pattern without groups: the successive
    non-overlapping matches, scanning left to right.  The pattern of the
    scripts matches no empty text; after an empty match the scan would move on
    by one character. *)
Fixpoint findall_from (fuel : nat) (r : regex) (prev : option char) (s : str) : list str :=
  match fuel with
  | O => []
  | S fuel' =>
      match run r prev s with
      | (m, rest) :: _ =>
          match m, s with
          | [], c :: s' => m :: findall_from fuel' r (Some c) s'
          | [], [] => [m]
          | _ :: _, _ => m :: findall_from fuel' r (last_or prev m) rest
          end
      | [] =>
          match s with
          | c :: s' => findall_from fuel' r (Some c) s'
          | [] => []
          end
      end
  end.

Definition findall (r : regex) (text : str) : list str :=
  findall_from (S (length text)) r None text.

(** *** The contact extractor ([extract_email], the same in both scripts) *)

Definition local_class (c : char) : bool :=     (* [A-Za-z0-9._%+-] *)
  range "A" "Z" c || range "a" "z" c || range "0" "9" c || one_of "._%+-" c.

Definition domain_class (c : char) : bool :=    (* [A-Za-z0-9.-] *)
  range "A" "Z" c || range "a" "z" c || range "0" "9" c || one_of ".-" c.

Definition tld_class (c : char) : bool :=       (* [A-Z|a-z] *)
  range "A" "Z" c || one_of "|" c || range "a" "z" c.

(** r'\b[A-Za-z0-9._%+-]+@[A-Za-z0-9.-]+\.[A-Z|a-z]{2,}\b' *)
Definition pattern : regex :=
  Seq Boundary
   (Seq (Repeat 1 local_class)
    (Seq (Lit "@")
     (Seq (Repeat 1 domain_class)
      (Seq (Lit ".")
       (Seq (Repeat 2 tld_class)
        Boundary))))).

Definition edge_chars : string :=
  String (ascii_of_nat 34) "<>[]()".    (* a double quote, then <>[]() *)

Definition extract_email (text : str) : option str :=
  match findall pattern text with
  | m :: _ => Some (strip edge_chars m)
  | [] => None
  end.

End Regex.

(** ** The outside world *)

(** Python exceptions (the subclasses of [Exception] the scripts can meet). *)
Inductive exn : Type :=
| IndexError | ZeroDivisionError | KeyError | ValueError | TypeError
| FileNotFoundError | RequestException.

Inductive outcome (A : Type) : Type :=
| Returned (a : A)
| Raised (e : exn).
Arguments Returned {A} a.
Arguments Raised {A} e.

(** An optional string as the scripts pass it around: [None] or a [str]. *)
Inductive pyval : Type :=
| PyNone
| PyStr (s : str).

(** Python's truth value: [None] and the empty string are false. *)
Definition truthy (v : pyval) : bool :=
  match v with
  | PyStr (_ :: _) => true
  | _ => false
  end.

(** What a function that returns a [str] or [None] hands back. *)
Definition of_option (o : option str) : pyval :=
  match o with Some s => PyStr s | None => PyNone end.

(** urllib3's [Retry] configuration. *)
Record Retry : Type := {
  total : Z;
  read : Z;
  connect : Z;
  backoff_factor : Z * Z;        (* a decimal fraction: numerator, denominator *)
  status_forcelist : list Z
}.

(** How a request is sent: through a session whose adapter retries, or with
    the plain [requests.get]. *)
Inductive transport : Type :=
| Session (max_retries : Retry)
| Plain.

(** def requests_retry_session(retries=3, backoff_factor=0.3,
                               status_forcelist=(500, 502, 504), session=None) *)
Definition requests_retry_session_with
    (retries : Z) (backoff : Z * Z) (forcelist : list Z) : transport :=
  Session {| total := retries; read := retries; connect := retries;
             backoff_factor := backoff; status_forcelist := forcelist |}.

Definition requests_retry_session : transport :=
  requests_retry_session_with 3 (3, 10) [500; 502; 504].

Record Request : Type := {
  via : transport;
  url : str;
  authorization : str            (* headers = {'Authorization': ...} *)
}.

(** What the scripts read of a response.  The two JSON readings fail when the
    body is not JSON of the expected shape; the 'email' entry of a profile is
    a string or null, as the service documents it. *)
Record Response : Type := {
  status_code : Z;
  text : str;
  json_rate_remaining : outcome Z;          (* response.json()['rate']['remaining'] *)
  json_email : outcome (option pyval)       (* response.json(), then its 'email' entry if any *)
}.

(** What a run leaves behind, in order.  Of the log lines only those that a
    property speaks of are kept. *)
Inductive Event : Type :=
| Get (req : Request)                        (* an HTTP GET was sent *)
| Sleep (seconds : Z)                        (* time.sleep *)
| Now                                        (* datetime.now() *)
| LogProcessing (profile_url : str)          (* logger.info(f"Processing ...") *)
| LogError (profile_url : str) (e : exn)     (* logger.error in the per-record handler *)
| LogMainError (e : exn).                    (* logger.error in main's handler *)

(** The remote service and the wall clock.  An answer may depend on all that
    happened before.  A request that exhausts its retries, or fails in
    transport, raises.  The clock counts microseconds. *)
Record World : Type := {
  respond : list Event -> Request -> outcome Response;
  clock : list Event -> Z
}.

(** ** The handler's state and the monad of its methods *)

Record GitHubApiHandler : Type := {
  api_keys : list str;
  current_key_index : nat;
  request_count : Z;
  max_requests_per_key : Z;
  failed_attempts : Z
}.

(** def __init__(self, api_keys) *)
Definition init_handler (keys : list str) : GitHubApiHandler :=
  {| api_keys := keys; current_key_index := 0; request_count := 0;
     max_requests_per_key := 3650; failed_attempts := 0 |}.

Record Machine : Type := {
  self : GitHubApiHandler;
  trace : list Event
}.

(** A method: it may change the handler, talk to the world, and return or
    raise.  What it changed before raising stays changed. *)
Definition M (A : Type) : Type := Machine -> outcome A * Machine.

Definition ret {A} (a : A) : M A := fun m => (Returned a, m).
Definition raise {A} (e : exn) : M A := fun m => (Raised e, m).
Definition bind {A B} (c : M A) (k : A -> M B) : M B :=
  fun m => match c m with
           | (Returned a, m') => k a m'
           | (Raised e, m') => (Raised e, m')
           end.

Declare Scope py_scope.
Delimit Scope py_scope with py.
Notation "'do' x <- c ; k" := (bind c (fun x => k))
  (at level 10, x name, c at level 100, k at level 200) : py_scope.
Notation "c ;; k" := (bind c (fun _ => k))
  (at level 100, k at level 200, right associativity) : py_scope.

Definition lift {A} (o : outcome A) : M A := fun m => (o, m).
Definition get_self : M GitHubApiHandler := fun m => (Returned (self m), m).
Definition emit (e : Event) : M unit :=
  fun m => (Returned tt, {| self := self m; trace := trace m ++ [e] |}).

Definition set_current_key_index (i : nat) (h : GitHubApiHandler) :=
  {| api_keys := api_keys h; current_key_index := i;
     request_count := request_count h;
     max_requests_per_key := max_requests_per_key h;
     failed_attempts := failed_attempts h |}.
Definition set_request_count (n : Z) (h : GitHubApiHandler) :=
  {| api_keys := api_keys h; current_key_index := current_key_index h;
     request_count := n;
     max_requests_per_key := max_requests_per_key h;
     failed_attempts := failed_attempts h |}.
Definition set_failed_attempts (n : Z) (h : GitHubApiHandler) :=
  {| api_keys := api_keys h; current_key_index := current_key_index h;
     request_count := request_count h;
     max_requests_per_key := max_requests_per_key h;
     failed_attempts := n |}.

Definition modify_self (f : GitHubApiHandler -> GitHubApiHandler) : M unit :=
  fun m => (Returned tt, {| self := f (self m); trace := trace m |}).

(** ** The record stores *)

(** A row of the input file; [Status] is absent when the file has no such
    column or the cell is empty. *)
Record InputRecord : Type := {
  Username : str;
  User_ID : str;
  Profile_URL : str;
  Status : option str
}.

Record OutputRecord : Type := {
  out_Username : str;
  out_User_ID : str;
  out_Profile_URL : str;
  out_Email : pyval
}.

(** The two files; [None] when a file does not exist. *)
Record Files : Type := {
  input_csv : option (list InputRecord);
  output_csv : option (list OutputRecord)
}.

Definition set_Status (v : str) (r : InputRecord) : InputRecord :=
  {| Username := Username r; User_ID := User_ID r;
     Profile_URL := Profile_URL r; Status := Some v |}.

(** timedelta(minutes=30), in microseconds *)
Definition thirty_minutes : Z := 30 * 60 * 1000000.

(** ** What the two scripts share *)

Section Shared.

Variable unicode_alnum : char -> bool.
Variable W : World.

Local Open Scope py_scope.

(** [transport.get(url, headers=headers)]: the request is recorded and the
    world answers. *)
Definition http_get (t : transport) (u headers : str) : M Response :=
  fun m =>
    let req := {| via := t; url := u; authorization := headers |} in
    (respond W (trace m) req, {| self := self m; trace := trace m ++ [Get req] |}).

(** [time.sleep(seconds)] *)
Definition sleep (seconds : Z) : M unit := emit (Sleep seconds).

Definition rate_limit_url : str := py "https://api.github.com/rate_limit".
Definition users_url (username : str) : str :=
  py "https://api.github.com/users/" ++ username.
Definition readme_url (username : str) : str :=
  py "https://raw.githubusercontent.com/" ++ username ++ py "/" ++ username
    ++ py "/main/README.md".
Definition profile_prefix : str := py "https://github.com/".

(** [username_or_url.split('/')[-1]] or the reference itself: lines 77-80. *)
Definition username_of (username_or_url : str) : str :=
  if startswith profile_prefix username_or_url
  then match last (split_on (chr "/") username_or_url) with
       | Some piece => piece
       | None => []
       end
  else username_or_url.

(** def get_headers(self) *)
Definition get_headers : M str :=
  do h <- get_self;
  match api_keys h !! current_key_index h with
  | Some key => ret (py "token " ++ key)
  | None => raise IndexError
  end.

(** def get_remaining_requests(self) *)
Definition get_remaining_requests : M Z :=
  do headers <- get_headers;
  do response <- http_get requests_retry_session rate_limit_url headers;
  if status_code response =? 200
  then (do remaining <- lift (json_rate_remaining response); ret remaining)
  else ret 0.

(** def get_email_from_readme(self, username, headers) *)
Definition get_email_from_readme (username headers : str) : M pyval :=
  do response <- http_get Plain (readme_url username) headers;
  if status_code response =? 200
  then ret (of_option (extract_email unicode_alnum (text response)))
  else ret PyNone.

End Shared.

(** ** cloud02.py *)

Module Cloud02.

Section Script.

Variable unicode_alnum : char -> bool.
Variable W : World.

Local Open Scope py_scope.

Local Abbreviation get_remaining_requests := (get_remaining_requests W).
Local Abbreviation get_email_from_readme := (get_email_from_readme unicode_alnum W).
Local Abbreviation http_get := (http_get W).

(** def check_and_switch_key(self) *)
Definition check_and_switch_key : M unit :=
  do remaining_requests <- get_remaining_requests;
  if remaining_requests <? 10 then
    do h <- get_self;
    match length (api_keys h) with
    | O => raise ZeroDivisionError
    | S _ =>
        modify_self (set_current_key_index
                       ((current_key_index h + 1) mod length (api_keys h))%nat) ;;
        modify_self (set_request_count 0) ;;
        modify_self (fun h => set_failed_attempts (failed_attempts h + 1) h) ;;
        do h <- get_self;
        if 18 <=? failed_attempts h then
          sleep 3900 ;;
          modify_self (set_failed_attempts 0)
        else ret tt
    end
  else ret tt.

(** def get_user_info_from_github_api(self, username_or_url) *)
Definition get_user_info_from_github_api (username_or_url : str) : M pyval :=
  check_and_switch_key ;;
  do headers <- get_headers;
  modify_self (fun h => set_request_count (request_count h + 1) h) ;;
  let username := username_of username_or_url in
  do response <- http_get requests_retry_session (users_url username) headers;
  if negb (status_code response =? 200) then ret PyNone
  else
    do user_data <- lift (json_email response);
    let email := match user_data with Some v => v | None => PyStr [] end in
    if truthy email then ret email
    else get_email_from_readme username headers.

(** The state of [main] while it runs: the handler and what happened so far,
    the two files, and main's local variables. *)
Record Run : Type := {
  machine : Machine;
  files : Files;
  input_df : list InputRecord;
  output_df : list OutputRecord;
  new_rows : list OutputRecord;
  processed_profiles : gset str;
  last_save_time : Z
}.

Definition with_machine (m : Machine) (st : Run) : Run :=
  {| machine := m; files := files st; input_df := input_df st;
     output_df := output_df st; new_rows := new_rows st;
     processed_profiles := processed_profiles st;
     last_save_time := last_save_time st |}.

Definition log (e : Event) (st : Run) : Run :=
  with_machine {| self := self (machine st); trace := trace (machine st) ++ [e] |} st.

(** datetime.now() *)
Definition now (st : Run) : Z * Run :=
  (clock W (trace (machine st)), log Now st).

(** Lines 131-138: the record is resolved. *)
Definition resolved (index : nat) (row : InputRecord) (email : pyval) (st : Run) : Run :=
  {| machine := machine st; files := files st;
     input_df := alter (set_Status (py "Done")) index (input_df st);
     output_df := output_df st;
     new_rows := new_rows st ++
       [{| out_Username := Username row; out_User_ID := User_ID row;
           out_Profile_URL := Profile_URL row; out_Email := email |}];
     processed_profiles := {[Profile_URL row]} ∪ processed_profiles st;
     last_save_time := last_save_time st |}.

(** Lines 143-147 and 155-158: the buffered rows go to the output file. *)
Definition write_output (st : Run) : Run :=
  match new_rows st with
  | [] => st
  | _ :: _ =>
      let out := output_df st ++ new_rows st in
      {| machine := machine st;
         files := {| input_csv := input_csv (files st); output_csv := Some out |};
         input_df := input_df st; output_df := out; new_rows := new_rows st;
         processed_profiles := processed_profiles st;
         last_save_time := last_save_time st |}
  end.

(** new_rows.clear(), inside the same [if new_rows:] *)
Definition clear_new_rows (st : Run) : Run :=
  {| machine := machine st; files := files st; input_df := input_df st;
     output_df := output_df st; new_rows := [];
     processed_profiles := processed_profiles st;
     last_save_time := last_save_time st |}.

(** input_df.to_csv(input_csv_path, index=False) *)
Definition write_input (st : Run) : Run :=
  {| machine := machine st;
     files := {| input_csv := Some (input_df st); output_csv := output_csv (files st) |};
     input_df := input_df st; output_df := output_df st; new_rows := new_rows st;
     processed_profiles := processed_profiles st;
     last_save_time := last_save_time st |}.

Definition set_last_save_time (t : Z) (st : Run) : Run :=
  {| machine := machine st; files := files st; input_df := input_df st;
     output_df := output_df st; new_rows := new_rows st;
     processed_profiles := processed_profiles st;
     last_save_time := t |}.

(** Lines 142-149: the body of the periodic save. *)
Definition save_progress (st : Run) : Run :=
  let st := clear_new_rows (write_output st) in
  let st := write_input st in
  let '(t, st) := now st in
  set_last_save_time t st.

(** Lines 129-149: the body of the [try]. *)
Definition try_body (index : nat) (row : InputRecord) (st : Run) : outcome unit * Run :=
  match get_user_info_from_github_api (Profile_URL row) (machine st) with
  | (Raised e, m) => (Raised e, with_machine m st)
  | (Returned email, m) =>
      let st := with_machine m st in
      let st := if truthy email then resolved index row email st else st in
      let '(t, st) := now st in
      if t - last_save_time st >? thirty_minutes
      then (Returned tt, save_progress st)
      else (Returned tt, st)
  end.

(** row.get('Status') == 'Done' or profile_url in processed_profiles *)
Definition skips (row : InputRecord) (st : Run) : bool :=
  bool_decide (Status row = Some (py "Done"))
  || bool_decide (Profile_URL row ∈ processed_profiles st).

(** Lines 119-152: one turn of the loop. *)
Definition iteration (st : Run) (ir : nat * InputRecord) : Run :=
  let '(index, row) := ir in
  if skips row st then st
  else
    let st := log (LogProcessing (Profile_URL row)) st in
    match try_body index row st with
    | (Returned _, st) => st
    | (Raised e, st) => log (LogError (Profile_URL row) e) st
    end.

(** for index, row in input_df.iterrows(): ... *)
Definition loop (rows : list (nat * InputRecord)) (st : Run) : Run :=
  fold_left iteration rows st.

(** input_df.iterrows() *)
Definition iterrows (df : list InputRecord) : list (nat * InputRecord) :=
  imap (fun i r => (i, r)) df.

(** Lines 154-159: the final save. *)
Definition final_save (st : Run) : Run :=
  write_input (write_output st).

(** Lines 102-116: what main sets up before the loop. *)
Definition startup (environ_keys : option str) (fs : Files) (tr : list Event)
  : outcome Run :=
  let t := clock W tr in
  let tr := tr ++ [Now] in
  match environ_keys with
  | None => Raised KeyError
  | Some keys =>
      let handler := init_handler (split_on (chr ",") keys) in
      match input_csv fs with
      | None => Raised FileNotFoundError
      | Some rows =>
          let out := match output_csv fs with Some o => o | None => [] end in
          Returned
            {| machine := {| self := handler; trace := tr |};
               files := fs; input_df := rows; output_df := out; new_rows := [];
               processed_profiles := list_to_set (map out_Profile_URL out);
               last_save_time := t |}
      end
  end.

(** def main(): the files and the trace it leaves behind. *)
Definition main (environ_keys : option str) (fs : Files) (tr : list Event)
  : Files * list Event :=
  match startup environ_keys fs tr with
  | Returned st =>
      let st := final_save (loop (iterrows (input_df st)) st) in
      (files st, trace (machine st))
  | Raised e => (fs, tr ++ [Now; LogMainError e])
  end.

End Script.

End Cloud02.

(** ** cloud03.py: the variant without cooldown, skip set and checkpoints *)

Module Cloud03.

Section Script.

Variable unicode_alnum : char -> bool.
Variable W : World.

Local Open Scope py_scope.

Local Abbreviation get_remaining_requests := (get_remaining_requests W).
Local Abbreviation get_email_from_readme := (get_email_from_readme unicode_alnum W).
Local Abbreviation http_get := (http_get W).

(** def check_and_switch_key(self); this handler has no [failed_attempts],
    the field of the shared record stays as it is. *)
Definition check_and_switch_key : M unit :=
  do remaining_requests <- get_remaining_requests;
  if remaining_requests <? 10 then
    do h <- get_self;
    match length (api_keys h) with
    | O => raise ZeroDivisionError
    | S _ =>
        modify_self (set_current_key_index
                       ((current_key_index h + 1) mod length (api_keys h))%nat) ;;
        modify_self (set_request_count 0)
    end
  else ret tt.

(** def get_user_info_from_github_api(self, username_or_url) *)
Definition get_user_info_from_github_api (username_or_url : str) : M pyval :=
  check_and_switch_key ;;
  do headers <- get_headers;
  modify_self (fun h => set_request_count (request_count h + 1) h) ;;
  let username := username_of username_or_url in
  do response <- http_get requests_retry_session (users_url username) headers;
  if negb (status_code response =? 200) then ret PyNone
  else
    do user_data <- lift (json_email response);
    let email := match user_data with Some v => v | None => PyStr [] end in
    if truthy email then ret email
    else get_email_from_readme username headers.

Record Run : Type := {
  machine : Machine;
  output_data : list OutputRecord
}.

Definition log (e : Event) (st : Run) : Run :=
  {| machine := {| self := self (machine st); trace := trace (machine st) ++ [e] |};
     output_data := output_data st |}.

(** Lines 110-117: the body of the [try]. *)
Definition try_body (row : InputRecord) (st : Run) : outcome unit * Run :=
  match get_user_info_from_github_api (Profile_URL row) (machine st) with
  | (Raised e, m) => (Raised e, {| machine := m; output_data := output_data st |})
  | (Returned email, m) =>
      (Returned tt,
       {| machine := m;
          output_data :=
            if truthy email
            then output_data st ++
                 [{| out_Username := Username row; out_User_ID := User_ID row;
                     out_Profile_URL := Profile_URL row; out_Email := email |}]
            else output_data st |})
  end.

(** Lines 103-119: one turn of the loop. *)
Definition iteration (st : Run) (row : InputRecord) : Run :=
  let st := log (LogProcessing (Profile_URL row)) st in
  match try_body row st with
  | (Returned _, st) => st
  | (Raised e, st) => log (LogError (Profile_URL row) e) st
  end.

Definition loop (rows : list InputRecord) (st : Run) : Run :=
  fold_left iteration rows st.

(** def main() *)
Definition main (environ_keys : option str) (fs : Files) (tr : list Event)
  : Files * list Event :=
  match environ_keys with
  | None => (fs, tr ++ [LogMainError KeyError])
  | Some keys =>
      let handler := init_handler (split_on (chr ",") keys) in
      match input_csv fs with
      | None => (fs, tr ++ [LogMainError FileNotFoundError])
      | Some rows =>
          let st := loop rows {| machine := {| self := handler; trace := tr |};
                                 output_data := [] |} in
          ({| input_csv := input_csv fs; output_csv := Some (output_data st) |},
           trace (machine st))
      end
  end.

End Script.

End Cloud03.

(** ** The vocabulary of the properties *)

(** *** Matches *)

Section MatchVocabulary.

Variable unicode_alnum : char -> bool.

(** The declarative reading of a pattern: [r] matches the text [m] when the
    character before it is [prev] and the text after it is [rest]. *)
Fixpoint matches (r : regex) (prev : option char) (m rest : str) : Prop :=
  match r with
  | Boundary => m = [] /\ word_boundary unicode_alnum prev (head rest) = true
  | Lit a => m = [chr a]
  | Repeat lo cls => forallb cls m = true /\ (lo <= length m)%nat
  | Seq r1 r2 =>
      exists m1 m2, m = m1 ++ m2 /\
        matches r1 prev m1 (m2 ++ rest) /\
        matches r2 (last_or prev m1) m2 rest
  end.

(** The first match the scan finds: the text skipped before it, the match,
    and the rest. *)
Fixpoint first_match (r : regex) (prev : option char) (s : str)
  : option (str * str * str) :=
  match run unicode_alnum r prev s with
  | (m, rest) :: _ => Some ([], m, rest)
  | [] =>
      match s with
      | c :: s' =>
          match first_match r (Some c) s' with
          | Some (pre, m, rest) => Some (c :: pre, m, rest)
          | None => None
          end
      | [] => None
      end
  end.

(** The occurrence of [m] between [pre] and [post] starts and ends at a word
    boundary. *)
Definition delimited (pre m post : str) : Prop :=
  word_boundary unicode_alnum (last pre) (head m) = true /\
  word_boundary unicode_alnum (last m) (head post) = true.

End MatchVocabulary.

(** A character that may occur in a match: a letter, a digit, or one of
    [._%+-@|]. *)
Definition address_char (c : char) : Prop :=
  (65 <= c <= 90)%N \/ (97 <= c <= 122)%N \/ (48 <= c <= 57)%N \/
  In c (py "._%+-@|").

(** [m] is local part, '@', domain, '.', top-level part, by the classes of the
    pattern. *)
Definition address_shape (m l d t : str) : Prop :=
  m = l ++ chr "@" :: d ++ chr "." :: t /\
  forallb local_class l = true /\ (1 <= length l)%nat /\
  forallb domain_class d = true /\ (1 <= length d)%nat /\
  forallb tld_class t = true /\ (2 <= length t)%nat.

(** The candidates of a greedy repetition come longest first. *)
Fixpoint decreasing (l : list (str * str)) : Prop :=
  match l with
  | [] => True
  | x :: l' => Forall (fun y => (length (fst y) < length (fst x))%nat) l' /\ decreasing l'
  end.

(** The character sets of the specification's address grammar. *)
Definition letter (c : char) : bool := range "A" "Z" c || range "a" "z" c.

Definition digit (c : char) : bool := range "0" "9" c.

Definition local_char (c : char) : bool := letter c || digit c || one_of "._%+-" c.

Definition domain_char (c : char) : bool := letter c || digit c || one_of ".-" c.

(** The address grammar, in the words of the specification: one or more of
    letters, digits, '.', '_', '%', '+', '-' before '@', one or more of
    letters, digits, '.', '-' after, ending in a dot followed by at least two
    letters. *)
Definition address_grammar (m : str) : Prop :=
  exists l d t,
    m = l ++ chr "@" :: d ++ chr "." :: t /\
    l <> [] /\ forallb local_char l = true /\
    d <> [] /\ forallb domain_char d = true /\
    (2 <= length t)%nat /\ forallb letter t = true.

(** *** The rotator and the lookup *)

(** The quota query for the credential [key]. *)
Definition quota_request (key : str) : Request :=
  {| via := requests_retry_session; url := rate_limit_url;
     authorization := py "token " ++ key |}.

(** The machine after [req] has been sent. *)
Definition sent (req : Request) (m : Machine) : Machine :=
  {| self := self m; trace := trace m ++ [Get req] |}.

(** What a rotation does to the handler, and what it adds to the trace. *)
Definition rotate (h : GitHubApiHandler) : GitHubApiHandler :=
  let h1 :=
    set_failed_attempts (failed_attempts h + 1)
      (set_request_count 0
         (set_current_key_index
            ((current_key_index h + 1) mod length (api_keys h))%nat h)) in
  if 18 <=? failed_attempts h + 1 then set_failed_attempts 0 h1 else h1.

(** The wait a rotation ends with, when the counter reaches the threshold. *)
Definition cooldown (h : GitHubApiHandler) : list Event :=
  if 18 <=? failed_attempts h + 1 then [Sleep 3900] else [].

(** The blocking waits recorded in a trace, in seconds. *)
Definition sleeps (tr : list Event) : list Z :=
  omap (fun e => match e with Sleep s => Some s | _ => None end) tr.

Section RotatorVocabulary.

Variable W : World.

(** [k] quota checks in a row. *)
Fixpoint checks (k : nat) (m : Machine) : Machine :=
  match k with
  | O => m
  | S k' => snd (Cloud02.check_and_switch_key W (checks k' m))
  end.

(** Every quota query is answered, and reports a quota below 10 (or fails
    with a status other than 200). *)
Definition always_low : Prop :=
  forall tr req, exists r,
    respond W tr req = Returned r /\
    (status_code r <> 200 \/
     exists q, json_rate_remaining r = Returned q /\ q < 10).

End RotatorVocabulary.

(** The profile query and the document query for a handle. *)
Definition profile_request (key username : str) : Request :=
  {| via := requests_retry_session; url := users_url username;
     authorization := py "token " ++ key |}.

(** The document query, which [get_email_from_readme] sends. *)
Definition readme_request (key username : str) : Request :=
  {| via := Plain; url := readme_url username;
     authorization := py "token " ++ key |}.

(** The machine after [self.request_count += 1]. *)
Definition counted (m : Machine) : Machine :=
  {| self := set_request_count (request_count (self m) + 1) (self m);
     trace := trace m |}.

(** The requests recorded in a trace. *)
Definition requests (tr : list Event) : list Request :=
  omap (fun e => match e with Get req => Some req | _ => None end) tr.

(** *** The batch runner *)

(** Events of the remote kind: requests and waits. *)
Definition remote (e : Event) : Prop :=
  match e with
  | Get _ | Sleep _ => True
  | _ => False
  end.

(** A method is quiet when all it adds to the trace is of the remote kind. *)
Definition quiet {A} (c : M A) : Prop :=
  forall m, exists tr, trace (snd (c m)) = trace m ++ tr /\ Forall remote tr.

(** The output row of a resolved record. *)
Definition output_row (row : InputRecord) (email : pyval) : OutputRecord :=
  {| out_Username := Username row; out_User_ID := User_ID row;
     out_Profile_URL := Profile_URL row; out_Email := email |}.

(** The state in which the lookup of [row] starts. *)
Definition announced (row : InputRecord) (st : Cloud02.Run) : Cloud02.Run :=
  Cloud02.log (LogProcessing (Profile_URL row)) st.

(** The state after the lookup of [row] has returned [email]. *)
Definition looked_up (index : nat) (row : InputRecord) (email : pyval)
    (m : Machine) (st : Cloud02.Run) : Cloud02.Run :=
  let st := Cloud02.with_machine m (announced row st) in
  if truthy email then Cloud02.resolved index row email st else st.

(** The records whose lookup was started, as the log shows them. *)
Definition attempted (tr : list Event) : list str :=
  omap (fun e => match e with LogProcessing u => Some u | _ => None end) tr.

(** The same for cloud03.py. *)
Definition announced03 (row : InputRecord) (st : Cloud03.Run) : Cloud03.Run :=
  Cloud03.log (LogProcessing (Profile_URL row)) st.

(** The profile references of output rows. *)
Definition profiles (rows : list OutputRecord) : list str :=
  map out_Profile_URL rows.

(** The rows of an output file; none when the file does not exist. *)
Definition rows_of (file : option (list OutputRecord)) : list OutputRecord :=
  default [] file.

(** All the output rows the run knows of: those in the data frame and those
    still buffered. *)
Definition known (st : Cloud02.Run) : list OutputRecord :=
  Cloud02.output_df st ++ Cloud02.new_rows st.

(** What holds between the turns of the loop: the skip set is the set of the
    profile references of the known rows, and the data frame is what the
    output file holds. *)
Definition consistent (st : Cloud02.Run) : Prop :=
  Cloud02.processed_profiles st = list_to_set (profiles (known st)) /\
  Cloud02.output_df st = rows_of (output_csv (Cloud02.files st)).

(** *** Further vocabulary: the pool, the counters, the stores *)

(** The cursor points into the credential pool. *)
Definition cursor_ok (h : GitHubApiHandler) : Prop :=
  (current_key_index h < length (api_keys h))%nat.

(** What holds of the events of some turns: at least one and at most three
    requests, and at most one wait, for every lookup started, and every wait
    is of 3900 seconds. *)
Definition within_budget (ev : list Event) : Prop :=
  (length (attempted ev) <= length (requests ev))%nat /\
  (length (requests ev) <= 3 * length (attempted ev))%nat /\
  (length (sleeps ev) <= length (attempted ev))%nat /\
  Forall (fun s => s = 3900) (sleeps ev).

Section CounterVocabulary.

Variable unicode_alnum : char -> bool.
Variable W : World.

(** The quota check that starts in [m] finds the quota low: the quota query
    is answered, and reports a remaining quota below 10 (a status other than
    200 counts as 0). *)
Definition detects_low (m : Machine) : bool :=
  match fst (get_remaining_requests W m) with
  | Returned q => q <? 10
  | Raised _ => false
  end.

(** The lookups of [references], one after the other, whatever each returns
    or raises. *)
Fixpoint lookups (references : list str) (m : Machine) : Machine :=
  match references with
  | [] => m
  | r :: rest =>
      lookups rest (snd (Cloud02.get_user_info_from_github_api unicode_alnum W r m))
  end.

(** How many of these lookups found the quota low. *)
Fixpoint low_detections (references : list str) (m : Machine) : nat :=
  match references with
  | [] => 0
  | r :: rest =>
      (if detects_low m then 1 else 0) +
      low_detections rest (snd (Cloud02.get_user_info_from_github_api unicode_alnum W r m))
  end%nat.

End CounterVocabulary.

(** [sep.join(pieces)], for a one-character separator. *)
Fixpoint join (sep : char) (pieces : list str) : str :=
  match pieces with
  | [] => []
  | piece :: rest =>
      match rest with
      | [] => piece
      | _ :: _ => piece ++ sep :: join sep rest
      end
  end.

(** The input records with the status of those at [indices] set to "Done". *)
Definition mark_done (indices : list nat) (rows : list InputRecord) : list InputRecord :=
  imap (fun i r => if bool_decide (i ∈ indices) then set_Status (py "Done") r else r) rows.

(** A record resolved in a run: its index in the input, the record, and the
    e-mail the lookup returned. *)
Definition Resolution : Type := nat * InputRecord * pyval.

Definition index_of (x : Resolution) : nat := fst (fst x).
Definition row_of (x : Resolution) : InputRecord := snd (fst x).
Definition email_of (x : Resolution) : pyval := snd x.

(** A method is sleepless when it never blocks: it adds no wait to the
    trace. *)
Definition sleepless {A} (c : M A) : Prop :=
  forall m, sleeps (trace (snd (c m))) = sleeps (trace m).

(** Two handlers agree when they differ at most in [request_count] and
    [max_requests_per_key]; two machines agree when their handlers do and
    their traces are the same. *)
Definition agree_handlers (h1 h2 : GitHubApiHandler) : Prop :=
  api_keys h1 = api_keys h2 /\
  current_key_index h1 = current_key_index h2 /\
  failed_attempts h1 = failed_attempts h2.

Definition agree (m1 m2 : Machine) : Prop :=
  agree_handlers (self m1) (self m2) /\ trace m1 = trace m2.

(** Two methods are alike when, run from machines that agree, they give the
    same outcome and leave machines that agree. *)
Definition alike {A} (c1 c2 : M A) : Prop :=
  forall m1 m2, agree m1 m2 ->
    fst (c1 m1) = fst (c2 m2) /\ agree (snd (c1 m1)) (snd (c2 m2)).

(** A text, or the character before the cursor, within ASCII. *)
Definition ascii_text (s : str) : Prop := Forall (fun c => (c < 128)%N) s.

Definition ascii_before (prev : option char) : Prop :=
  match prev with Some c => (c < 128)%N | None => True end.

(** The two files are in step: every input record marked "Done" has a row
    with its profile reference in the output. *)
Definition done_have_rows (rows : list InputRecord) (out : list OutputRecord) : Prop :=
  forall r, r ∈ rows -> Status r = Some (py "Done") -> Profile_URL r ∈ profiles out.

(** A method sends at most [n] requests: what it adds to the trace is of the
    remote kind and holds at most [n] requests. *)
Definition sends_at_most (n : nat) {A} (c : M A) : Prop :=
  forall m, exists tr,
    trace (snd (c m)) = trace m ++ tr /\ Forall remote tr /\
    (length (requests tr) <= n)%nat.

(** *** The turns of a run, record by record *)


(** The same for cloud03.py, which skips no record and never waits. *)
Definition record_budget03 (row : InputRecord) (ev : list Event) : Prop :=
  exists rest,
    ev = LogProcessing (Profile_URL row) :: rest /\
    attempted rest = [] /\
    (length (requests rest) <= 3)%nat /\
    sleeps rest = [].

Section ResolutionVocabulary.

Variable unicode_alnum : char -> bool.
Variable W : World.

(** The records the turns over [rows] resolve, from the state [st] on: those
    that are not skipped and whose lookup, run when their turn comes, returns
    an e-mail that is not empty; each with that e-mail. *)
Fixpoint resolutions (rows : list (nat * InputRecord)) (st : Cloud02.Run)
  : list Resolution :=
  match rows with
  | [] => []
  | (index, row) :: rest =>
      (if Cloud02.skips row st then []
       else match fst (Cloud02.get_user_info_from_github_api unicode_alnum W
                         (Profile_URL row) (Cloud02.machine (announced row st))) with
            | Returned email => if truthy email then [(index, row, email)] else []
            | Raised _ => []
            end)
      ++ resolutions rest (Cloud02.iteration unicode_alnum W st (index, row))
  end.

(** The same for cloud03.py. *)
Fixpoint resolutions03 (rows : list InputRecord) (st : Cloud03.Run)
  : list (InputRecord * pyval) :=
  match rows with
  | [] => []
  | row :: rest =>
      match fst (Cloud03.get_user_info_from_github_api unicode_alnum W
                   (Profile_URL row) (Cloud03.machine (announced03 row st))) with
      | Returned email => if truthy email then [(row, email)] else []
      | Raised _ => []
      end
      ++ resolutions03 rest (Cloud03.iteration unicode_alnum W st row)
  end.

(** The state in which the loop of cloud03.py starts. *)
Definition begun03 (keys : str) (tr : list Event) : Cloud03.Run :=
  {| Cloud03.machine := {| self := init_handler (split_on (chr ",") keys); trace := tr |};
     Cloud03.output_data := [] |}.

End ResolutionVocabulary.

(** ** Sample environments, for the examples *)

Definition no_body (status : Z) : Response :=
  {| status_code := status; text := [];
     json_rate_remaining := Raised ValueError;
     json_email := Raised ValueError |}.

(** A service that refuses every request with status 403. *)
Definition world_403 : World :=
  {| respond := fun _ _ => Returned (no_body 403); clock := fun _ => 0 |}.

(** A fresh handler over a pool of two credentials. *)
Definition two_keys : Machine :=
  {| self := init_handler [py "key-a"; py "key-b"]; trace := [] |}.

Definition json_reply (remaining : outcome Z) (email : outcome (option pyval)) : Response :=
  {| status_code := 200; text := [];
     json_rate_remaining := remaining; json_email := email |}.

Definition text_reply (body : str) : Response :=
  {| status_code := 200; text := body;
     json_rate_remaining := Raised ValueError; json_email := Raised ValueError |}.

(** A service with ample quota that knows two users: alice publishes her
    address in her profile, bob only in his README.  Asking for mallory breaks
    the connection. *)
Definition sample_service : World :=
  {| respond := fun _ req =>
       if bool_decide (url req = rate_limit_url)
       then Returned (json_reply (Returned 5000) (Raised KeyError))
       else if bool_decide (url req = users_url (py "alice"))
       then Returned (json_reply (Raised KeyError)
                                 (Returned (Some (PyStr (py "alice@example.org")))))
       else if bool_decide (url req = users_url (py "mallory"))
       then Raised RequestException
       else if bool_decide (url req = users_url (py "bob"))
       then Returned (json_reply (Raised KeyError) (Returned (Some PyNone)))
       else if bool_decide (url req = readme_url (py "bob"))
       then Returned (text_reply (py "mail me: <bob@example.org>"))
       else Returned (no_body 404);
     clock := fun _ => 0 |}.

(** The interpreter's table on the samples (all of them ASCII). *)
Definition ascii_only : char -> bool := fun _ => false.

(** The credentials in the environment, and input records not yet resolved. *)
Definition sample_keys : option str := Some (py "key-a,key-b").

Definition pending (name : string) : InputRecord :=
  {| Username := py name; User_ID := py "7";
     Profile_URL := profile_prefix ++ py name; Status := None |}.

Definition found (name address : string) : OutputRecord :=
  {| out_Username := py name; out_User_ID := py "7";
     out_Profile_URL := profile_prefix ++ py name;
     out_Email := PyStr (py address) |}.

(** A first run: an input file, no output file yet. *)
Definition fresh (rows : list InputRecord) : Files :=
  {| input_csv := Some rows; output_csv := None |}.

(** The state in which the loop of cloud02.py starts on [fresh rows] when the
    clock shows [t] and nothing has happened before. *)
Definition begun (rows : list InputRecord) (t : Z) : Cloud02.Run :=
  {| Cloud02.machine := {| self := init_handler [py "key-a"; py "key-b"]; trace := [Now] |};
     Cloud02.files := fresh rows;
     Cloud02.input_df := rows; Cloud02.output_df := []; Cloud02.new_rows := [];
     Cloud02.processed_profiles := ∅;
     Cloud02.last_save_time := t |}.

Definition five_minutes : Z := 5 * 60 * 1000000.

(** As [sample_service], except that the connection is lost once five events
    have happened; every event takes five minutes. *)
Definition failing_later : World :=
  {| respond := fun tr req =>
       if (length tr <? 5)%nat then respond sample_service tr req
       else Raised RequestException;
     clock := fun tr => Z.of_nat (length tr) * five_minutes |}.

(** As [sample_service], with a clock on which every event takes twenty
    minutes. *)
Definition slow_service : World :=
  {| respond := respond sample_service;
     clock := fun tr => Z.of_nat (length tr) * (4 * five_minutes) |}.

(** ** What the matcher computes *)

Arguments py : simpl never.
Arguments chr : simpl never.

Section RegexFacts.

Variable unicode_alnum : char -> bool.

Local Abbreviation run := (run unicode_alnum).
Local Abbreviation word_boundary := (word_boundary unicode_alnum).
Local Abbreviation matches := (matches unicode_alnum).
Local Abbreviation first_match := (first_match unicode_alnum).

Lemma repeat_greedy_spec cls s : forall lo m rest,
  In (m, rest) (repeat_greedy lo cls s) <->
  s = m ++ rest /\ forallb cls m = true /\ (lo <= length m)%nat.
Proof.
  induction s as [|c s IH]; intros lo m rest; simpl.
  - destruct lo; simpl; split.
    + intros [H|[]]. inversion H; subst. repeat split; auto.
    + intros (H & _ & _). symmetry in H. apply app_eq_nil in H as [-> ->]. auto.
    + intros [].
    + intros (H & _ & Hlen). symmetry in H. apply app_eq_nil in H as [-> ->].
      simpl in Hlen. lia.
  - assert (Hstop : In (m, rest) (match lo with O => [([], c :: s)] | S _ => [] end)
                    <-> (m = [] /\ rest = c :: s /\ lo = O)).
    { destruct lo; simpl; split.
      - intros [H|[]]. inversion H; auto.
      - intros (-> & -> & _). auto.
      - intros [].
      - intros (_ & _ & H). discriminate. }
    destruct (cls c) eqn:Hc.
    + rewrite in_app_iff, Hstop, in_map_iff. split.
      * intros [((m', rest') & Heq & Hin) | (-> & -> & ->)].
        -- inversion Heq; subst. apply IH in Hin as (-> & Hall & Hlen).
           simpl. rewrite Hc, Hall. repeat split; auto. lia.
        -- simpl. repeat split; auto.
      * intros (Heq & Hall & Hlen). destruct m as [|c' m].
        -- right. simpl in *. repeat split; auto. lia.
        -- left. simpl in Heq. inversion Heq; subst c'. subst s.
           exists (m, rest). split; auto. apply IH.
           simpl in Hall. rewrite Hc in Hall. simpl in *. repeat split; auto. lia.
    + rewrite Hstop. split.
      * intros (-> & -> & ->). simpl. repeat split; auto.
      * intros (Heq & Hall & Hlen). destruct m as [|c' m].
        -- simpl in *. repeat split; auto. lia.
        -- simpl in Heq. inversion Heq; subst c'. simpl in Hall.
           rewrite Hc in Hall. discriminate.
Qed.

(** The matcher is sound and complete for the declarative reading. *)
Lemma run_spec r : forall prev s m rest,
  In (m, rest) (run r prev s) <-> s = m ++ rest /\ matches r prev m rest.
Proof.
  induction r as [|a|lo cls|r1 IH1 r2 IH2]; intros prev s m rest; simpl.
  - destruct (word_boundary prev (head s)) eqn:Hb; simpl; split.
    + intros [H|[]]. inversion H; subst. auto.
    + intros (-> & -> & _). auto.
    + intros [].
    + intros (-> & -> & H). simpl in *. congruence.
  - destruct s as [|c s]; simpl.
    + split; [intros [] | intros (H & ->); discriminate].
    + destruct (N.eqb_spec c (chr a)) as [->|Hne]; simpl; split.
      * intros [H|[]]. inversion H; subst. auto.
      * intros (H & ->). inversion H. auto.
      * intros [].
      * intros (H & ->). inversion H. congruence.
  - apply repeat_greedy_spec.
  - rewrite in_flat_map. split.
    + intros ((m1, s1) & H1 & H2). apply in_map_iff in H2 as ((m2, s2) & Heq & H2).
      inversion Heq; subst. apply IH1 in H1 as (-> & H1). apply IH2 in H2 as (-> & H2).
      split; [now rewrite app_assoc|]. exists m1, m2. auto.
    + intros (-> & m1 & m2 & -> & H1 & H2).
      exists (m1, m2 ++ rest). split.
      * apply IH1. split; auto. now rewrite app_assoc.
      * apply in_map_iff. exists (m2, rest). split; auto. apply IH2. auto.
Qed.

Lemma findall_from_head r : forall s fuel prev,
  (length s < fuel)%nat ->
  head (findall_from unicode_alnum fuel r prev s) =
  match first_match r prev s with
  | Some (_, m, _) => Some m
  | None => None
  end.
Proof.
  induction s as [|c s IH]; intros fuel prev Hfuel;
    (destruct fuel as [|fuel]; [simpl in Hfuel; lia|]); simpl.
  - destruct (run r prev []) as [|[m rest] others]; [reflexivity|].
    destruct m; reflexivity.
  - destruct (run r prev (c :: s)) as [|[m rest] others].
    + rewrite IH by (simpl in Hfuel; lia).
      destruct (first_match r (Some c) s) as [[[pre m] rest]|]; reflexivity.
    + destruct m; reflexivity.
Qed.

Lemma last_or_cons prev c (pre : str) :
  last_or prev (c :: pre) = last_or (Some c) pre.
Proof.
  unfold last_or. destruct pre as [|c' pre]; [reflexivity|].
  change (last (c :: c' :: pre)) with (last (c' :: pre)).
  destruct (last (c' :: pre)) eqn:E; [reflexivity|].
  apply last_None in E. discriminate.
Qed.

(** The first match is a match, and no match starts before it. *)
Lemma first_match_Some r : forall s prev pre m rest,
  first_match r prev s = Some (pre, m, rest) ->
  s = pre ++ m ++ rest /\
  (exists others, run r (last_or prev pre) (m ++ rest) = (m, rest) :: others) /\
  (forall pre1 s1, s = pre1 ++ s1 -> (length pre1 < length pre)%nat ->
     run r (last_or prev pre1) s1 = []).
Proof.
  induction s as [|c s IH]; intros prev pre m rest; simpl.
  - destruct (run r prev []) as [|[m0 rest0] others] eqn:Hrun; [discriminate|].
    intros E. inversion E; subst. 
    assert (Hin : In (m, rest) (run r prev [])) by (rewrite Hrun; now left).
    apply run_spec in Hin as [Hs _]. split; [exact Hs|]. split.
    + exists others. rewrite <- Hs. exact Hrun.
    + intros pre1 s1 _ Hlen. simpl in Hlen. lia.
  - destruct (run r prev (c :: s)) as [|[m0 rest0] others] eqn:Hrun.
    + destruct (first_match r (Some c) s) as [[[pre' m'] rest']|] eqn:Hfm; [|discriminate].
      intros E. inversion E; subst. destruct (IH _ _ _ _ Hfm) as (Hs & Hhead & Hbefore).
      split; [simpl; now rewrite <- Hs|]. split.
      * rewrite last_or_cons. exact Hhead.
      * intros pre1 s1 Hsplit Hlen. destruct pre1 as [|c1 pre1].
        -- simpl in Hsplit. subst s1. exact Hrun.
        -- simpl in Hsplit. inversion Hsplit; subst c1. rewrite last_or_cons.
           apply Hbefore; [assumption|]. simpl in Hlen. lia.
    + intros E. inversion E; subst.
      assert (Hin : In (m, rest) (run r prev (c :: s))) by (rewrite Hrun; now left).
      apply run_spec in Hin as [Hs _]. split; [exact Hs|]. split.
      * exists others. rewrite <- Hs. exact Hrun.
      * intros pre1 s1 _ Hlen. simpl in Hlen. lia.
Qed.

Lemma first_match_None r : forall s prev,
  first_match r prev s = None ->
  forall pre1 s1, s = pre1 ++ s1 -> run r (last_or prev pre1) s1 = [].
Proof.
  induction s as [|c s IH]; intros prev; simpl.
  - destruct (run r prev []) as [|[m0 rest0] others] eqn:Hrun; [|discriminate].
    intros _ pre1 s1 Hsplit. symmetry in Hsplit.
    apply app_eq_nil in Hsplit as [-> ->]. exact Hrun.
  - destruct (run r prev (c :: s)) as [|[m0 rest0] others] eqn:Hrun; [|discriminate].
    destruct (first_match r (Some c) s) as [[[pre' m'] rest']|] eqn:Hfm; [discriminate|].
    intros _ pre1 s1 Hsplit. destruct pre1 as [|c1 pre1].
    + simpl in Hsplit. subst s1. exact Hrun.
    + simpl in Hsplit. inversion Hsplit; subst c1. rewrite last_or_cons.
      now apply (IH _ Hfm).
Qed.

(** *** The characters of a match *)

Lemma range_spec a b c : range a b c = true <-> (chr a <= c <= chr b)%N.
Proof. unfold range. rewrite andb_true_iff, !N.leb_le. reflexivity. Qed.

Lemma one_of_spec chars c : one_of chars c = true <-> In c (py chars).
Proof.
  unfold one_of. rewrite existsb_exists. split.
  - intros (x & Hin & E). apply N.eqb_eq in E. now subst.
  - intros Hin. exists c. split; [assumption | apply N.eqb_refl].
Qed.

(** Evaluates the character literals of the classes. *)
Ltac literals :=
  repeat match goal with
  | H : context [py ?s] |- _ =>
      let v := eval vm_compute in (py s) in change (py s) with v in H
  | H : context [chr ?a] |- _ =>
      let v := eval vm_compute in (chr a) in change (chr a) with v in H
  | |- context [py ?s] =>
      let v := eval vm_compute in (py s) in change (py s) with v
  | |- context [chr ?a] =>
      let v := eval vm_compute in (chr a) in change (chr a) with v
  end.

Ltac class_cases H :=
  repeat rewrite orb_true_iff in H;
  repeat rewrite range_spec in H;
  repeat rewrite one_of_spec in H;
  unfold address_char; literals; cbn [In] in H |- *.

Lemma local_class_address_char c : local_class c = true -> address_char c.
Proof. unfold local_class. intros H. class_cases H. intuition. Qed.

Lemma domain_class_address_char c : domain_class c = true -> address_char c.
Proof. unfold domain_class. intros H. class_cases H. intuition. Qed.

Lemma tld_class_address_char c : tld_class c = true -> address_char c.
Proof. unfold tld_class. intros H. class_cases H. intuition. Qed.

Lemma address_char_not_edge c : address_char c -> one_of edge_chars c = false.
Proof.
  intros H. destruct (one_of edge_chars c) eqn:E; [|reflexivity].
  apply one_of_spec in E. unfold address_char, edge_chars in H, E.
  literals. cbn [In] in H, E. lia.
Qed.

Lemma forallb_address_char cls (l : str) :
  (forall c, cls c = true -> address_char c) ->
  forallb cls l = true -> Forall address_char l.
Proof.
  intros Hcls H. apply Forall_forall. intros c Hc.
  apply Hcls. rewrite forallb_forall in H. apply H. now apply list_elem_of_In.
Qed.

(** Stripping leaves a text alone when its two ends are not in the set. *)
Lemma lstrip_id chars c (s : str) :
  one_of chars c = false -> lstrip chars (c :: s) = c :: s.
Proof. intros H. simpl. now rewrite H. Qed.

Lemma strip_id chars (s : str) :
  Forall (fun c => one_of chars c = false) s -> strip chars s = s.
Proof.
  intros H. unfold strip, rstrip.
  assert (Hl : lstrip chars s = s).
  { destruct H as [|c s Hc _]; [reflexivity | now apply lstrip_id]. }
  rewrite Hl.
  assert (Hr : Forall (fun c => one_of chars c = false) (rev s)).
  { apply Forall_forall. intros c Hc. rewrite Forall_forall in H. apply H.
    apply list_elem_of_In. apply list_elem_of_In in Hc. now apply in_rev. }
  destruct (rev s) as [|c s'] eqn:E.
  - simpl. rewrite <- (rev_involutive s). now rewrite E.
  - inversion Hr; subst. rewrite lstrip_id by assumption.
    rewrite <- E. apply rev_involutive.
Qed.

(** *** The shape of a match of the address pattern *)

Lemma last_or_nonempty prev (t : str) :
  t <> [] -> last_or prev t = last t.
Proof.
  intros Ht. unfold last_or. destruct (last t) eqn:E; [reflexivity|].
  apply last_None in E. contradiction.
Qed.

Lemma address_shape_last m l d t :
  address_shape m l d t -> t <> [] /\ last m = last t /\ head m = head l /\ l <> [].
Proof.
  intros (-> & _ & Hl & _ & _ & _ & Ht).
  assert (Hne : t <> []) by (destruct t; [simpl in Ht; lia | discriminate]).
  assert (Hlne : l <> []) by (destruct l; [simpl in Hl; lia | discriminate]).
  repeat split; auto.
  - change (l ++ chr "@" :: d ++ chr "." :: t)
      with (l ++ [chr "@"] ++ d ++ [chr "."] ++ t).
    rewrite !app_assoc, last_app. destruct (last t) eqn:E; [reflexivity|].
    apply last_None in E. contradiction.
  - destruct l; [contradiction | reflexivity].
Qed.

Lemma pattern_matches_iff prev m rest :
  matches pattern prev m rest <->
  exists l d t,
    address_shape m l d t /\
    word_boundary prev (head m) = true /\
    word_boundary (last m) (head rest) = true.
Proof.
  unfold pattern. cbn [matches]. split.
  - intros (m1 & m2 & -> & [-> Hb1] &
            l & m3 & -> & [Hl Hll] &
            at_ & m4 & -> & -> &
            d & m5 & -> & [Hd Hdl] &
            dot & m6 & -> & -> &
            t & m7 & -> & [Ht Htl] & -> & Hb2).
    exists l, d, t.
    assert (Hshape : address_shape ([] ++ l ++ [chr "@"] ++ d ++ [chr "."] ++ t ++ []) l d t).
    { unfold address_shape. rewrite app_nil_r. repeat split; auto. }
    destruct (address_shape_last _ _ _ _ Hshape) as (Hne & Hlast & Hhead & Hlne).
    split; [exact Hshape|]. split.
    + rewrite Hhead. destruct l as [|c l]; [contradiction|]. exact Hb1.
    + rewrite Hlast. rewrite (last_or_nonempty _ t Hne) in Hb2. exact Hb2.
  - intros (l & d & t & Hshape & Hb1 & Hb2).
    destruct (address_shape_last _ _ _ _ Hshape) as (Hne & Hlast & Hhead & Hlne).
    destruct Hshape as (-> & Hl & Hll & Hd & Hdl & Ht & Htl).
    exists [], (l ++ chr "@" :: d ++ chr "." :: t). split; [reflexivity|]. split.
    { split; [reflexivity|]. destruct l as [|c l]; [contradiction|]. exact Hb1. }
    exists l, (chr "@" :: d ++ chr "." :: t). split; [reflexivity|]. split; [auto|].
    exists [chr "@"], (d ++ chr "." :: t). split; [reflexivity|]. split; [reflexivity|].
    exists d, (chr "." :: t). split; [reflexivity|]. split; [auto|].
    exists [chr "."], t. split; [reflexivity|]. split; [reflexivity|].
    exists t, []. split; [now rewrite app_nil_r|]. split; [auto|].
    split; [reflexivity|]. rewrite (last_or_nonempty _ t Hne), <- Hlast. exact Hb2.
Qed.

Lemma address_shape_chars m l d t :
  address_shape m l d t -> Forall address_char m /\ m <> [] /\ In (chr "@") m.
Proof.
  intros (-> & Hl & _ & Hd & _ & Ht & _). split; [|split].
  - apply Forall_app. split.
    + eapply forallb_address_char; [apply local_class_address_char | exact Hl].
    + constructor; [unfold address_char; literals; cbn [In]; intuition|].
      apply Forall_app. split.
      * eapply forallb_address_char; [apply domain_class_address_char | exact Hd].
      * constructor; [unfold address_char; literals; cbn [In]; intuition|].
        eapply forallb_address_char; [apply tld_class_address_char | exact Ht].
  - destruct l; discriminate.
  - apply in_or_app. right. now left.
Qed.

Lemma strip_address m :
  Forall address_char m -> strip edge_chars m = m.
Proof.
  intros H. apply strip_id. eapply Forall_impl; [exact H|].
  intros c. apply address_char_not_edge.
Qed.

(** The extractor returns the first match of the scan, stripped. *)
Lemma extract_email_first_match text :
  extract_email unicode_alnum text =
  match first_match pattern None text with
  | Some (_, m, _) => Some (strip edge_chars m)
  | None => None
  end /\
  head (findall unicode_alnum pattern text) =
  match first_match pattern None text with
  | Some (_, m, _) => Some m
  | None => None
  end.
Proof.
  unfold extract_email, findall.
  pose proof (findall_from_head pattern text (S (length text)) None (Nat.lt_succ_diag_r _)) as H.
  destruct (findall_from unicode_alnum (S (length text)) pattern None text) as [|m ms];
    simpl in H; destruct (first_match pattern None text) as [[[pre m'] rest]|];
    try discriminate; split; simpl; congruence.
Qed.

Lemma first_match_matches pre m rest text :
  first_match pattern None text = Some (pre, m, rest) ->
  text = pre ++ m ++ rest /\ matches pattern (last pre) m rest.
Proof.
  intros H. destruct (first_match_Some _ _ _ _ _ _ H) as (Hs & (others & Hrun) & _).
  split; [exact Hs|].
  assert (Hin : In (m, rest) (run pattern (last_or None pre) (m ++ rest)))
    by (rewrite Hrun; now left).
  apply run_spec in Hin as [_ Hm].
  unfold last_or in Hm. destruct (last pre); exact Hm.
Qed.

(** C10. Whatever the extractor returns is the first match of the pattern as
    [re.findall] gives it, unchanged by the stripping: it is not empty, holds an
    '@', and none of the characters that are stripped occurs anywhere in it. *)
Theorem extract_email_returns_the_raw_match (text v : str) :
  extract_email unicode_alnum text = Some v ->
  v <> [] /\
  In (chr "@") v /\
  head (findall unicode_alnum pattern text) = Some v /\
  (forall c, In c v -> one_of edge_chars c = false) /\
  strip edge_chars v = v.
Proof.
  destruct (extract_email_first_match text) as [-> ->].
  destruct (first_match pattern None text) as [[[pre m] rest]|] eqn:Hfm; [|discriminate].
  destruct (first_match_matches _ _ _ _ Hfm) as [_ Hm].
  apply pattern_matches_iff in Hm as (l & d & t & Hshape & _).
  destruct (address_shape_chars _ _ _ _ Hshape) as (Hchars & Hne & Hat).
  rewrite (strip_address m Hchars). intros E. inversion E; subst v.
  repeat split; auto.
  - intros c Hc. apply address_char_not_edge.
    rewrite Forall_forall in Hchars. apply Hchars. now apply list_elem_of_In.
  - now apply strip_address.
Qed.

End RegexFacts.

(** *** The order in which the matcher tries *)

Section Priority.

Variable unicode_alnum : char -> bool.

Lemma head_flat_map {A B} (f : A -> list B) (l : list A) (x : B) :
  head (flat_map f l) = Some x ->
  exists l1 a l2,
    l = l1 ++ a :: l2 /\ Forall (fun b => f b = []) l1 /\ head (f a) = Some x.
Proof.
  induction l as [|a l IH]; simpl; [discriminate|].
  destruct (f a) as [|y ys] eqn:Hfa; simpl.
  - intros H. destruct (IH H) as (l1 & a' & l2 & -> & Hl1 & Hh).
    exists (a :: l1), a', l2. repeat split; auto.
  - intros H. inversion H; subst y. exists [], a, l. rewrite Hfa. repeat split; auto.
Qed.

(** The first way a sequence matches: the first way of its first part that
    the second part can follow, and then the first way of the second part. *)
Lemma run_seq_head r1 r2 prev s m rest :
  head (run unicode_alnum (Seq r1 r2) prev s) = Some (m, rest) ->
  exists tried m1 s1 later m2,
    run unicode_alnum r1 prev s = tried ++ (m1, s1) :: later /\
    Forall (fun '(a, sa) => run unicode_alnum r2 (last_or prev a) sa = []) tried /\
    head (run unicode_alnum r2 (last_or prev m1) s1) = Some (m2, rest) /\
    m = m1 ++ m2.
Proof.
  cbn [run]. intros H.
  apply head_flat_map in H as (tried & [m1 s1] & later & Hsplit & Htried & Hhead).
  destruct (run unicode_alnum r2 (last_or prev m1) s1) as [|[m2 s2] more] eqn:Hr2; [discriminate|].
  simpl in Hhead. inversion Hhead; subst m rest.
  exists tried, m1, s1, later, m2. rewrite Hr2. repeat split; auto.
  eapply Forall_impl; [exact Htried|]. intros [a sa] Ha.
  destruct (run unicode_alnum r2 (last_or prev a) sa); [reflexivity | discriminate].
Qed.

Lemma decreasing_app l1 l2 :
  decreasing l1 -> decreasing l2 ->
  (forall x y, In x l1 -> In y l2 -> (length (fst y) < length (fst x))%nat) ->
  decreasing (l1 ++ l2).
Proof.
  induction l1 as [|x l1 IH]; simpl; intros H1 H2 H12; [assumption|].
  destruct H1 as [Hx H1]. split.
  - apply Forall_app. split; [assumption|]. apply Forall_forall.
    intros y Hy. apply H12; [now left | now apply list_elem_of_In].
  - apply IH; auto.
Qed.

Lemma decreasing_later l1 x l2 :
  decreasing (l1 ++ x :: l2) ->
  Forall (fun y => (length (fst y) < length (fst x))%nat) l2.
Proof.
  induction l1 as [|a l1 IH]; simpl; intros [H1 H2]; auto.
Qed.

Lemma repeat_greedy_decreasing cls s : forall lo, decreasing (repeat_greedy lo cls s).
Proof.
  induction s as [|c s IH]; intros lo; simpl.
  - destruct lo; simpl; auto.
  - assert (Hstop : decreasing (match lo with O => [([], c :: s)] | S _ => [] end))
      by (destruct lo; simpl; auto).
    destruct (cls c); [|exact Hstop].
    apply decreasing_app; [|exact Hstop|].
    + generalize (IH (pred lo)). generalize (repeat_greedy (pred lo) cls s).
      induction l as [|[m rest] l IHl]; simpl; [auto|]. intros [Hm Hl]. split; [|auto].
      apply Forall_forall. intros [m' rest'] Hin.
      apply list_elem_of_In, in_map_iff in Hin as ([m'' rest''] & E & Hin).
      inversion E; subst. rewrite Forall_forall in Hm.
      apply list_elem_of_In in Hin. specialize (Hm _ Hin). simpl in *. lia.
    + intros [m rest] [m' rest'] Hin Hin'.
      apply in_map_iff in Hin as ([m'' rest''] & E & _). inversion E; subst.
      destruct lo; simpl in Hin'; [|contradiction].
      destruct Hin' as [E'|[]]. inversion E'; subst. simpl. lia.
Qed.

(** If the greedy repetition settles on [m1], no longer candidate could be
    followed by the rest of the pattern. *)
Lemma repeat_greedy_longest lo cls s tried m1 s1 later (P : str * str -> Prop) :
  repeat_greedy lo cls s = tried ++ (m1, s1) :: later ->
  Forall P tried ->
  forall m' s', In (m', s') (repeat_greedy lo cls s) ->
    (length m1 < length m')%nat -> P (m', s').
Proof.
  intros Hsplit Htried m' s' Hin Hlen.
  pose proof (repeat_greedy_decreasing cls s lo) as Hdec.
  rewrite Hsplit in Hdec, Hin. apply decreasing_later in Hdec.
  apply in_app_or in Hin as [Hin|[E|Hin]].
  - rewrite Forall_forall in Htried. apply Htried. now apply list_elem_of_In.
  - inversion E; subst. lia.
  - rewrite Forall_forall in Hdec. apply list_elem_of_In in Hin.
    specialize (Hdec _ Hin). simpl in Hdec. lia.
Qed.

Lemma singleton_split {A} (x y : A) l1 l2 :
  [x] = l1 ++ y :: l2 -> l1 = [] /\ y = x /\ l2 = [].
Proof.
  destruct l1 as [|a l1]; simpl; intros H; inversion H; subst; auto.
  destruct l1; discriminate.
Qed.

Lemma run_boundary_split prev s tried m1 s1 later :
  run unicode_alnum Boundary prev s = tried ++ (m1, s1) :: later ->
  tried = [] /\ m1 = [] /\ s1 = s.
Proof.
  cbn [run]. destruct (word_boundary unicode_alnum prev (head s)).
  - intros H. apply singleton_split in H as (-> & E & _). inversion E. auto.
  - intros H. destruct tried; discriminate.
Qed.

Lemma run_lit_split a prev s tried m1 s1 later :
  run unicode_alnum (Lit a) prev s = tried ++ (m1, s1) :: later ->
  tried = [] /\ m1 = [chr a] /\ s = chr a :: s1.
Proof.
  cbn [run]. destruct s as [|c s]; [intros H; destruct tried; discriminate|].
  destruct (N.eqb_spec c (chr a)) as [->|Hne].
  - intros H. apply singleton_split in H as (-> & E & _). inversion E. auto.
  - intros H. destruct tried; discriminate.
Qed.

Lemma local_class_not_at : local_class (chr "@") = false.
Proof. reflexivity. Qed.

Lemma tld_class_not_dot : tld_class (chr ".") = false.
Proof. reflexivity. Qed.

(** The local part of a match that starts at a given place is determined:
    it ends at the first '@'. *)
Lemma local_part_unique (l l' x x' : str) :
  forallb local_class l = true -> forallb local_class l' = true ->
  l ++ chr "@" :: x = l' ++ chr "@" :: x' -> l = l' /\ x = x'.
Proof.
  revert l'. induction l as [|c l IH]; intros [|c' l'] Hl Hl' E; simpl in *.
  - inversion E. auto.
  - inversion E; subst c'. apply andb_true_iff in Hl' as [Hc _].
    rewrite local_class_not_at in Hc. discriminate.
  - inversion E; subst c. apply andb_true_iff in Hl as [Hc _].
    rewrite local_class_not_at in Hc. discriminate.
  - inversion E; subst c'. apply andb_true_iff in Hl as [_ Hl].
    apply andb_true_iff in Hl' as [_ Hl'].
    destruct (IH l' Hl Hl' H1) as [-> ->]. auto.
Qed.

(** A top-level part cannot run over a dot. *)
Lemma tld_stops_at_dot (t rest c x : str) :
  forallb tld_class t = true ->
  t ++ rest = c ++ chr "." :: x -> (length t <= length c)%nat.
Proof.
  revert c. induction t as [|a t IH]; intros c Ht E; simpl; [lia|].
  simpl in Ht. apply andb_true_iff in Ht as [Ha Ht].
  destruct c as [|b c]; simpl in E; inversion E; subst.
  - rewrite tld_class_not_dot in Ha. discriminate.
  - specialize (IH c Ht H1). simpl. lia.
Qed.

(** Among the matches that start where the first match starts, the matcher
    returns a longest one. *)
Lemma pattern_head_longest prev s m rest m' rest' :
  head (run unicode_alnum pattern prev s) = Some (m, rest) ->
  s = m' ++ rest' ->
  matches unicode_alnum pattern prev m' rest' ->
  (length m' <= length m)%nat.
Proof.
  unfold pattern at 1. intros Hhead Hs Hm'.
  (* the way the matcher took *)
  apply run_seq_head in Hhead as (tr0 & m0 & s0 & la0 & n0 & Hr0 & _ & Hhead & ->).
  apply run_boundary_split in Hr0 as (_ & -> & ->).
  apply run_seq_head in Hhead as (trl & l & sl & lal & nl & Hrl & _ & Hhead & ->).
  apply run_seq_head in Hhead as (tra & a & sa & laa & na & Hra & _ & Hhead & ->).
  apply run_lit_split in Hra as (_ & -> & ->).
  apply run_seq_head in Hhead as (trd & d & sd & lad & nd & Hrd & Htrd & Hhead & ->).
  apply run_seq_head in Hhead as (trp & p & sp & lap & np & Hrp & _ & Hhead & ->).
  apply run_lit_split in Hrp as (_ & -> & ->).
  apply run_seq_head in Hhead as (trt & t & st & lat & nt & Hrt & Htrt & Hhead & ->).
  assert (Hinl : In (l, chr "@" :: sa) (run unicode_alnum (Repeat 1 local_class) (last_or prev []) s))
    by (rewrite Hrl; apply in_or_app; right; now left).
  apply run_spec in Hinl as (Hsl & Hl & _).
  assert (Hind : In (d, chr "." :: sp)
                    (run unicode_alnum (Repeat 1 domain_class)
                       (last_or (last_or (last_or prev []) l) [chr "@"]) sa))
    by (rewrite Hrd; apply in_or_app; right; now left).
  apply run_spec in Hind as (Hsd & _).
  assert (Hint : In (t, st)
                    (run unicode_alnum (Repeat 2 tld_class)
                       (last_or (last_or (last_or (last_or (last_or prev []) l)
                                            [chr "@"]) d) [chr "."]) sp))
    by (rewrite Hrt; apply in_or_app; right; now left).
  apply run_spec in Hint as (Hst & _).
  (* the other match *)
  apply pattern_matches_iff in Hm' as (l' & d' & t' & Hshape & Hb1 & Hb2).
  destruct (address_shape_last _ _ _ _ Hshape) as (Hne' & Hlast' & _ & _).
  destruct Hshape as (-> & Hl' & Hll' & Hd' & Hdl' & Ht' & Htl').
  rewrite Hs in Hsl. rewrite <- app_assoc in Hsl. cbn [app] in Hsl.
  destruct (local_part_unique _ _ _ _ Hl' Hl Hsl) as [-> Hsa].
  rewrite !length_app. cbn [length]. rewrite !length_app. cbn [length].
  assert (Hgoal : (length d' + S (length t') <= length d + S (length (t ++ nt)))%nat);
    [|rewrite length_app in Hgoal; lia].
  (* what follows a candidate domain of the other match *)
  assert (Hfollows :
    run unicode_alnum (Seq (Lit ".") (Seq (Repeat 2 tld_class) Boundary))
      (last_or (last_or (last_or (last_or prev []) l) [chr "@"]) d')
      (chr "." :: t' ++ rest') <> []).
  { intros Hnil.
    assert (Hin : In (chr "." :: t', rest')
                    (run unicode_alnum (Seq (Lit ".") (Seq (Repeat 2 tld_class) Boundary))
                       (last_or (last_or (last_or (last_or prev []) l) [chr "@"]) d')
                       (chr "." :: t' ++ rest'))).
    { apply run_spec. split; [reflexivity|]. cbn [matches].
      exists [chr "."], t'. split; [reflexivity|]. split; [reflexivity|].
      exists t', []. split; [now rewrite app_nil_r|]. split; [auto|].
      split; [reflexivity|]. rewrite (last_or_nonempty _ t' Hne'), <- Hlast'. exact Hb2. }
    rewrite Hnil in Hin. contradiction. }
  rewrite <- app_assoc in Hsa. cbn [app] in Hsa. rewrite Hsd in Hsa.
  destruct (Nat.lt_trichotomy (length d') (length d)) as [Hlt|[Heq|Hgt]].
  - (* a shorter domain: the other match ends before the dot the matcher chose *)
    apply app_eq_app in Hsa as [k [[Hd1 Hk]|[Hd1 Hk]]].
    + subst d'. rewrite length_app in Hlt. lia.
    + subst d. rewrite length_app in Hlt. destruct k as [|c k]; [simpl in Hlt; lia|].
      cbn [app] in Hk. inversion Hk; subst c.
      pose proof (tld_stops_at_dot t' rest' k sp Ht' H1) as Hle.
      rewrite !length_app. cbn [length]. lia.
  - (* the same domain: the top-level parts are compared *)
    apply app_inj_1 in Hsa as [-> Hrest]; [|exact Heq]. inversion Hrest as [Hsp].
    destruct (Nat.le_gt_cases (length t') (length t)) as [Hle|Hgt];
      [rewrite length_app; lia|].
    exfalso.
    assert (Hin' : In (t', rest') (run unicode_alnum (Repeat 2 tld_class)
                       (last_or (last_or (last_or (last_or (last_or prev []) l)
                                            [chr "@"]) d) [chr "."]) sp)).
    { apply run_spec. split; [now rewrite <- Hsp|]. cbn [matches]. auto. }
    pose proof (repeat_greedy_longest _ _ _ _ _ _ _ _ Hrt Htrt t' rest' Hin' Hgt) as Hnil.
    cbn [run] in Hnil. rewrite (last_or_nonempty _ t' Hne'), <- Hlast' in Hnil.
    rewrite Hb2 in Hnil. discriminate.
  - (* a longer domain: the matcher tried it before, and failed *)
    exfalso. apply Hfollows.
    assert (Hin' : In (d', chr "." :: t' ++ rest')
                     (run unicode_alnum (Repeat 1 domain_class)
                        (last_or (last_or (last_or prev []) l) [chr "@"]) sa)).
    { apply run_spec. split; [now rewrite Hsd, Hsa|]. cbn [matches]. auto. }
    exact (repeat_greedy_longest _ _ _ _ _ _ _ _ Hrd Htrd d' _ Hin' Hgt).
Qed.

End Priority.

(** *** The extractor against the grammar of the specification *)

Section Grammar.

Variable unicode_alnum : char -> bool.

Local Abbreviation delimited := (delimited unicode_alnum).

Lemma nonempty_length (l : str) : l <> [] <-> (1 <= length l)%nat.
Proof. destruct l; simpl; split; intros; try lia; congruence. Qed.

Lemma tld_class_letter c : c <> chr "|" -> tld_class c = letter c.
Proof.
  intros Hc. unfold tld_class, letter.
  assert (E : one_of "|" c = false).
  { destruct (one_of "|" c) eqn:E; [|reflexivity].
    apply one_of_spec in E. destruct E as [E|[]]. now subst. }
  rewrite E. now rewrite orb_false_r.
Qed.

Lemma letter_tld_class c : letter c = true -> tld_class c = true.
Proof.
  unfold tld_class, letter. rewrite !orb_true_iff. intuition.
Qed.

Lemma grammar_of_shape m l d t :
  address_shape m l d t -> ~ In (chr "|") m -> address_grammar m.
Proof.
  intros (-> & Hl & Hll & Hd & Hdl & Ht & Htl) Hpipe.
  exists l, d, t. split; [reflexivity|].
  split; [now apply nonempty_length|]. split; [exact Hl|].
  split; [now apply nonempty_length|]. split; [exact Hd|].
  split; [exact Htl|].
  apply forallb_forall. intros c Hc. rewrite forallb_forall in Ht.
  rewrite <- tld_class_letter; [now apply Ht|].
  intros ->. apply Hpipe. apply in_or_app. right. right.
  apply in_or_app. right. now right.
Qed.

Lemma shape_of_grammar m :
  address_grammar m -> exists l d t, address_shape m l d t.
Proof.
  intros (l & d & t & -> & Hl & Hlc & Hd & Hdc & Htl & Ht).
  exists l, d, t. split; [reflexivity|].
  split; [exact Hlc|]. split; [now apply nonempty_length|].
  split; [exact Hdc|]. split; [now apply nonempty_length|].
  split; [|exact Htl].
  apply forallb_forall. intros c Hc. rewrite forallb_forall in Ht.
  apply letter_tld_class. now apply Ht.
Qed.

Lemma last_or_None (pre : str) : last_or None pre = last pre.
Proof. unfold last_or. destruct (last pre); reflexivity. Qed.

(** A delimited occurrence of the grammar is a match of the pattern. *)
Lemma delimited_grammar_matches pre m post :
  address_grammar m -> delimited pre m post ->
  In (m, post) (run unicode_alnum pattern (last_or None pre) (m ++ post)).
Proof.
  intros Hg [Hb1 Hb2]. apply run_spec. split; [reflexivity|].
  rewrite last_or_None. apply pattern_matches_iff.
  destruct (shape_of_grammar m Hg) as (l & d & t & Hshape).
  exists l, d, t. auto.
Qed.

(** C6, as the code has it.  On every text, what the extractor returns is a
    part of the text that stands between two word boundaries and that the
    stripping leaves as it is; no substring that matches the address grammar
    between two word boundaries starts further left, and none that starts at
    the same place is longer; and unless it holds the character '|' it
    matches the address grammar itself, so that it is then the first such
    substring.  The extractor returns nothing only when the text has no
    substring that matches the grammar between two word boundaries. *)
Theorem extract_email_first_delimited_address (text : str) :
  match extract_email unicode_alnum text with
  | Some e =>
      exists pre post,
        text = pre ++ e ++ post /\
        (~ In (chr "|") e -> address_grammar e) /\
        delimited pre e post /\
        strip edge_chars e = e /\
        forall pre' m' post',
          text = pre' ++ m' ++ post' -> address_grammar m' -> delimited pre' m' post' ->
          (length pre <= length pre')%nat /\
          (length pre' = length pre -> (length m' <= length e)%nat)
  | None =>
      forall pre' m' post',
        text = pre' ++ m' ++ post' -> address_grammar m' -> ~ delimited pre' m' post'
  end.
Proof.
  destruct (extract_email_first_match unicode_alnum text) as [-> _].
  destruct (first_match unicode_alnum pattern None text) as [[[pre m] rest]|] eqn:Hfm.
  - destruct (first_match_matches _ _ _ _ _ Hfm) as [Htext Hm].
    destruct (first_match_Some _ _ _ _ _ _ _ Hfm) as (_ & (others & Hrun) & Hbefore).
    apply pattern_matches_iff in Hm as (l & d & t & Hshape & Hb1 & Hb2).
    destruct (address_shape_chars unicode_alnum _ _ _ _ Hshape) as (Hchars & _ & _).
    rewrite (strip_address m Hchars).
    exists pre, rest. split; [exact Htext|].
    split; [exact (grammar_of_shape m l d t Hshape)|].
    split; [split; assumption|]. split; [exact (strip_address m Hchars)|].
    intros pre' m' post' Htext' Hg' Hd'.
    pose proof (delimited_grammar_matches pre' m' post' Hg' Hd') as Hin'.
    split.
    + destruct (Nat.le_gt_cases (length pre) (length pre')) as [Hle|Hgt]; [exact Hle|].
      rewrite (Hbefore pre' (m' ++ post') Htext' Hgt) in Hin'. contradiction.
    + intros Hlen. rewrite Htext in Htext'.
      apply app_inj_1 in Htext' as [-> Hrest]; [|now symmetry].
      apply run_spec in Hin' as [_ Hm']. rewrite last_or_None in Hm'.
      apply (pattern_head_longest unicode_alnum (last pre') (m ++ rest) m rest m' post');
        [rewrite <- last_or_None, Hrun; reflexivity | exact Hrest | exact Hm'].
  - intros pre' m' post' Htext' Hg' Hd'.
    pose proof (delimited_grammar_matches pre' m' post' Hg' Hd') as Hin'.
    rewrite (first_match_None _ _ _ _ Hfm pre' (m' ++ post') Htext') in Hin'.
    contradiction.
Qed.

End Grammar.

Lemma extract_email_first_delimited_address_witness :
  let text := py "contact: <jane.doe+dev@example.co.uk> for info" in
  let e := py "jane.doe+dev@example.co.uk" in
  extract_email ascii_only text = Some e /\
  exists pre post,
    text = pre ++ e ++ post /\ address_grammar e /\ delimited ascii_only pre e post.
Proof.
  cbv zeta.
  assert (E : extract_email ascii_only (py "contact: <jane.doe+dev@example.co.uk> for info")
              = Some (py "jane.doe+dev@example.co.uk")) by (vm_compute; reflexivity).
  split; [exact E|].
  assert (Hpipe : ~ In (chr "|") (py "jane.doe+dev@example.co.uk")).
  { rewrite <- list_elem_of_In. apply (bool_decide_eq_false_1 _). vm_compute. reflexivity. }
  pose proof (extract_email_first_delimited_address ascii_only
                (py "contact: <jane.doe+dev@example.co.uk> for info")) as H.
  rewrite E in H. destruct H as (pre & post & H1 & H2 & H3 & _).
  exists pre, post. auto.
Defined.

(** A '|' elsewhere in the text does no harm: the address in a table row is
    found, and matches the grammar. *)
Example address_in_a_table_row :
  extract_email ascii_only (py "| Email | jane@example.org |") = Some (py "jane@example.org") /\
  address_grammar (py "jane@example.org").
Proof.
  assert (E : extract_email ascii_only (py "| Email | jane@example.org |")
              = Some (py "jane@example.org")) by (vm_compute; reflexivity).
  split; [exact E|].
  pose proof (extract_email_first_delimited_address ascii_only
                (py "| Email | jane@example.org |")) as H.
  rewrite E in H. destruct H as (pre & post & _ & H2 & _).
  apply H2. rewrite <- list_elem_of_In. apply (bool_decide_eq_false_1 _).
  vm_compute. reflexivity.
Qed.

(** C6 as stated fails, because the pattern asks for word boundaries.  In
    "a@b.com1" the substring "a@b.com" matches the grammar, and nothing is
    returned; in "+a@b.co" the whole text matches the grammar, and what is
    returned starts one character later. *)
Lemma grammar_match_without_boundaries_is_not_returned :
  (forall unicode_alnum, extract_email unicode_alnum (py "a@b.com1") = None) /\
  py "a@b.com1" = [] ++ py "a@b.com" ++ py "1" /\
  address_grammar (py "a@b.com") /\
  (forall unicode_alnum, extract_email unicode_alnum (py "+a@b.co") = Some (py "a@b.co")) /\
  address_grammar (py "+a@b.co").
Proof.
  split; [intros; vm_compute; reflexivity|]. split; [reflexivity|]. split.
  { exists (py "a"), (py "b"), (py "com"). vm_compute. repeat split; try discriminate. lia. }
  split; [intros; vm_compute; reflexivity|].
  exists (py "+a"), (py "b"), (py "co"). vm_compute. repeat split; try discriminate. lia.
Qed.

(** Besides, the class [[A-Z|a-z]] of the pattern holds the character '|',
    so that a top-level part may contain it. *)
Example top_level_part_with_a_bar :
  extract_email ascii_only (py "write to a@b.c|d") = Some (py "a@b.c|d").
Proof. vm_compute. reflexivity. Qed.

Lemma extract_email_returns_the_raw_match_witness :
  head (findall ascii_only pattern (py "contact: <jane.doe+dev@example.co.uk> for info"))
    = Some (py "jane.doe+dev@example.co.uk") /\
  strip edge_chars (py "jane.doe+dev@example.co.uk") = py "jane.doe+dev@example.co.uk".
Proof.
  destruct (extract_email_returns_the_raw_match ascii_only
              (py "contact: <jane.doe+dev@example.co.uk> for info")
              (py "jane.doe+dev@example.co.uk")) as (_ & _ & H & _ & Hs).
  - vm_compute. reflexivity.
  - split; [exact H | exact Hs].
Defined.

(** ** The credential rotator *)

Section Rotator.

Variable W : World.

Local Abbreviation checks := (checks W).
Local Abbreviation always_low := (always_low W).

Lemma get_headers_spec m :
  get_headers m =
  (match api_keys (self m) !! current_key_index (self m) with
   | Some key => Returned (py "token " ++ key)
   | None => Raised IndexError
   end, m).
Proof.
  unfold get_headers, bind, get_self.
  destruct (api_keys (self m) !! current_key_index (self m)); reflexivity.
Qed.

Lemma get_remaining_requests_spec m key :
  api_keys (self m) !! current_key_index (self m) = Some key ->
  get_remaining_requests W m =
  (match respond W (trace m) (quota_request key) with
   | Returned r => if status_code r =? 200 then json_rate_remaining r else Returned 0
   | Raised e => Raised e
   end, sent (quota_request key) m).
Proof.
  intros Hkey. unfold get_remaining_requests, bind.
  rewrite get_headers_spec, Hkey. unfold http_get. fold (quota_request key).
  destruct (respond W (trace m) (quota_request key)) as [r|e]; [|reflexivity].
  destruct (status_code r =? 200); [|reflexivity].
  unfold lift, ret. destruct (json_rate_remaining r); reflexivity.
Qed.

Lemma check_and_switch_key_spec m key :
  api_keys (self m) !! current_key_index (self m) = Some key ->
  Cloud02.check_and_switch_key W m =
  match fst (get_remaining_requests W m) with
  | Raised e => (Raised e, sent (quota_request key) m)
  | Returned q =>
      if q <? 10
      then (Returned tt,
            {| self := rotate (self m);
               trace := trace m ++ [Get (quota_request key)] ++ cooldown (self m) |})
      else (Returned tt, sent (quota_request key) m)
  end.
Proof.
  intros Hkey. unfold Cloud02.check_and_switch_key, bind.
  rewrite (get_remaining_requests_spec m key Hkey). simpl fst.
  destruct (match respond W (trace m) (quota_request key) with
            | Returned r => _ | Raised e => _ end) as [q|e]; [|reflexivity].
  destruct (q <? 10); [|reflexivity].
  assert (Hlen : (0 < length (api_keys (self m)))%nat).
  { apply lookup_lt_Some in Hkey. lia. }
  unfold get_self, sent. simpl.
  destruct (length (api_keys (self m))) eqn:Hn; [lia|].
  unfold modify_self, sleep, emit, ret, rotate, cooldown. simpl. rewrite Hn.
  destruct (18 <=? failed_attempts (self m) + 1); simpl; rewrite <- ?app_assoc; reflexivity.
Qed.

Lemma rotate_index_in_range h :
  (0 < length (api_keys h))%nat ->
  (current_key_index (rotate h) < length (api_keys (rotate h)))%nat.
Proof.
  intros Hn. unfold rotate.
  destruct (18 <=? failed_attempts h + 1); simpl; apply Nat.mod_upper_bound; lia.
Qed.

(** C2. For a rotator whose cursor is inside its (hence non-empty) pool, a
    quota check sends the quota query with the credential the cursor is on,
    and goes by what the service answers to it.  An answer with a status
    other than 200 counts as remaining quota 0, and moves the cursor.  An
    answer with status 200 that reports the remaining quota q is read as q:
    when q is below 10 the cursor moves to (index + 1) mod pool size; when q
    is 10 or more the handler is left as it was and nothing but the query is
    added to the trace; with at least two credentials the cursor changes
    exactly when q is below 10. *)
Theorem check_and_switch_key_advances_cursor (m : Machine) :
  let h := self m in
  let n := length (api_keys h) in
  let m' := snd (Cloud02.check_and_switch_key W m) in
  (current_key_index h < n)%nat ->
  exists key,
    api_keys h !! current_key_index h = Some key /\
    (exists after, trace m' = trace m ++ Get (quota_request key) :: after) /\
    (forall r,
        respond W (trace m) (quota_request key) = Returned r ->
        status_code r <> 200 ->
        fst (get_remaining_requests W m) = Returned 0 /\
        fst (Cloud02.check_and_switch_key W m) = Returned tt /\
        api_keys (self m') = api_keys h /\
        current_key_index (self m') = ((current_key_index h + 1) mod n)%nat) /\
    (forall r q,
        respond W (trace m) (quota_request key) = Returned r ->
        status_code r = 200 ->
        json_rate_remaining r = Returned q ->
        fst (get_remaining_requests W m) = Returned q /\
        fst (Cloud02.check_and_switch_key W m) = Returned tt /\
        api_keys (self m') = api_keys h /\
        (q < 10 -> current_key_index (self m') = ((current_key_index h + 1) mod n)%nat) /\
        (10 <= q -> self m' = h /\ trace m' = trace m ++ [Get (quota_request key)]) /\
        ((1 < n)%nat -> (current_key_index (self m') <> current_key_index h <-> q < 10))).
Proof.
  intros h n m' Hidx.
  destruct (lookup_lt_is_Some_2 _ _ Hidx) as [key Hkey]. exists key.
  split; [exact Hkey|].
  assert (Hsecond : forall q,
      fst (get_remaining_requests W m) = Returned q ->
      fst (Cloud02.check_and_switch_key W m) = Returned tt /\
      api_keys (self m') = api_keys h /\
      (q < 10 -> current_key_index (self m') = ((current_key_index h + 1) mod n)%nat) /\
      (10 <= q -> self m' = h /\ trace m' = trace m ++ [Get (quota_request key)]) /\
      ((1 < n)%nat -> (current_key_index (self m') <> current_key_index h <-> q < 10))).
  { intros q Hq. subst m'. rewrite (check_and_switch_key_spec m key Hkey), Hq.
    destruct (Z.ltb_spec q 10) as [Hlow|Hhigh]; simpl.
    + assert (Hkeys : api_keys (rotate h) = api_keys h).
      { unfold rotate. destruct (18 <=? failed_attempts h + 1); reflexivity. }
      assert (Hcur : current_key_index (rotate h) = ((current_key_index h + 1) mod n)%nat).
      { unfold rotate. destruct (18 <=? failed_attempts h + 1); reflexivity. }
      split; [reflexivity|]. split; [exact Hkeys|]. split; [intros _; exact Hcur|].
      split; [intros; lia|].
      intros Hn. split; [intros _; exact Hlow|]. intros _. fold h. rewrite Hcur. intros Heq.
      destruct (Nat.eq_dec (current_key_index h + 1)%nat n) as [E|E].
      * rewrite E, Nat.Div0.mod_same in Heq. lia.
      * rewrite Nat.mod_small in Heq; lia.
    + split; [reflexivity|]. split; [reflexivity|]. split; [intros; lia|].
      split; [intros _; split; reflexivity|].
      intros _. split; [intros Hne; contradiction | intros; lia]. }
  split; [|split].
  - subst m'. rewrite (check_and_switch_key_spec m key Hkey).
    destruct (fst (get_remaining_requests W m)) as [q|e]; [destruct (q <? 10)|];
      cbn [snd trace sent]; eauto.
  - intros r Hr Hstatus.
    assert (Hzero : fst (get_remaining_requests W m) = Returned 0).
    { rewrite (get_remaining_requests_spec m key Hkey), Hr. simpl.
      destruct (Z.eqb_spec (status_code r) 200); congruence. }
    split; [exact Hzero|].
    destruct (Hsecond 0 Hzero) as (Hret & Hkeys & Hrot & _).
    split; [exact Hret|]. split; [exact Hkeys|]. apply Hrot. lia.
  - intros r q Hr Hstatus Hjson.
    assert (Hq : fst (get_remaining_requests W m) = Returned q).
    { rewrite (get_remaining_requests_spec m key Hkey), Hr. simpl.
      rewrite Hstatus. exact Hjson. }
    split; [exact Hq|]. exact (Hsecond q Hq).
Qed.

Lemma checks_S k m :
  checks (S k) m = snd (Cloud02.check_and_switch_key W (checks k m)).
Proof. reflexivity. Qed.

Lemma sleeps_app tr1 tr2 : sleeps (tr1 ++ tr2) = sleeps tr1 ++ sleeps tr2.
Proof. apply omap_app. Qed.

Lemma always_low_remaining m :
  always_low ->
  (current_key_index (self m) < length (api_keys (self m)))%nat ->
  exists q, fst (get_remaining_requests W m) = Returned q /\ q < 10.
Proof.
  intros Hlow Hidx. destruct (lookup_lt_is_Some_2 _ _ Hidx) as [key Hkey].
  rewrite (get_remaining_requests_spec m key Hkey). simpl.
  destruct (Hlow (trace m) (quota_request key)) as (r & -> & Hr).
  destruct (Z.eqb_spec (status_code r) 200) as [E|E].
  - destruct Hr as [Hr|(q & -> & Hq)]; [contradiction|]. eauto.
  - exists 0. split; [reflexivity|lia].
Qed.

Lemma low_check_step m q :
  (current_key_index (self m) < length (api_keys (self m)))%nat ->
  fst (get_remaining_requests W m) = Returned q ->
  q < 10 ->
  let m' := snd (Cloud02.check_and_switch_key W m) in
  (18 <= failed_attempts (self m) + 1 ->
     sleeps (trace m') = sleeps (trace m) ++ [3900] /\
     last (trace m') = Some (Sleep 3900) /\
     failed_attempts (self m') = 0) /\
  (failed_attempts (self m) + 1 < 18 ->
     sleeps (trace m') = sleeps (trace m) /\
     failed_attempts (self m') = failed_attempts (self m) + 1) /\
  api_keys (self m') = api_keys (self m) /\
  (current_key_index (self m') < length (api_keys (self m')))%nat.
Proof.
  intros Hidx Hq Hlow. destruct (lookup_lt_is_Some_2 _ _ Hidx) as [key Hkey].
  rewrite (check_and_switch_key_spec m key Hkey), Hq.
  destruct (Z.ltb_spec q 10); [|lia]. simpl.
  assert (Hn : (0 < length (api_keys (self m)))%nat) by lia.
  pose proof (rotate_index_in_range (self m) Hn) as Hrange.
  unfold rotate, cooldown in *.
  destruct (Z.leb_spec 18 (failed_attempts (self m) + 1)); simpl in *.
  - repeat split; auto; try lia.
    + rewrite !sleeps_app. reflexivity.
    + rewrite last_app. reflexivity.
  - repeat split; auto; try lia.
    rewrite !sleeps_app. simpl. now rewrite ?app_nil_r.
Qed.

Lemma low_checks_before_threshold m :
  always_low ->
  (current_key_index (self m) < length (api_keys (self m)))%nat ->
  forall k : nat,
    failed_attempts (self m) + Z.of_nat k < 18 ->
    sleeps (trace (checks k m)) = sleeps (trace m) /\
    failed_attempts (self (checks k m)) = failed_attempts (self m) + Z.of_nat k /\
    (current_key_index (self (checks k m)) < length (api_keys (self (checks k m))))%nat.
Proof.
  intros Hlow Hidx. induction k as [|k IH]; intros Hk.
  - simpl. repeat split; auto. lia.
  - destruct IH as (Hs & Hf & Hi); [lia|].
    destruct (always_low_remaining (checks k m) Hlow Hi) as (q & Hq & Hq10).
    destruct (low_check_step (checks k m) q Hi Hq Hq10) as (_ & Hstep & _ & Hi').
    destruct Hstep as (Hs' & Hf'); [lia|]. rewrite checks_S.
    repeat split; auto; try congruence. lia.
Qed.

(** C3, as the code has it.  A quota check that detects low quota and thereby
    brings the rotation counter to 18 blocks for 3900 seconds in that same
    call, as its last act, and leaves the counter at 0; below 18 it does not
    block and the counter goes up by one.  Hence, from a counter of 0 and with
    every check detecting low quota, none of the first 17 checks blocks, and it
    is the 18th check that blocks, once, after which the counter is 0. *)
Theorem cooldown_blocks_the_detecting_check (m : Machine) :
  (current_key_index (self m) < length (api_keys (self m)))%nat ->
  (forall q,
      fst (get_remaining_requests W m) = Returned q ->
      q < 10 ->
      let m' := snd (Cloud02.check_and_switch_key W m) in
      (18 <= failed_attempts (self m) + 1 ->
         sleeps (trace m') = sleeps (trace m) ++ [3900] /\
         last (trace m') = Some (Sleep 3900) /\
         failed_attempts (self m') = 0) /\
      (failed_attempts (self m) + 1 < 18 ->
         sleeps (trace m') = sleeps (trace m) /\
         failed_attempts (self m') = failed_attempts (self m) + 1)) /\
  (always_low ->
   failed_attempts (self m) = 0 ->
   (forall k : nat, (k <= 17)%nat ->
      sleeps (trace (checks k m)) = sleeps (trace m) /\
      failed_attempts (self (checks k m)) = Z.of_nat k) /\
   sleeps (trace (checks 18 m)) = sleeps (trace m) ++ [3900] /\
   last (trace (checks 18 m)) = Some (Sleep 3900) /\
   failed_attempts (self (checks 18 m)) = 0).
Proof.
  intros Hidx. split.
  - intros q Hq Hq10.
    destruct (low_check_step m q Hidx Hq Hq10) as (H18 & Hlt & _). split; assumption.
  - intros Hlow H0. split.
    + intros k Hk.
      destruct (low_checks_before_threshold m Hlow Hidx k) as (Hs & Hf & _); [lia|].
      split; [assumption|lia].
    + destruct (low_checks_before_threshold m Hlow Hidx 17) as (Hs & Hf & Hi); [lia|].
      destruct (always_low_remaining (checks 17 m) Hlow Hi) as (q & Hq & Hq10).
      destruct (low_check_step (checks 17 m) q Hi Hq Hq10) as (H18 & _).
      destruct H18 as (Hs' & Hlast & Hf'); [lia|].
      rewrite (checks_S 17), Hs', Hs. auto.
Qed.

End Rotator.

(** *** The rotator on a sample pool *)

Lemma world_403_always_low : always_low world_403.
Proof.
  intros tr req. eexists. split; [reflexivity|]. left. simpl. lia.
Qed.

Lemma check_and_switch_key_advances_cursor_witness :
  current_key_index (self (snd (Cloud02.check_and_switch_key world_403 two_keys))) = 1%nat /\
  self (snd (Cloud02.check_and_switch_key sample_service two_keys)) = self two_keys /\
  trace (snd (Cloud02.check_and_switch_key sample_service two_keys))
    = [Get (quota_request (py "key-a"))].
Proof.
  split.
  - destruct (check_and_switch_key_advances_cursor world_403 two_keys)
      as (key & Hkey & _ & H & _); [simpl; lia|].
    injection Hkey as <-.
    destruct (H (no_body 403)) as (_ & _ & _ & Hrot); [reflexivity | discriminate |].
    rewrite Hrot. reflexivity.
  - destruct (check_and_switch_key_advances_cursor sample_service two_keys)
      as (key & Hkey & _ & _ & H); [simpl; lia|].
    injection Hkey as <-.
    destruct (H (json_reply (Returned 5000) (Raised KeyError)) 5000)
      as (_ & _ & _ & _ & Hsame & _); [reflexivity | reflexivity | reflexivity |].
    apply Hsame. lia.
Defined.

Lemma cooldown_blocks_the_detecting_check_witness :
  sleeps (trace (checks world_403 18 two_keys)) = [3900] /\
  failed_attempts (self (checks world_403 18 two_keys)) = 0.
Proof.
  destruct (cooldown_blocks_the_detecting_check world_403 two_keys) as [_ H].
  - simpl. lia.
  - destruct (H world_403_always_low eq_refl) as (_ & Hs & _ & Hf).
    split; [exact Hs | exact Hf].
Defined.

(** C3 as stated fails: after 18 low-quota detections the cooldown has
    already been taken (by the 18th check) and the counter is 0 again; the
    next check, the 19th, detects low quota too and does not block: it only
    sends its quota query and leaves the counter at 1. *)
Lemma next_check_after_threshold_does_not_block :
  sleeps (trace (checks world_403 18 two_keys)) = [3900] /\
  failed_attempts (self (checks world_403 18 two_keys)) = 0 /\
  fst (get_remaining_requests world_403 (checks world_403 18 two_keys)) = Returned 0 /\
  trace (checks world_403 19 two_keys) =
    trace (checks world_403 18 two_keys) ++ [Get (quota_request (py "key-a"))] /\
  sleeps (trace (checks world_403 19 two_keys)) = [3900] /\
  failed_attempts (self (checks world_403 19 two_keys)) = 1.
Proof. vm_compute. repeat split; reflexivity. Qed.

(** ** The directory lookup *)

Section Lookup.

Variable unicode_alnum : char -> bool.
Variable W : World.

Local Abbreviation extract_email := (extract_email unicode_alnum).
Local Abbreviation get_user_info_from_github_api :=
  (Cloud02.get_user_info_from_github_api unicode_alnum W).

Lemma get_email_from_readme_spec key username m :
  get_email_from_readme unicode_alnum W username (py "token " ++ key) m =
  (match respond W (trace m) (readme_request key username) with
   | Returned d =>
       Returned (if status_code d =? 200
                 then of_option (extract_email (text d)) else PyNone)
   | Raised e => Raised e
   end, sent (readme_request key username) m).
Proof.
  unfold get_email_from_readme, bind, http_get. fold (readme_request key username).
  destruct (respond W (trace m) (readme_request key username)) as [d|e]; [|reflexivity].
  destruct (status_code d =? 200); reflexivity.
Qed.

(** The lookup, once the quota check has returned and left the cursor on
    [key]. *)
Lemma get_user_info_spec reference m key :
  let m1 := snd (Cloud02.check_and_switch_key W m) in
  fst (Cloud02.check_and_switch_key W m) = Returned tt ->
  api_keys (self m1) !! current_key_index (self m1) = Some key ->
  let username := username_of reference in
  let m2 := sent (profile_request key username) (counted m1) in
  get_user_info_from_github_api reference m =
  match respond W (trace m1) (profile_request key username) with
  | Raised e => (Raised e, m2)
  | Returned p =>
      if negb (status_code p =? 200) then (Returned PyNone, m2)
      else match json_email p with
           | Raised e => (Raised e, m2)
           | Returned user_data =>
               let email := match user_data with Some v => v | None => PyStr [] end in
               if truthy email then (Returned email, m2)
               else get_email_from_readme unicode_alnum W username (py "token " ++ key) m2
           end
  end.
Proof.
  intros m1 Hcheck Hkey username m2.
  unfold Cloud02.get_user_info_from_github_api, bind.
  destruct (Cloud02.check_and_switch_key W m) as [res m1'] eqn:E.
  simpl in Hcheck, m1. subst res. subst m1.
  rewrite get_headers_spec, Hkey. unfold modify_self, http_get.
  subst m2 username. unfold sent, counted, profile_request. cbn [self trace].
  destruct (respond W (trace m1') _) as [p|e]; [|reflexivity].
  destruct (status_code p =? 200); cbn [negb]; [|reflexivity].
  unfold lift. destruct (json_email p) as [ud|e]; [|reflexivity].
  destruct (truthy _); reflexivity.
Qed.

(** C1. Once the quota check has returned: a profile reply with a status other
    than 200 gives an absent result; a reply with a non-empty e-mail field
    gives that field; in both cases the profile query is the only request made
    (no document is fetched).  When the field is missing, null or empty the
    README is fetched, and the result is what the contact extractor finds in
    its body when the fetch answers 200, and absent when the fetch answers
    another status or the body holds no address. *)
Theorem lookup_structured_field_then_document (reference : str) (m : Machine)
    (key : str) (p : Response) :
  let m1 := snd (Cloud02.check_and_switch_key W m) in
  fst (Cloud02.check_and_switch_key W m) = Returned tt ->
  api_keys (self m1) !! current_key_index (self m1) = Some key ->
  let username := username_of reference in
  let asked := trace m1 ++ [Get (profile_request key username)] in
  respond W (trace m1) (profile_request key username) = Returned p ->
  let result := fst (get_user_info_from_github_api reference m) in
  let final := trace (snd (get_user_info_from_github_api reference m)) in
  (status_code p <> 200 -> result = Returned PyNone /\ final = asked) /\
  (status_code p = 200 ->
   forall e, json_email p = Returned (Some (PyStr e)) -> e <> [] ->
     result = Returned (PyStr e) /\ final = asked) /\
  (status_code p = 200 ->
   json_email p = Returned None \/
   json_email p = Returned (Some PyNone) \/
   json_email p = Returned (Some (PyStr [])) ->
     final = asked ++ [Get (readme_request key username)] /\
     forall d, respond W asked (readme_request key username) = Returned d ->
       (status_code d <> 200 -> result = Returned PyNone) /\
       (status_code d = 200 -> result = Returned (of_option (extract_email (text d)))) /\
       (status_code d = 200 -> extract_email (text d) = None -> result = Returned PyNone)).
Proof.
  intros m1 Hcheck Hkey username asked Hp result final.
  subst result final.
  rewrite (get_user_info_spec reference m key Hcheck Hkey).
  fold m1 username. rewrite Hp.
  split; [|split].
  - intros Hs. destruct (Z.eqb_spec (status_code p) 200); [contradiction|].
    split; reflexivity.
  - intros Hs e He Hne. rewrite Hs, He. cbn [Z.eqb Pos.eqb negb].
    destruct e as [|c e]; [contradiction|]. split; reflexivity.
  - intros Hs Hemail. rewrite Hs. cbn [Z.eqb Pos.eqb negb].
    destruct Hemail as [He|[He|He]]; rewrite He; cbv zeta; cbn [truthy];
      rewrite get_email_from_readme_spec; cbn [fst snd];
      (split; [reflexivity|]);
      intros d Hd; unfold sent, counted; cbn [trace]; fold asked; rewrite Hd;
      (split; [|split]);
      [ intros Hd200; destruct (Z.eqb_spec (status_code d) 200); [contradiction|reflexivity]
      | intros ->; reflexivity
      | intros -> ->; reflexivity
      | intros Hd200; destruct (Z.eqb_spec (status_code d) 200); [contradiction|reflexivity]
      | intros ->; reflexivity
      | intros -> ->; reflexivity
      | intros Hd200; destruct (Z.eqb_spec (status_code d) 200); [contradiction|reflexivity]
      | intros ->; reflexivity
      | intros -> ->; reflexivity ].
Qed.

End Lookup.

Lemma lookup_structured_field_then_document_witness :
  fst (Cloud02.get_user_info_from_github_api ascii_only sample_service
         (py "https://github.com/alice") two_keys)
    = Returned (PyStr (py "alice@example.org")) /\
  trace (snd (Cloud02.get_user_info_from_github_api ascii_only sample_service
                (py "https://github.com/alice") two_keys))
    = [Get (quota_request (py "key-a")); Get (profile_request (py "key-a") (py "alice"))].
Proof.
  destruct (lookup_structured_field_then_document ascii_only sample_service
              (py "https://github.com/alice") two_keys (py "key-a")
              (json_reply (Raised KeyError)
                          (Returned (Some (PyStr (py "alice@example.org"))))))
    as (_ & H & _); try (vm_compute; reflexivity).
  destruct (H eq_refl (py "alice@example.org") eq_refl) as [Hr Ht].
  - discriminate.
  - split; [exact Hr | exact Ht].
Defined.

(** *** Normalising the profile reference *)

Lemma startswith_app (p s : str) : startswith p (p ++ s) = true.
Proof.
  induction p as [|a p IH]; simpl; [reflexivity|].
  now rewrite N.eqb_refl, IH.
Qed.

Lemma split_on_no_sep sep (s : str) : ~ In sep s -> split_on sep s = [s].
Proof.
  induction s as [|c s IH]; simpl; intros Hs; [reflexivity|].
  destruct (N.eqb_spec c sep) as [->|Hne].
  - exfalso. apply Hs. now left.
  - rewrite IH; [reflexivity|]. intros Hin. apply Hs. now right.
Qed.

Lemma split_on_cons sep (s : str) : exists piece pieces, split_on sep s = piece :: pieces.
Proof.
  destruct s as [|c s]; simpl; [eauto|].
  destruct (c =? sep)%N; [eauto|]. destruct (split_on sep s); eauto.
Qed.

Lemma split_on_app sep (a s : str) :
  exists p init, split_on sep (a ++ sep :: s) = (p :: init) ++ split_on sep s.
Proof.
  induction a as [|c a (p & init & IH)]; simpl.
  - rewrite N.eqb_refl. now exists [], [].
  - rewrite IH. destruct (c =? sep)%N.
    + now exists [], (p :: init).
    + now exists (c :: p), init.
Qed.

Lemma last_split_on_app sep (a s : str) :
  last (split_on sep (a ++ sep :: s)) = last (split_on sep s).
Proof.
  destruct (split_on_app sep a s) as (p & init & ->).
  destruct (split_on_cons sep s) as (piece & pieces & E).
  rewrite last_app, E. destruct (last (piece :: pieces)) eqn:L; [reflexivity|].
  apply last_None in L. discriminate.
Qed.

Lemma profile_prefix_ends_with_slash :
  exists q, profile_prefix = q ++ [chr "/"].
Proof. exists (py "https://github.com"). reflexivity. Qed.

(** C8, as the code has it.  A reference that does not start with the prefix
    is its own handle.  For a reference [prefix ++ s] the handle is what
    follows the last '/' of [s]: all of [s] when [s] has no '/', and otherwise
    only its last path segment. *)
Theorem username_of_takes_last_segment (s : str) :
  (startswith profile_prefix s = false -> username_of s = s) /\
  (~ In (chr "/") s -> username_of (profile_prefix ++ s) = s) /\
  (forall a b, s = a ++ chr "/" :: b -> ~ In (chr "/") b ->
     username_of (profile_prefix ++ s) = b).
Proof.
  destruct profile_prefix_ends_with_slash as [q Hq].
  split; [|split].
  - intros H. unfold username_of. now rewrite H.
  - intros Hs. unfold username_of. rewrite startswith_app.
    rewrite Hq, <- app_assoc. cbn [app].
    rewrite last_split_on_app, split_on_no_sep by assumption. reflexivity.
  - intros a b -> Hb. unfold username_of. rewrite startswith_app.
    rewrite app_assoc, last_split_on_app, split_on_no_sep by assumption. reflexivity.
Qed.

Lemma username_of_takes_last_segment_witness :
  username_of (profile_prefix ++ py "octocat") = py "octocat".
Proof.
  destruct (username_of_takes_last_segment (py "octocat")) as (_ & H & _).
  apply H. vm_compute. intuition discriminate.
Defined.

(** C8 as stated fails for a string that holds a '/': the handle is its last
    segment, not the string. *)
Lemma username_of_drops_leading_segments :
  username_of (profile_prefix ++ py "octocat/hello") = py "hello" /\
  username_of (profile_prefix ++ py "octocat/") = [] /\
  py "hello" <> py "octocat/hello" /\
  [] <> py "octocat/".
Proof. vm_compute. repeat split; discriminate. Qed.

(** *** The transport of each request *)

(** C9 fails on the document query: looking up bob, whose profile has no
    e-mail, sends the quota query and the profile query through the retrying
    session, and the README query with the plain [requests.get]. *)
Theorem readme_query_is_not_retried :
  let m := snd (Cloud02.get_user_info_from_github_api ascii_only sample_service
                  (py "bob") two_keys) in
  fst (Cloud02.get_user_info_from_github_api ascii_only sample_service
         (py "bob") two_keys) = Returned (PyStr (py "bob@example.org")) /\
  map url (requests (trace m)) =
    [rate_limit_url; users_url (py "bob"); readme_url (py "bob")] /\
  map via (requests (trace m)) =
    [requests_retry_session; requests_retry_session; Plain] /\
  requests_retry_session =
    Session {| total := 3; read := 3; connect := 3; backoff_factor := (3, 10);
               status_forcelist := [500; 502; 504] |}.
Proof. vm_compute. repeat split; reflexivity. Qed.

(** ** The batch runner *)

(** *** What a lookup adds to the trace *)

Lemma quiet_ret {A} (a : A) : quiet (ret a).
Proof. intros m. exists []. split; [symmetry; apply app_nil_r | constructor]. Qed.

Lemma quiet_raise {A} e : quiet (@raise A e).
Proof. intros m. exists []. split; [symmetry; apply app_nil_r | constructor]. Qed.

Lemma quiet_lift {A} (o : outcome A) : quiet (lift o).
Proof. intros m. exists []. split; [symmetry; apply app_nil_r | constructor]. Qed.

Lemma quiet_get_self : quiet get_self.
Proof. intros m. exists []. split; [symmetry; apply app_nil_r | constructor]. Qed.

Lemma quiet_modify_self f : quiet (modify_self f).
Proof. intros m. exists []. split; [symmetry; apply app_nil_r | constructor]. Qed.

Lemma quiet_sleep s : quiet (sleep s).
Proof. intros m. exists [Sleep s]. split; [reflexivity | repeat constructor]. Qed.

Lemma quiet_http_get W t u h : quiet (http_get W t u h).
Proof.
  intros m. exists [Get {| via := t; url := u; authorization := h |}].
  split; [reflexivity | repeat constructor].
Qed.

Lemma quiet_bind {A B} (c : M A) (k : A -> M B) :
  quiet c -> (forall a, quiet (k a)) -> quiet (bind c k).
Proof.
  intros Hc Hk m. unfold bind. destruct (Hc m) as (tr1 & E1 & F1).
  destruct (c m) as [[a|e] m1]; simpl in *.
  - destruct (Hk a m1) as (tr2 & E2 & F2). exists (tr1 ++ tr2).
    rewrite E2, E1, app_assoc. split; [reflexivity | now apply Forall_app].
  - exists tr1. auto.
Qed.

Ltac quiet :=
  repeat first
    [ apply quiet_ret | apply quiet_raise | apply quiet_lift | apply quiet_get_self
    | apply quiet_modify_self | apply quiet_sleep | apply quiet_http_get
    | apply quiet_bind; [|intros]
    | match goal with
      | |- quiet (if ?b then _ else _) => destruct b
      | |- quiet (match ?x with _ => _ end) => destruct x
      end ].

Lemma quiet_get_headers : quiet get_headers.
Proof. unfold get_headers. quiet. Qed.

Lemma quiet_get_remaining_requests W : quiet (get_remaining_requests W).
Proof. unfold get_remaining_requests. quiet. Qed.

Lemma quiet_get_email_from_readme ua W u h : quiet (get_email_from_readme ua W u h).
Proof. unfold get_email_from_readme. quiet. Qed.

Lemma quiet_check_and_switch_key_02 W : quiet (Cloud02.check_and_switch_key W).
Proof. unfold Cloud02.check_and_switch_key. quiet. Qed.

Lemma quiet_check_and_switch_key_03 W : quiet (Cloud03.check_and_switch_key W).
Proof. unfold Cloud03.check_and_switch_key. quiet. Qed.

Lemma quiet_get_user_info_02 ua W reference :
  quiet (Cloud02.get_user_info_from_github_api ua W reference).
Proof.
  unfold Cloud02.get_user_info_from_github_api. quiet.
Qed.

Lemma quiet_get_user_info_03 ua W reference :
  quiet (Cloud03.get_user_info_from_github_api ua W reference).
Proof.
  unfold Cloud03.get_user_info_from_github_api. quiet.
Qed.

(** *** The runner's state, field by field *)

Arguments thirty_minutes : simpl never.

(** Each update of the runner's state, field by field. *)

Lemma machine_with_machine (m : Machine) (st : Cloud02.Run) :
  Cloud02.machine (Cloud02.with_machine m st) = m.
Proof. destruct st; reflexivity. Qed.

Lemma files_with_machine (m : Machine) (st : Cloud02.Run) :
  Cloud02.files (Cloud02.with_machine m st) = Cloud02.files st.
Proof. destruct st; reflexivity. Qed.

Lemma input_df_with_machine (m : Machine) (st : Cloud02.Run) :
  Cloud02.input_df (Cloud02.with_machine m st) = Cloud02.input_df st.
Proof. destruct st; reflexivity. Qed.

Lemma output_df_with_machine (m : Machine) (st : Cloud02.Run) :
  Cloud02.output_df (Cloud02.with_machine m st) = Cloud02.output_df st.
Proof. destruct st; reflexivity. Qed.

Lemma new_rows_with_machine (m : Machine) (st : Cloud02.Run) :
  Cloud02.new_rows (Cloud02.with_machine m st) = Cloud02.new_rows st.
Proof. destruct st; reflexivity. Qed.

Lemma processed_profiles_with_machine (m : Machine) (st : Cloud02.Run) :
  Cloud02.processed_profiles (Cloud02.with_machine m st) = Cloud02.processed_profiles st.
Proof. destruct st; reflexivity. Qed.

Lemma last_save_time_with_machine (m : Machine) (st : Cloud02.Run) :
  Cloud02.last_save_time (Cloud02.with_machine m st) = Cloud02.last_save_time st.
Proof. destruct st; reflexivity. Qed.

Lemma machine_log (e : Event) (st : Cloud02.Run) :
  Cloud02.machine (Cloud02.log e st) = {| self := self (Cloud02.machine st); trace := trace (Cloud02.machine st) ++ [e] |}.
Proof. destruct st; reflexivity. Qed.

Lemma files_log (e : Event) (st : Cloud02.Run) :
  Cloud02.files (Cloud02.log e st) = Cloud02.files st.
Proof. destruct st; reflexivity. Qed.

Lemma input_df_log (e : Event) (st : Cloud02.Run) :
  Cloud02.input_df (Cloud02.log e st) = Cloud02.input_df st.
Proof. destruct st; reflexivity. Qed.

Lemma output_df_log (e : Event) (st : Cloud02.Run) :
  Cloud02.output_df (Cloud02.log e st) = Cloud02.output_df st.
Proof. destruct st; reflexivity. Qed.

Lemma new_rows_log (e : Event) (st : Cloud02.Run) :
  Cloud02.new_rows (Cloud02.log e st) = Cloud02.new_rows st.
Proof. destruct st; reflexivity. Qed.

Lemma processed_profiles_log (e : Event) (st : Cloud02.Run) :
  Cloud02.processed_profiles (Cloud02.log e st) = Cloud02.processed_profiles st.
Proof. destruct st; reflexivity. Qed.

Lemma last_save_time_log (e : Event) (st : Cloud02.Run) :
  Cloud02.last_save_time (Cloud02.log e st) = Cloud02.last_save_time st.
Proof. destruct st; reflexivity. Qed.

Lemma machine_resolved (index : nat) (row : InputRecord) (email : pyval) (st : Cloud02.Run) :
  Cloud02.machine (Cloud02.resolved index row email st) = Cloud02.machine st.
Proof. destruct st; reflexivity. Qed.

Lemma files_resolved (index : nat) (row : InputRecord) (email : pyval) (st : Cloud02.Run) :
  Cloud02.files (Cloud02.resolved index row email st) = Cloud02.files st.
Proof. destruct st; reflexivity. Qed.

Lemma input_df_resolved (index : nat) (row : InputRecord) (email : pyval) (st : Cloud02.Run) :
  Cloud02.input_df (Cloud02.resolved index row email st) = alter (set_Status (py "Done")) index (Cloud02.input_df st).
Proof. destruct st; reflexivity. Qed.

Lemma output_df_resolved (index : nat) (row : InputRecord) (email : pyval) (st : Cloud02.Run) :
  Cloud02.output_df (Cloud02.resolved index row email st) = Cloud02.output_df st.
Proof. destruct st; reflexivity. Qed.

Lemma new_rows_resolved (index : nat) (row : InputRecord) (email : pyval) (st : Cloud02.Run) :
  Cloud02.new_rows (Cloud02.resolved index row email st) = Cloud02.new_rows st ++ [{| out_Username := Username row; out_User_ID := User_ID row; out_Profile_URL := Profile_URL row; out_Email := email |}].
Proof. destruct st; reflexivity. Qed.

Lemma processed_profiles_resolved (index : nat) (row : InputRecord) (email : pyval) (st : Cloud02.Run) :
  Cloud02.processed_profiles (Cloud02.resolved index row email st) = {[Profile_URL row]} ∪ Cloud02.processed_profiles st.
Proof. destruct st; reflexivity. Qed.

Lemma last_save_time_resolved (index : nat) (row : InputRecord) (email : pyval) (st : Cloud02.Run) :
  Cloud02.last_save_time (Cloud02.resolved index row email st) = Cloud02.last_save_time st.
Proof. destruct st; reflexivity. Qed.

Lemma machine_clear_new_rows  (st : Cloud02.Run) :
  Cloud02.machine (Cloud02.clear_new_rows st) = Cloud02.machine st.
Proof. destruct st; reflexivity. Qed.

Lemma files_clear_new_rows  (st : Cloud02.Run) :
  Cloud02.files (Cloud02.clear_new_rows st) = Cloud02.files st.
Proof. destruct st; reflexivity. Qed.

Lemma input_df_clear_new_rows  (st : Cloud02.Run) :
  Cloud02.input_df (Cloud02.clear_new_rows st) = Cloud02.input_df st.
Proof. destruct st; reflexivity. Qed.

Lemma output_df_clear_new_rows  (st : Cloud02.Run) :
  Cloud02.output_df (Cloud02.clear_new_rows st) = Cloud02.output_df st.
Proof. destruct st; reflexivity. Qed.

Lemma new_rows_clear_new_rows  (st : Cloud02.Run) :
  Cloud02.new_rows (Cloud02.clear_new_rows st) = [].
Proof. destruct st; reflexivity. Qed.

Lemma processed_profiles_clear_new_rows  (st : Cloud02.Run) :
  Cloud02.processed_profiles (Cloud02.clear_new_rows st) = Cloud02.processed_profiles st.
Proof. destruct st; reflexivity. Qed.

Lemma last_save_time_clear_new_rows  (st : Cloud02.Run) :
  Cloud02.last_save_time (Cloud02.clear_new_rows st) = Cloud02.last_save_time st.
Proof. destruct st; reflexivity. Qed.

Lemma machine_write_input  (st : Cloud02.Run) :
  Cloud02.machine (Cloud02.write_input st) = Cloud02.machine st.
Proof. destruct st; reflexivity. Qed.

Lemma files_write_input  (st : Cloud02.Run) :
  Cloud02.files (Cloud02.write_input st) = {| input_csv := Some (Cloud02.input_df st); output_csv := output_csv (Cloud02.files st) |}.
Proof. destruct st; reflexivity. Qed.

Lemma input_df_write_input  (st : Cloud02.Run) :
  Cloud02.input_df (Cloud02.write_input st) = Cloud02.input_df st.
Proof. destruct st; reflexivity. Qed.

Lemma output_df_write_input  (st : Cloud02.Run) :
  Cloud02.output_df (Cloud02.write_input st) = Cloud02.output_df st.
Proof. destruct st; reflexivity. Qed.

Lemma new_rows_write_input  (st : Cloud02.Run) :
  Cloud02.new_rows (Cloud02.write_input st) = Cloud02.new_rows st.
Proof. destruct st; reflexivity. Qed.

Lemma processed_profiles_write_input  (st : Cloud02.Run) :
  Cloud02.processed_profiles (Cloud02.write_input st) = Cloud02.processed_profiles st.
Proof. destruct st; reflexivity. Qed.

Lemma last_save_time_write_input  (st : Cloud02.Run) :
  Cloud02.last_save_time (Cloud02.write_input st) = Cloud02.last_save_time st.
Proof. destruct st; reflexivity. Qed.

Lemma machine_set_last_save_time (t : Z) (st : Cloud02.Run) :
  Cloud02.machine (Cloud02.set_last_save_time t st) = Cloud02.machine st.
Proof. destruct st; reflexivity. Qed.

Lemma files_set_last_save_time (t : Z) (st : Cloud02.Run) :
  Cloud02.files (Cloud02.set_last_save_time t st) = Cloud02.files st.
Proof. destruct st; reflexivity. Qed.

Lemma input_df_set_last_save_time (t : Z) (st : Cloud02.Run) :
  Cloud02.input_df (Cloud02.set_last_save_time t st) = Cloud02.input_df st.
Proof. destruct st; reflexivity. Qed.

Lemma output_df_set_last_save_time (t : Z) (st : Cloud02.Run) :
  Cloud02.output_df (Cloud02.set_last_save_time t st) = Cloud02.output_df st.
Proof. destruct st; reflexivity. Qed.

Lemma new_rows_set_last_save_time (t : Z) (st : Cloud02.Run) :
  Cloud02.new_rows (Cloud02.set_last_save_time t st) = Cloud02.new_rows st.
Proof. destruct st; reflexivity. Qed.

Lemma processed_profiles_set_last_save_time (t : Z) (st : Cloud02.Run) :
  Cloud02.processed_profiles (Cloud02.set_last_save_time t st) = Cloud02.processed_profiles st.
Proof. destruct st; reflexivity. Qed.

Lemma last_save_time_set_last_save_time (t : Z) (st : Cloud02.Run) :
  Cloud02.last_save_time (Cloud02.set_last_save_time t st) = t.
Proof. destruct st; reflexivity. Qed.

Lemma machine_write_output  (st : Cloud02.Run) :
  Cloud02.machine (Cloud02.write_output st) = Cloud02.machine st.
Proof. destruct st as [? [? ?] ? ? [|? ?] ? ?]; unfold Cloud02.write_output; simpl; rewrite ?app_nil_r; reflexivity. Qed.

Lemma files_write_output  (st : Cloud02.Run) :
  Cloud02.files (Cloud02.write_output st) = {| input_csv := input_csv (Cloud02.files st); output_csv := match Cloud02.new_rows st with [] => output_csv (Cloud02.files st) | _ :: _ => Some (Cloud02.output_df st ++ Cloud02.new_rows st) end |}.
Proof. destruct st as [? [? ?] ? ? [|? ?] ? ?]; unfold Cloud02.write_output; simpl; rewrite ?app_nil_r; reflexivity. Qed.

Lemma input_df_write_output  (st : Cloud02.Run) :
  Cloud02.input_df (Cloud02.write_output st) = Cloud02.input_df st.
Proof. destruct st as [? [? ?] ? ? [|? ?] ? ?]; unfold Cloud02.write_output; simpl; rewrite ?app_nil_r; reflexivity. Qed.

Lemma output_df_write_output  (st : Cloud02.Run) :
  Cloud02.output_df (Cloud02.write_output st) = Cloud02.output_df st ++ Cloud02.new_rows st.
Proof. destruct st as [? [? ?] ? ? [|? ?] ? ?]; unfold Cloud02.write_output; simpl; rewrite ?app_nil_r; reflexivity. Qed.

Lemma new_rows_write_output  (st : Cloud02.Run) :
  Cloud02.new_rows (Cloud02.write_output st) = Cloud02.new_rows st.
Proof. destruct st as [? [? ?] ? ? [|? ?] ? ?]; unfold Cloud02.write_output; simpl; rewrite ?app_nil_r; reflexivity. Qed.

Lemma processed_profiles_write_output  (st : Cloud02.Run) :
  Cloud02.processed_profiles (Cloud02.write_output st) = Cloud02.processed_profiles st.
Proof. destruct st as [? [? ?] ? ? [|? ?] ? ?]; unfold Cloud02.write_output; simpl; rewrite ?app_nil_r; reflexivity. Qed.

Lemma last_save_time_write_output  (st : Cloud02.Run) :
  Cloud02.last_save_time (Cloud02.write_output st) = Cloud02.last_save_time st.
Proof. destruct st as [? [? ?] ? ? [|? ?] ? ?]; unfold Cloud02.write_output; simpl; rewrite ?app_nil_r; reflexivity. Qed.

Create Rewrite HintDb runner.
#[local] Hint Rewrite
  machine_with_machine files_with_machine input_df_with_machine output_df_with_machine
  new_rows_with_machine processed_profiles_with_machine last_save_time_with_machine machine_log
  files_log input_df_log output_df_log new_rows_log
  processed_profiles_log last_save_time_log machine_resolved files_resolved
  input_df_resolved output_df_resolved new_rows_resolved processed_profiles_resolved
  last_save_time_resolved machine_clear_new_rows files_clear_new_rows input_df_clear_new_rows
  output_df_clear_new_rows new_rows_clear_new_rows processed_profiles_clear_new_rows last_save_time_clear_new_rows
  machine_write_input files_write_input input_df_write_input output_df_write_input
  new_rows_write_input processed_profiles_write_input last_save_time_write_input machine_set_last_save_time
  files_set_last_save_time input_df_set_last_save_time output_df_set_last_save_time new_rows_set_last_save_time
  processed_profiles_set_last_save_time last_save_time_set_last_save_time machine_write_output files_write_output
  input_df_write_output output_df_write_output new_rows_write_output processed_profiles_write_output
  last_save_time_write_output
  : runner.

Lemma save_progress_unfold W st :
  Cloud02.save_progress W st =
  let st' := Cloud02.write_input (Cloud02.clear_new_rows (Cloud02.write_output st)) in
  Cloud02.set_last_save_time (clock W (trace (Cloud02.machine st'))) (Cloud02.log Now st').
Proof. reflexivity. Qed.

Ltac fields :=
  unfold Cloud02.final_save, announced;
  rewrite ?save_progress_unfold; cbv zeta;
  autorewrite with runner; cbn [self trace input_csv output_csv].

(** *** cloud02.py: one turn of the loop *)

Section Runner02.

Import Cloud02.

Variable unicode_alnum : char -> bool.
Variable W : World.

Local Abbreviation get_user_info_from_github_api :=
  (Cloud02.get_user_info_from_github_api unicode_alnum W).
Local Abbreviation iteration := (Cloud02.iteration unicode_alnum W).
Local Abbreviation loop := (Cloud02.loop unicode_alnum W).
Local Abbreviation main := (Cloud02.main unicode_alnum W).
Local Abbreviation startup := (Cloud02.startup W).

Lemma iteration_skipped st index row :
  skips row st = true -> iteration st (index, row) = st.
Proof. intros H. unfold Cloud02.iteration. now rewrite H. Qed.

Lemma iteration_raised st index row e m :
  skips row st = false ->
  get_user_info_from_github_api (Profile_URL row) (machine (announced row st)) = (Raised e, m) ->
  iteration st (index, row) =
  log (LogError (Profile_URL row) e) (with_machine m (announced row st)).
Proof.
  intros Hskip Hres. unfold Cloud02.iteration, try_body. rewrite Hskip.
  fold (announced row st). now rewrite Hres.
Qed.

Lemma iteration_returned st index row email m :
  skips row st = false ->
  get_user_info_from_github_api (Profile_URL row) (machine (announced row st)) = (Returned email, m) ->
  iteration st (index, row) =
  let st1 := looked_up index row email m st in
  if clock W (trace m) - last_save_time st >? thirty_minutes
  then save_progress W (log Now st1)
  else log Now st1.
Proof.
  intros Hskip Hres. unfold Cloud02.iteration, try_body. rewrite Hskip.
  fold (announced row st). rewrite Hres. unfold now, looked_up. cbv zeta.
  destruct (truthy email); cbn [machine last_save_time resolved with_machine log trace];
    destruct (_ >? _); reflexivity.
Qed.

(** The three ways a turn can go. *)
Lemma iteration_cases st index row :
  (skips row st = true /\ iteration st (index, row) = st) \/
  (skips row st = false /\ exists e m,
     get_user_info_from_github_api (Profile_URL row) (machine (announced row st)) = (Raised e, m) /\
     iteration st (index, row) =
       log (LogError (Profile_URL row) e) (with_machine m (announced row st))) \/
  (skips row st = false /\ exists email m,
     get_user_info_from_github_api (Profile_URL row) (machine (announced row st)) = (Returned email, m) /\
     iteration st (index, row) =
       let st1 := looked_up index row email m st in
       if clock W (trace m) - last_save_time st >? thirty_minutes
       then save_progress W (log Now st1)
       else log Now st1).
Proof.
  destruct (skips row st) eqn:Hskip.
  - left. split; [reflexivity|]. now apply iteration_skipped.
  - right.
    destruct (get_user_info_from_github_api (Profile_URL row) (machine (announced row st)))
      as [[email|e] m] eqn:Hres.
    + right. split; [reflexivity|]. exists email, m. split; [reflexivity|].
      now apply iteration_returned.
    + left. split; [reflexivity|]. exists e, m. split; [reflexivity|].
      now apply iteration_raised.
Qed.

Lemma final_save_files st :
  input_csv (files (final_save st)) = Some (input_df st) /\
  output_csv (files (final_save st)) =
    match new_rows st with
    | [] => output_csv (files st)
    | _ :: _ => Some (output_df st ++ new_rows st)
    end.
Proof.
  fields. auto.
Qed.

(** The checkpoints of cloud02.py, as the code takes them.  The timer is read
    once per turn, after a lookup that returned: if more than 30 minutes
    have passed since the last save
    the buffered rows (this record's included) are appended to the output
    store when there are any, the input statuses overwrite the input store,
    the buffer is emptied and the timer restarts; otherwise nothing is
    written.  A turn whose record is skipped, or whose lookup raised, reads no
    timer and writes nothing.  When the iteration completes, main writes
    the remaining buffered rows and the input statuses, whatever happened to
    the single records. *)
Theorem save_every_thirty_minutes_and_at_the_end :
  (forall st index row,
     skips row st = false ->
     let st' := iteration st (index, row) in
     (forall email m,
        get_user_info_from_github_api (Profile_URL row) (machine (announced row st))
          = (Returned email, m) ->
        let buffer :=
          new_rows st ++ (if truthy email then [output_row row email] else []) in
        let statuses :=
          if truthy email then alter (set_Status (py "Done")) index (input_df st)
          else input_df st in
        (clock W (trace m) - last_save_time st > thirty_minutes ->
           output_csv (files st') =
             match buffer with
             | [] => output_csv (files st)
             | _ :: _ => Some (output_df st ++ buffer)
             end /\
           input_csv (files st') = Some statuses /\
           new_rows st' = [] /\
           last_save_time st' = clock W (trace m ++ [Now])) /\
        (clock W (trace m) - last_save_time st <= thirty_minutes ->
           files st' = files st /\
           new_rows st' = buffer /\
           last_save_time st' = last_save_time st)) /\
     (forall e m,
        get_user_info_from_github_api (Profile_URL row) (machine (announced row st))
          = (Raised e, m) ->
        files st' = files st /\
        new_rows st' = new_rows st /\
        last_save_time st' = last_save_time st)) /\
  (forall st index row, skips row st = true -> iteration st (index, row) = st) /\
  (forall environ_keys fs tr st0,
     startup environ_keys fs tr = Returned st0 ->
     let st := loop (iterrows (input_df st0)) st0 in
     input_csv (fst (main environ_keys fs tr)) = Some (input_df st) /\
     output_csv (fst (main environ_keys fs tr)) =
       match new_rows st with
       | [] => output_csv (files st)
       | _ :: _ => Some (output_df st ++ new_rows st)
       end).
Proof.
  split; [|split].
  - intros st index row Hskip st'. split.
    + intros email m Hres buffer statuses. subst st'.
      rewrite (iteration_returned st index row email m Hskip Hres). cbv zeta.
      split.
      * intros Hlate. destruct (Z.gtb_spec (clock W (trace m) - last_save_time st) thirty_minutes);
          [|lia].
        subst buffer statuses. unfold looked_up.
        destruct (truthy email); fields; rewrite ?app_nil_r; auto.
      * intros Hearly. destruct (Z.gtb_spec (clock W (trace m) - last_save_time st) thirty_minutes);
          [lia|].
        subst buffer. unfold looked_up.
        destruct (truthy email); fields; rewrite ?app_nil_r; auto.
    + intros e m Hres. subst st'.
      rewrite (iteration_raised st index row e m Hskip Hres).
      fields. auto.
  - intros st index row. apply iteration_skipped.
  - intros keys fs tr st0 Hst st. unfold Cloud02.main. rewrite Hst. cbn [fst].
    apply final_save_files.
Qed.

(** *** Exceptions and the records that follow *)

Lemma attempted_app tr1 tr2 : attempted (tr1 ++ tr2) = attempted tr1 ++ attempted tr2.
Proof. apply omap_app. Qed.

Lemma attempted_remote tr : Forall remote tr -> attempted tr = [].
Proof.
  induction 1 as [|e tr He _ IH]; [reflexivity|].
  destruct e; simpl in He; try contradiction; exact IH.
Qed.

Lemma iteration_trace st index row :
  exists tr,
    trace (machine (iteration st (index, row))) = trace (machine st) ++ tr /\
    attempted tr = if skips row st then [] else [Profile_URL row].
Proof.
  destruct (iteration_cases st index row)
    as [[Hs ->] | [(Hs & e & m & Hres & ->) | (Hs & email & m & Hres & ->)]];
    rewrite Hs.
  - exists []. now rewrite app_nil_r.
  - destruct (quiet_get_user_info_02 unicode_alnum W (Profile_URL row)
                (machine (announced row st))) as (tr & Htr & Hq).
    rewrite Hres in Htr. cbn [snd] in Htr. revert Htr. fields. intros Htr.
    exists ([LogProcessing (Profile_URL row)] ++ tr ++ [LogError (Profile_URL row) e]).
    split.
    + rewrite Htr, <- !app_assoc. reflexivity.
    + rewrite !attempted_app, (attempted_remote tr Hq). reflexivity.
  - destruct (quiet_get_user_info_02 unicode_alnum W (Profile_URL row)
                (machine (announced row st))) as (tr & Htr & Hq).
    rewrite Hres in Htr. cbn [snd] in Htr. revert Htr. fields. intros Htr.
    cbv zeta. unfold looked_up.
    destruct (_ >? _); destruct (truthy email); fields; rewrite Htr, <- !app_assoc;
      eexists; (split; [reflexivity|]);
      rewrite !attempted_app, (attempted_remote tr Hq); reflexivity.
Qed.

Lemma loop_app before after st :
  loop (before ++ after) st = loop after (loop before st).
Proof. apply fold_left_app. Qed.

Lemma loop_trace rows : forall st,
  exists tr, trace (machine (loop rows st)) = trace (machine st) ++ tr.
Proof.
  induction rows as [|[index row] rows IH]; intros st.
  - exists []. now rewrite app_nil_r.
  - destruct (iteration_trace st index row) as (tr1 & E1 & _).
    destruct (IH (iteration st (index, row))) as (tr2 & E2).
    exists (tr1 ++ tr2). unfold Cloud02.loop in *. cbn [fold_left].
    now rewrite E2, E1, app_assoc.
Qed.

(** In cloud02.py an exception ends the turn, not the loop; and a record
    that is not skipped has its lookup started whatever happened before. *)
Lemma loop_continues_after_exception_02 :
  (forall st index row after e m,
     skips row st = false ->
     get_user_info_from_github_api (Profile_URL row) (machine (announced row st))
       = (Raised e, m) ->
     loop ((index, row) :: after) st =
       loop after (log (LogError (Profile_URL row) e) (with_machine m (announced row st))) /\
     exists later,
       trace (machine (loop ((index, row) :: after) st)) =
         trace m ++ LogError (Profile_URL row) e :: later) /\
  (forall before index row after st,
     skips row (loop before st) = false ->
     exists later,
       attempted (trace (machine (loop (before ++ (index, row) :: after) st))) =
         attempted (trace (machine (loop before st))) ++ Profile_URL row :: later).
Proof.
  split.
  - intros st index row after e m Hskip Hres.
    assert (E : loop ((index, row) :: after) st =
                loop after (log (LogError (Profile_URL row) e)
                              (with_machine m (announced row st)))).
    { unfold Cloud02.loop. cbn [fold_left].
      now rewrite (iteration_raised st index row e m Hskip Hres). }
    split; [exact E|]. rewrite E.
    destruct (loop_trace after (log (LogError (Profile_URL row) e)
                                  (with_machine m (announced row st)))) as (tr & ->).
    exists tr. fields. now rewrite <- app_assoc.
  - intros before index row after st Hskip.
    rewrite loop_app. unfold Cloud02.loop at 1. cbn [fold_left].
    fold (loop after (iteration (loop before st) (index, row))).
    destruct (loop_trace after (iteration (loop before st) (index, row))) as (tr2 & ->).
    destruct (iteration_trace (loop before st) index row) as (tr1 & -> & Hatt).
    rewrite Hskip in Hatt. exists (attempted tr2).
    now rewrite !attempted_app, Hatt, <- app_assoc.
Qed.

End Runner02.

(** *** cloud03.py *)

Section Runner03.

Variable unicode_alnum : char -> bool.
Variable W : World.

Local Abbreviation lookup03 := (Cloud03.get_user_info_from_github_api unicode_alnum W).
Local Abbreviation iteration03 := (Cloud03.iteration unicode_alnum W).
Local Abbreviation loop03 := (Cloud03.loop unicode_alnum W).

Lemma iteration03_trace st row :
  exists tr,
    trace (Cloud03.machine (iteration03 st row)) = trace (Cloud03.machine st) ++ tr /\
    attempted tr = [Profile_URL row].
Proof.
  unfold Cloud03.iteration, Cloud03.try_body. fold (announced03 row st).
  destruct (quiet_get_user_info_03 unicode_alnum W (Profile_URL row)
              (Cloud03.machine (announced03 row st))) as (tr & Htr & Hq).
  destruct (lookup03 (Profile_URL row) (Cloud03.machine (announced03 row st)))
    as [[email|e] m]; cbn [snd] in Htr; unfold announced03, Cloud03.log in *;
    cbn [Cloud03.machine trace self] in *; rewrite Htr, <- ?app_assoc;
    eexists; (split; [reflexivity|]);
    rewrite ?attempted_app, (attempted_remote tr Hq); reflexivity.
Qed.

Lemma loop03_attempted rows : forall st,
  attempted (trace (Cloud03.machine (loop03 rows st))) =
  attempted (trace (Cloud03.machine st)) ++ map Profile_URL rows.
Proof.
  induction rows as [|row rows IH]; intros st.
  - simpl. now rewrite app_nil_r.
  - unfold Cloud03.loop in *. cbn [fold_left map]. rewrite IH.
    destruct (iteration03_trace st row) as (tr & -> & Hatt).
    now rewrite attempted_app, Hatt, <- app_assoc.
Qed.

(** The same in cloud03.py, where no record is skipped. *)
Lemma loop_continues_after_exception_03 :
  (forall st row after e m,
     lookup03 (Profile_URL row) (Cloud03.machine (announced03 row st)) = (Raised e, m) ->
     loop03 (row :: after) st =
       loop03 after
         (Cloud03.log (LogError (Profile_URL row) e)
            {| Cloud03.machine := m; Cloud03.output_data := Cloud03.output_data st |})) /\
  (forall rows st,
     attempted (trace (Cloud03.machine (loop03 rows st))) =
     attempted (trace (Cloud03.machine st)) ++ map Profile_URL rows).
Proof.
  split; [|intros; apply loop03_attempted].
  intros st row after e m Hres. unfold Cloud03.loop. cbn [fold_left].
  unfold Cloud03.iteration at 2, Cloud03.try_body. fold (announced03 row st).
  now rewrite Hres.
Qed.

End Runner03.

(** C7. In both scripts, when the lookup of a record raises, the loop logs the
    error and goes on with the records that follow, from the state the failed
    lookup left.  Whatever the earlier lookups did, every later record that
    the skip rule does not exclude has its lookup started (in cloud03.py,
    which skips nothing: every record). *)
Theorem lookup_exception_does_not_abort_the_batch
    (unicode_alnum : char -> bool) (W : World) :
  (forall st index row after e m,
     Cloud02.skips row st = false ->
     Cloud02.get_user_info_from_github_api unicode_alnum W (Profile_URL row)
       (Cloud02.machine (announced row st)) = (Raised e, m) ->
     Cloud02.loop unicode_alnum W ((index, row) :: after) st =
       Cloud02.loop unicode_alnum W after
         (Cloud02.log (LogError (Profile_URL row) e)
            (Cloud02.with_machine m (announced row st))) /\
     exists later,
       trace (Cloud02.machine (Cloud02.loop unicode_alnum W ((index, row) :: after) st)) =
         trace m ++ LogError (Profile_URL row) e :: later) /\
  (forall before index row after st,
     Cloud02.skips row (Cloud02.loop unicode_alnum W before st) = false ->
     exists later,
       attempted (trace (Cloud02.machine
                           (Cloud02.loop unicode_alnum W (before ++ (index, row) :: after) st))) =
         attempted (trace (Cloud02.machine (Cloud02.loop unicode_alnum W before st)))
           ++ Profile_URL row :: later) /\
  (forall st row after e m,
     Cloud03.get_user_info_from_github_api unicode_alnum W (Profile_URL row)
       (Cloud03.machine (announced03 row st)) = (Raised e, m) ->
     Cloud03.loop unicode_alnum W (row :: after) st =
       Cloud03.loop unicode_alnum W after
         (Cloud03.log (LogError (Profile_URL row) e)
            {| Cloud03.machine := m; Cloud03.output_data := Cloud03.output_data st |})) /\
  (forall rows st,
     attempted (trace (Cloud03.machine (Cloud03.loop unicode_alnum W rows st))) =
     attempted (trace (Cloud03.machine st)) ++ map Profile_URL rows).
Proof.
  destruct (loop_continues_after_exception_02 unicode_alnum W) as [H1 H2].
  destruct (loop_continues_after_exception_03 unicode_alnum W) as [H3 H4].
  repeat split; auto; try apply H1; auto.
Qed.

Lemma lookup_exception_does_not_abort_the_batch_witness :
  let rows := [pending "mallory"; pending "alice"] in
  let st := begun rows 0 in
  let m := snd (Cloud02.get_user_info_from_github_api ascii_only sample_service
                  (Profile_URL (pending "mallory"))
                  (Cloud02.machine (announced (pending "mallory") st))) in
  Cloud02.loop ascii_only sample_service (Cloud02.iterrows rows) st =
    Cloud02.loop ascii_only sample_service [(1%nat, pending "alice")]
      (Cloud02.log (LogError (Profile_URL (pending "mallory")) RequestException)
         (Cloud02.with_machine m (announced (pending "mallory") st))) /\
  Cloud02.new_rows (Cloud02.loop ascii_only sample_service (Cloud02.iterrows rows) st)
    = [found "alice" "alice@example.org"].
Proof.
  cbv zeta. split.
  - apply (lookup_exception_does_not_abort_the_batch ascii_only sample_service);
      vm_compute; reflexivity.
  - vm_compute. reflexivity.
Defined.

(** *** Restarting cloud02.py *)

Section Restart.

Import Cloud02.

Variable unicode_alnum : char -> bool.
Variable W : World.

Local Abbreviation iteration := (Cloud02.iteration unicode_alnum W).
Local Abbreviation loop := (Cloud02.loop unicode_alnum W).
Local Abbreviation main := (Cloud02.main unicode_alnum W).
Local Abbreviation startup := (Cloud02.startup W).

Lemma skips_spec row st :
  skips row st = true <->
  Status row = Some (py "Done") \/ Profile_URL row ∈ processed_profiles st.
Proof.
  unfold skips. rewrite orb_true_iff, !bool_decide_eq_true. reflexivity.
Qed.

Lemma skips_false row st :
  skips row st = false ->
  Status row <> Some (py "Done") /\ Profile_URL row ∉ processed_profiles st.
Proof.
  intros H. split; intros Hc;
    assert (skips row st = true) by (apply skips_spec; auto); congruence.
Qed.

Lemma consistent_save_progress st :
  consistent st -> consistent (save_progress W st) /\ known (save_progress W st) = known st.
Proof.
  intros [Hp Hd]. unfold consistent, known in *. fields.
  rewrite !app_nil_r. repeat split; auto.
  destruct (new_rows st) eqn:Hnew; [|reflexivity].
  rewrite app_nil_r. exact Hd.
Qed.

(** One turn keeps the state consistent and adds at most one known row, for a
    record that was not skipped. *)
Lemma iteration_known st index row :
  consistent st ->
  consistent (iteration st (index, row)) /\
  (known (iteration st (index, row)) = known st \/
   skips row st = false /\
   exists email, known (iteration st (index, row)) = known st ++ [output_row row email]).
Proof.
  intros Hc.
  destruct (iteration_cases unicode_alnum W st index row)
    as [[Hs ->] | [(Hs & e & m & Hres & ->) | (Hs & email & m & Hres & ->)]].
  - auto.
  - split; [|left]; destruct Hc as [Hp Hd]; unfold consistent, known in *; fields; auto.
  - cbv zeta.
    assert (H1 : consistent (log Now (looked_up index row email m st)) /\
                 (known (log Now (looked_up index row email m st)) = known st \/
                  known (log Now (looked_up index row email m st))
                    = known st ++ [output_row row email])).
    { destruct Hc as [Hp Hd]. unfold consistent, known, looked_up in *.
      destruct (truthy email); fields; [|auto].
      split; [|right; now rewrite app_assoc].
      split; [|exact Hd].
      rewrite Hp. unfold profiles. rewrite app_assoc, (map_app _ (_ ++ _)), list_to_set_app_L.
      simpl. rewrite (right_id_L ∅ (∪)). apply (comm_L (∪)). }
    destruct H1 as [Hc1 Hk1].
    destruct (_ >? _).
    + destruct (consistent_save_progress _ Hc1) as [Hc2 Hk2]. split; [exact Hc2|].
      rewrite Hk2. destruct Hk1 as [Hk1|Hk1]; [left|right]; eauto.
    + split; [exact Hc1|]. destruct Hk1 as [Hk1|Hk1]; [left|right]; eauto.
Qed.

Lemma not_in_profiles_of_skip_set row st :
  consistent st ->
  skips row st = false ->
  Status row <> Some (py "Done") /\ Profile_URL row ∉ profiles (known st).
Proof.
  intros [Hp _] Hs. destruct (skips_false row st Hs) as [Hd Hn]. split; [exact Hd|].
  rewrite Hp in Hn. intros Hin. apply Hn. now apply elem_of_list_to_set.
Qed.

Lemma profiles_app l1 l2 : profiles (l1 ++ l2) = profiles l1 ++ profiles l2.
Proof. apply map_app. Qed.

Lemma elem_of_profiles u rows :
  u ∈ profiles rows <-> exists r, r ∈ rows /\ out_Profile_URL r = u.
Proof.
  unfold profiles. rewrite list_elem_of_In, in_map_iff. split.
  - intros (r & E & Hin). exists r. split; [now apply list_elem_of_In | exact E].
  - intros (r & Hin & E). exists r. split; [exact E | now apply list_elem_of_In].
Qed.

(** What a run of the loop adds: rows whose profile references are new and
    differ from one another, each for a record not marked done; and lookups
    only of such records. *)
Lemma loop_known rows : forall st,
  consistent st ->
  consistent (loop rows st) /\
  exists added events,
    known (loop rows st) = known st ++ added /\
    trace (machine (loop rows st)) = trace (machine st) ++ events /\
    NoDup (profiles added) /\
    (forall r, r ∈ added ->
       (out_Profile_URL r ∉ profiles (known st)) /\
       exists index row email,
         (index, row) ∈ rows /\ Status row <> Some (py "Done") /\
         r = output_row row email) /\
    (forall u, u ∈ attempted events ->
       (u ∉ profiles (known st)) /\
       exists index row,
         (index, row) ∈ rows /\ Status row <> Some (py "Done") /\
         Profile_URL row = u).
Proof.
  induction rows as [|[index row] rows IH]; intros st Hc.
  - split; [exact Hc|]. exists [], []. rewrite !app_nil_r.
    split; [reflexivity|]. split; [reflexivity|]. split; [apply NoDup_nil_2|].
    split; intros x Hx; inversion Hx.
  - unfold Cloud02.loop. cbn [fold_left]. fold (loop rows (iteration st (index, row))).
    destruct (iteration_known st index row Hc) as [Hc1 Hk1].
    destruct (IH _ Hc1) as (Hc2 & added & events & Hk2 & Ht2 & Hnd & Hadded & Hatt).
    split; [exact Hc2|].
    destruct (iteration_trace unicode_alnum W st index row) as (ev1 & Ht1 & Hev1).
    assert (Hmono : forall u, u ∉ profiles (known (iteration st (index, row))) ->
                              u ∉ profiles (known st)).
    { intros u Hu Hin. apply Hu.
      destruct Hk1 as [->|(_ & email & ->)]; [exact Hin|].
      rewrite profiles_app. apply elem_of_app. now left. }
    assert (Hevents : forall u, u ∈ attempted (ev1 ++ events) ->
              (u ∉ profiles (known st)) /\
              exists index0 row0,
                (index0, row0) ∈ (index, row) :: rows /\
                Status row0 <> Some (py "Done") /\ Profile_URL row0 = u).
    { intros u. rewrite attempted_app, elem_of_app, Hev1. intros [Hu|Hu].
      - destruct (skips row st) eqn:Hs; [inversion Hu|].
        apply list_elem_of_singleton in Hu. subst u.
        destruct (not_in_profiles_of_skip_set row st Hc Hs) as [Hd Hn].
        split; [exact Hn|]. exists index, row. repeat split; auto. left.
      - destruct (Hatt u Hu) as (Hn & i0 & r0 & Hin & Hd & E).
        split; [now apply Hmono|]. exists i0, r0. repeat split; auto. now right. }
    destruct Hk1 as [Hk1|(Hs & email & Hk1)].
    + exists added, (ev1 ++ events). rewrite Hk2, Hk1, Ht2, Ht1, app_assoc.
      repeat split; auto.
      * rewrite Hk1 in Hadded. apply Hadded. assumption.
      * destruct (Hadded r H) as (_ & i0 & r0 & e0 & Hin & Hd & E).
        exists i0, r0, e0. repeat split; auto. now right.
      * apply Hevents. assumption.
      * apply Hevents. assumption.
    + destruct (not_in_profiles_of_skip_set row st Hc Hs) as [Hd Hn].
      exists (output_row row email :: added), (ev1 ++ events).
      rewrite Hk2, Hk1, Ht2, Ht1, <- !app_assoc.
      repeat split; auto.
      * cbn [profiles map]. apply NoDup_cons. split; [|exact Hnd].
        intros Hin. apply elem_of_profiles in Hin as (r & Hr & E).
        destruct (Hadded r Hr) as [Hnew _]. apply Hnew.
        rewrite Hk1, profiles_app, elem_of_app. right. rewrite E. simpl. left.
      * apply elem_of_cons in H as [->|H]; [exact Hn|].
        apply Hmono. now apply Hadded.
      * apply elem_of_cons in H as [->|H].
        -- exists index, row, email. repeat split; auto. left.
        -- destruct (Hadded r H) as (_ & i0 & r0 & e0 & Hin & Hd0 & E).
           exists i0, r0, e0. repeat split; auto. now right.
      * apply Hevents. assumption.
      * apply Hevents. assumption.
Qed.

Lemma known_save_progress st : known (save_progress W st) = known st.
Proof. unfold known. fields. now rewrite app_nil_r. Qed.

Lemma input_df_save_progress st : input_df (save_progress W st) = input_df st.
Proof. fields. reflexivity. Qed.

Lemma processed_profiles_save_progress st :
  processed_profiles (save_progress W st) = processed_profiles st.
Proof. fields. reflexivity. Qed.

(** A record that is not skipped is processed: it is announced, its lookup
    runs from there, and what the lookup gives decides what is kept. *)
Lemma iteration_not_skipped st index row :
  skips row st = false ->
  let res := Cloud02.get_user_info_from_github_api unicode_alnum W (Profile_URL row)
               (machine (announced row st)) in
  let st' := iteration st (index, row) in
  (exists sent later,
     trace (snd res) = trace (machine st) ++ LogProcessing (Profile_URL row) :: sent /\
     Forall remote sent /\
     trace (machine st') = trace (snd res) ++ later) /\
  match fst res with
  | Returned email =>
      if truthy email
      then processed_profiles st' = {[Profile_URL row]} ∪ processed_profiles st /\
           known st' = known st ++ [output_row row email] /\
           input_df st' = alter (set_Status (py "Done")) index (input_df st)
      else processed_profiles st' = processed_profiles st /\
           known st' = known st /\ input_df st' = input_df st
  | Raised e =>
      processed_profiles st' = processed_profiles st /\
      known st' = known st /\ input_df st' = input_df st /\
      last (trace (machine st')) = Some (LogError (Profile_URL row) e)
  end.
Proof.
  intros Hs res st'. subst st'.
  destruct (quiet_get_user_info_02 unicode_alnum W (Profile_URL row)
              (machine (announced row st))) as (tr & Htr & Hq).
  fold res in Htr. destruct res as [[email|e] m] eqn:Hres; cbn [fst snd] in *.
  - rewrite (iteration_returned unicode_alnum W st index row email m Hs Hres). cbv zeta.
    split.
    + exists tr. revert Htr. fields. intros Htr.
      destruct (_ >? _); unfold looked_up; destruct (truthy email); fields;
        eexists; (split; [rewrite Htr, <- app_assoc; reflexivity|]);
        (split; [exact Hq|]); rewrite <- ?app_assoc; reflexivity.
    + destruct (_ >? _);
        rewrite ?processed_profiles_save_progress, ?known_save_progress,
          ?input_df_save_progress;
        unfold looked_up, known; destruct (truthy email); fields;
        rewrite ?app_assoc; auto.
  - rewrite (iteration_raised unicode_alnum W st index row e m Hs Hres).
    split.
    + exists tr. revert Htr. fields. intros Htr.
      eexists. split; [rewrite Htr, <- app_assoc; reflexivity|].
      split; [exact Hq | reflexivity].
    + unfold known. fields. rewrite last_snoc. auto.
Qed.

Lemma startup_spec environ_keys fs tr st0 :
  startup environ_keys fs tr = Returned st0 ->
  consistent st0 /\
  known st0 = rows_of (output_csv fs) /\
  input_csv fs = Some (input_df st0) /\
  trace (machine st0) = tr ++ [Now] /\
  processed_profiles st0 = list_to_set (profiles (rows_of (output_csv fs))).
Proof.
  unfold Cloud02.startup. destruct environ_keys as [keys|]; [|discriminate].
  destruct (input_csv fs) as [rows|] eqn:Hin; [|discriminate].
  intros E. inversion E; subst st0; clear E.
  unfold consistent, known. cbn [processed_profiles output_df new_rows files machine
                                 input_df trace].
  rewrite app_nil_r. unfold rows_of, default.
  destruct (output_csv fs); repeat split; reflexivity.
Qed.

Lemma final_save_known st :
  consistent st ->
  rows_of (output_csv (files (final_save st))) = known st /\
  trace (machine (final_save st)) = trace (machine st).
Proof.
  intros [_ Hd]. destruct (final_save_files st) as [_ ->]. split.
  - unfold known. destruct (new_rows st); [|reflexivity].
    now rewrite app_nil_r.
  - fields. reflexivity.
Qed.

(** One run of main, from any files. *)
Lemma main_adds_only_new_profiles environ_keys fs tr :
  exists added events,
    rows_of (output_csv (fst (main environ_keys fs tr))) = rows_of (output_csv fs) ++ added /\
    snd (main environ_keys fs tr) = tr ++ events /\
    NoDup (profiles added) /\
    (forall r, r ∈ added ->
       (out_Profile_URL r ∉ profiles (rows_of (output_csv fs))) /\
       exists rows index row email,
         input_csv fs = Some rows /\ rows !! index = Some row /\
         Status row <> Some (py "Done") /\ r = output_row row email) /\
    (forall u, u ∈ attempted events ->
       (u ∉ profiles (rows_of (output_csv fs))) /\
       exists rows index row,
         input_csv fs = Some rows /\ rows !! index = Some row /\
         Status row <> Some (py "Done") /\ Profile_URL row = u).
Proof.
  unfold Cloud02.main. destruct (startup environ_keys fs tr) as [st0|e] eqn:Hst.
  - destruct (startup_spec _ _ _ _ Hst) as (Hc & Hk & Hin & Htr & _).
    destruct (loop_known (iterrows (input_df st0)) st0 Hc)
      as (Hc' & added & events & Hk' & Ht' & Hnd & Hadded & Hatt).
    destruct (final_save_known _ Hc') as [Hrows Htrace].
    cbn [fst snd]. exists added, (Now :: events).
    rewrite Hrows, Htrace, Hk', Ht', Hk, Htr, <- app_assoc.
    split; [reflexivity|]. split; [reflexivity|]. split; [exact Hnd|]. split.
    + intros r Hr. destruct (Hadded r Hr) as (Hn & index & row & email & Hi & Hd & E).
      rewrite Hk in Hn. split; [exact Hn|].
      apply elem_of_lookup_imap in Hi as (i & y & Epair & Hlook).
      inversion Epair; subst i y.
      exists (input_df st0), index, row, email. auto.
    + intros u Hu. change (attempted (Now :: events)) with (attempted events) in Hu.
      destruct (Hatt u Hu) as (Hn & index & row & Hi & Hd & E).
      rewrite Hk in Hn. split; [exact Hn|].
      apply elem_of_lookup_imap in Hi as (i & y & Epair & Hlook).
      inversion Epair; subst i y.
      exists (input_df st0), index, row. auto.
  - cbn [fst snd]. exists [], [Now; LogMainError e]. rewrite app_nil_r.
    split; [reflexivity|]. split; [reflexivity|]. split; [apply NoDup_nil_2|].
    split; intros x Hx; inversion Hx.
Qed.

End Restart.

(** C5, as the code has it.  A record is skipped, and then nothing at all is
    done for it, exactly when its status is "Done" or its profile reference
    is in the skip set.  A record that is not skipped is processed: it is
    announced, its lookup runs, and when the lookup returns an e-mail that is
    not empty the record's row is added, the record is marked, and its
    profile reference joins the skip set; when the lookup returns nothing,
    or raises, rows, marks and skip set stay as they are.  The skip set is
    built at startup from the output store and holds, at every turn, the
    profile references of all output rows known so far, those resolved
    earlier in the same run included.  Hence a second run over the files the
    first run left only appends rows to the output store whose profile
    references were not in it and differ from one another, each for a record
    not marked "Done", and it starts no lookup for a profile reference that
    the output store already holds: no duplicate comes in. *)
Theorem restart_skips_resolved_records
    (unicode_alnum : char -> bool) (W1 W2 : World)
    (environ_keys : option str) (fs0 : Files) (tr0 : list Event) :
  let run1 := Cloud02.main unicode_alnum W1 environ_keys fs0 tr0 in
  let run2 := Cloud02.main unicode_alnum W2 environ_keys (fst run1) (snd run1) in
  (forall row st,
     Cloud02.skips row st = true <->
     Status row = Some (py "Done") \/ Profile_URL row ∈ Cloud02.processed_profiles st) /\
  (forall st index row,
     Cloud02.skips row st = true -> Cloud02.iteration unicode_alnum W2 st (index, row) = st) /\
  (forall st index row,
     Cloud02.skips row st = false ->
     let res := Cloud02.get_user_info_from_github_api unicode_alnum W2 (Profile_URL row)
                  (Cloud02.machine (announced row st)) in
     let st' := Cloud02.iteration unicode_alnum W2 st (index, row) in
     (exists sent later,
        trace (snd res)
          = trace (Cloud02.machine st) ++ LogProcessing (Profile_URL row) :: sent /\
        Forall remote sent /\
        trace (Cloud02.machine st') = trace (snd res) ++ later) /\
     match fst res with
     | Returned email =>
         if truthy email
         then Cloud02.processed_profiles st'
                = {[Profile_URL row]} ∪ Cloud02.processed_profiles st /\
              known st' = known st ++ [output_row row email] /\
              Cloud02.input_df st'
                = alter (set_Status (py "Done")) index (Cloud02.input_df st)
         else Cloud02.processed_profiles st' = Cloud02.processed_profiles st /\
              known st' = known st /\ Cloud02.input_df st' = Cloud02.input_df st
     | Raised e =>
         Cloud02.processed_profiles st' = Cloud02.processed_profiles st /\
         known st' = known st /\ Cloud02.input_df st' = Cloud02.input_df st /\
         last (trace (Cloud02.machine st')) = Some (LogError (Profile_URL row) e)
     end) /\
  (forall st0 rows,
     Cloud02.startup W2 environ_keys (fst run1) (snd run1) = Returned st0 ->
     let st := Cloud02.loop unicode_alnum W2 rows st0 in
     Cloud02.processed_profiles st0
       = list_to_set (profiles (rows_of (output_csv (fst run1)))) /\
     Cloud02.processed_profiles st
       = list_to_set (profiles (Cloud02.output_df st ++ Cloud02.new_rows st))) /\
  exists added events,
    rows_of (output_csv (fst run2)) = rows_of (output_csv (fst run1)) ++ added /\
    snd run2 = snd run1 ++ events /\
    NoDup (profiles added) /\
    (NoDup (profiles (rows_of (output_csv (fst run1)))) ->
     NoDup (profiles (rows_of (output_csv (fst run2))))) /\
    (forall r, r ∈ added ->
       (out_Profile_URL r ∉ profiles (rows_of (output_csv (fst run1)))) /\
       exists rows index row email,
         input_csv (fst run1) = Some rows /\ rows !! index = Some row /\
         Status row <> Some (py "Done") /\ r = output_row row email) /\
    (forall u, u ∈ attempted events ->
       (u ∉ profiles (rows_of (output_csv (fst run1)))) /\
       exists rows index row,
         input_csv (fst run1) = Some rows /\ rows !! index = Some row /\
         Status row <> Some (py "Done") /\ Profile_URL row = u).
Proof.
  intros run1 run2. split; [|split; [|split; [|split]]].
  - intros row st. apply skips_spec.
  - intros st index row. apply iteration_skipped.
  - intros st index row. apply iteration_not_skipped.
  - intros st0 rows Hst st.
    destruct (startup_spec W2 _ _ _ _ Hst) as (Hc & _ & _ & _ & Hp).
    split; [exact Hp|].
    destruct (loop_known unicode_alnum W2 rows st0 Hc) as [[Hp' _] _]. exact Hp'.
  - destruct (main_adds_only_new_profiles unicode_alnum W2 environ_keys (fst run1) (snd run1))
      as (added & events & Hrows & Htr & Hnd & Hadded & Hatt).
    exists added, events. fold run2 in Hrows, Htr.
    split; [exact Hrows|]. split; [exact Htr|]. split; [exact Hnd|].
    split; [|split; assumption].
    intros Hold. rewrite Hrows, profiles_app. apply NoDup_app.
    split; [exact Hold|]. split; [|exact Hnd].
    intros u Hu Hin. apply elem_of_profiles in Hin as (r & Hr & E).
    destruct (Hadded r Hr) as [Hn _]. apply Hn. now rewrite E.
Qed.

(** C4 fails on the code: the timer is not read in a turn whose lookup
    raised, because the test of lines 140-149 stands inside the [try], after
    the lookup.  Alice is resolved after 20 minutes and buffered.
    The lookups of bob and of carol raise; when bob's turn ends 40 minutes have
    passed since the last save, when carol's turn ends 55 minutes, and still
    nothing has been written: the output store does not exist, the input
    store shows alice as pending, and her row is in the buffer. *)
Lemma no_save_in_a_turn_that_raised :
  let rows := [pending "alice"; pending "bob"; pending "carol"] in
  let st1 := Cloud02.iteration ascii_only failing_later (begun rows 0) (0%nat, pending "alice") in
  let st2 := Cloud02.iteration ascii_only failing_later st1 (1%nat, pending "bob") in
  let st3 := Cloud02.iteration ascii_only failing_later st2 (2%nat, pending "carol") in
  Cloud02.startup failing_later sample_keys (fresh rows) [] = Returned (begun rows 0) /\
  Cloud02.loop ascii_only failing_later (Cloud02.iterrows rows) (begun rows 0) = st3 /\
  Cloud02.new_rows st1 = [found "alice" "alice@example.org"] /\
  last (trace (Cloud02.machine st2))
    = Some (LogError (profile_prefix ++ py "bob") RequestException) /\
  clock failing_later (trace (Cloud02.machine st2)) - Cloud02.last_save_time st2
    = 8 * five_minutes /\
  Cloud02.files st2 = fresh rows /\
  last (trace (Cloud02.machine st3))
    = Some (LogError (profile_prefix ++ py "carol") RequestException) /\
  clock failing_later (trace (Cloud02.machine st3)) - Cloud02.last_save_time st3
    = 11 * five_minutes /\
  thirty_minutes < 8 * five_minutes /\
  Cloud02.new_rows st3 = [found "alice" "alice@example.org"] /\
  Cloud02.files st3 = fresh rows.
Proof. vm_compute. repeat split; reflexivity. Qed.

Lemma save_every_thirty_minutes_and_at_the_end_witness :
  let st' := Cloud02.iteration ascii_only slow_service
               (begun [pending "alice"] 0) (0%nat, pending "alice") in
  output_csv (Cloud02.files st') = Some [found "alice" "alice@example.org"] /\
  input_csv (Cloud02.files st') = Some [set_Status (py "Done") (pending "alice")] /\
  Cloud02.new_rows st' = [].
Proof.
  destruct (save_every_thirty_minutes_and_at_the_end ascii_only slow_service) as (H & _).
  specialize (H (begun [pending "alice"] 0) 0%nat (pending "alice")).
  destruct H as [H _]; [vm_compute; reflexivity|].
  edestruct H as [Hlate _]; [vm_compute; reflexivity|].
  destruct Hlate as (Hout & Hin & Hnew & _); [vm_compute; reflexivity|].
  cbv zeta. rewrite Hout, Hin, Hnew. vm_compute. repeat split; reflexivity.
Defined.

Lemma restart_skips_resolved_records_witness :
  let run1 := Cloud02.main ascii_only sample_service sample_keys
                (fresh [pending "alice"; pending "bob"]) [] in
  let run2 := Cloud02.main ascii_only sample_service sample_keys (fst run1) (snd run1) in
  NoDup (profiles (rows_of (output_csv (fst run2)))).
Proof.
  cbv zeta.
  destruct (restart_skips_resolved_records ascii_only sample_service sample_service
              sample_keys (fresh [pending "alice"; pending "bob"]) [])
    as (_ & _ & _ & _ & added & events & _ & _ & _ & Hnodup & _).
  apply Hnodup. apply (bool_decide_unpack _). vm_compute. exact I.
Defined.

(** C5 as stated fails on the skip rule.  With no output store, the set built
    at startup is empty.  The input names alice twice, both records pending.
    The first is looked up and resolved; the second is then skipped, although
    its status is not "Done" and its profile reference is not in the set that
    was built at startup: the run itself has added it. *)
Lemma reference_resolved_in_this_run_is_skipped :
  let rows := [pending "alice"; pending "alice"] in
  let st0 := begun rows 0 in
  let st1 := Cloud02.iteration ascii_only sample_service st0 (0%nat, pending "alice") in
  Cloud02.startup sample_service sample_keys (fresh rows) [] = Returned st0 /\
  Status (pending "alice") = None /\
  Cloud02.processed_profiles st0 = ∅ /\
  Cloud02.skips (pending "alice") st0 = false /\
  Cloud02.new_rows st1 = [found "alice" "alice@example.org"] /\
  Cloud02.skips (pending "alice") st1 = true /\
  Cloud02.iteration ascii_only sample_service st1 (1%nat, pending "alice") = st1.
Proof. vm_compute. repeat split; reflexivity. Qed.

(** ** Further properties of the contact extractor *)

Section Extractor.

Variable unicode_alnum : char -> bool.

Local Abbreviation extract_email := (extract_email unicode_alnum).
Local Abbreviation delimited := (delimited unicode_alnum).

(** What the extractor returns is a part of the text, of the shape the
    pattern asks for, between two word boundaries. *)
Lemma extract_email_shape text e :
  extract_email text = Some e ->
  exists pre post l d t,
    text = pre ++ e ++ post /\
    address_shape e l d t /\
    delimited pre e post.
Proof.
  destruct (extract_email_first_match unicode_alnum text) as [-> _].
  destruct (first_match unicode_alnum pattern None text) as [[[pre m] rest]|] eqn:Hfm;
    [|discriminate].
  destruct (first_match_matches _ _ _ _ _ Hfm) as [Htext Hm].
  apply pattern_matches_iff in Hm as (l & d & t & Hshape & Hb1 & Hb2).
  destruct (address_shape_chars unicode_alnum _ _ _ _ Hshape) as (Hchars & _ & _).
  rewrite (strip_address m Hchars). intros E. inversion E; subst e.
  exists pre, rest, l, d, t.
  split; [exact Htext | split; [exact Hshape | split; assumption]].
Qed.

(** A delimited occurrence of the shape is a match of the pattern. *)
Lemma delimited_shape_matches pre m post l d t :
  address_shape m l d t -> delimited pre m post ->
  In (m, post) (run unicode_alnum pattern (last_or None pre) (m ++ post)).
Proof.
  intros Hs [Hb1 Hb2]. apply run_spec. split; [reflexivity|].
  rewrite last_or_None. apply pattern_matches_iff. exists l, d, t. auto.
Qed.

(** X7. On every text, the extractor returns the leftmost part of the text
    that has the shape of the pattern (local part, '@', domain, '.', top-level
    part, by the character classes of the pattern, '|' included in the last)
    and stands between two word boundaries, and the longest such part at
    that place; it returns nothing exactly when the text has no such part. *)
Theorem extract_email_leftmost_longest (text : str) :
  match extract_email text with
  | Some e =>
      exists pre post l d t,
        text = pre ++ e ++ post /\
        address_shape e l d t /\
        delimited pre e post /\
        forall pre' m' post' l' d' t',
          text = pre' ++ m' ++ post' -> address_shape m' l' d' t' ->
          delimited pre' m' post' ->
          (length pre <= length pre')%nat /\
          (length pre' = length pre -> (length m' <= length e)%nat)
  | None =>
      forall pre' m' post' l' d' t',
        text = pre' ++ m' ++ post' -> address_shape m' l' d' t' ->
        ~ delimited pre' m' post'
  end.
Proof.
  destruct (extract_email_first_match unicode_alnum text) as [-> _].
  destruct (first_match unicode_alnum pattern None text) as [[[pre m] rest]|] eqn:Hfm.
  - destruct (first_match_matches _ _ _ _ _ Hfm) as [Htext Hm].
    destruct (first_match_Some _ _ _ _ _ _ _ Hfm) as (_ & (others & Hrun) & Hbefore).
    apply pattern_matches_iff in Hm as (l & d & t & Hshape & Hb1 & Hb2).
    destruct (address_shape_chars unicode_alnum _ _ _ _ Hshape) as (Hchars & _ & _).
    rewrite (strip_address m Hchars).
    exists pre, rest, l, d, t. split; [exact Htext|]. split; [exact Hshape|].
    split; [split; assumption|].
    intros pre' m' post' l' d' t' Htext' Hs' Hd'.
    pose proof (delimited_shape_matches pre' m' post' l' d' t' Hs' Hd') as Hin'.
    split.
    + destruct (Nat.le_gt_cases (length pre) (length pre')) as [Hle|Hgt]; [exact Hle|].
      rewrite (Hbefore pre' (m' ++ post') Htext' Hgt) in Hin'. contradiction.
    + intros Hlen. rewrite Htext in Htext'.
      apply app_inj_1 in Htext' as [-> Hrest]; [|now symmetry].
      apply run_spec in Hin' as [_ Hm']. rewrite last_or_None in Hm'.
      apply (pattern_head_longest unicode_alnum (last pre') (m ++ rest) m rest m' post');
        [rewrite <- last_or_None, Hrun; reflexivity | exact Hrest | exact Hm'].
  - intros pre' m' post' l' d' t' Htext' Hs' Hd'.
    pose proof (delimited_shape_matches pre' m' post' l' d' t' Hs' Hd') as Hin'.
    rewrite (first_match_None _ _ _ _ Hfm pre' (m' ++ post') Htext') in Hin'.
    contradiction.
Qed.

(** X8. A text of fewer than six characters, or without an '@', or without
    a '.', holds no address: the extractor returns nothing.  The empty text
    is such a text. *)
Theorem extract_email_needs_six_characters (text : str) :
  (length text < 6)%nat \/ ~ In (chr "@") text \/ ~ In (chr ".") text ->
  extract_email text = None.
Proof.
  intros H. destruct (extract_email text) as [e|] eqn:He; [exfalso|reflexivity].
  destruct (extract_email_shape _ _ He) as (pre & post & l & d & t & -> & Hs & _).
  destruct Hs as (-> & _ & Hl & _ & Hd & _ & Ht).
  destruct H as [H|[H|H]].
  - revert H. rewrite !length_app. cbn [length]. rewrite !length_app. cbn [length]. lia.
  - apply H. apply in_or_app. right. apply in_or_app. left.
    apply in_or_app. right. now left.
  - apply H. apply in_or_app. right. apply in_or_app. left.
    apply in_or_app. right. right. apply in_or_app. right. now left.
Qed.

End Extractor.

(** *** ASCII texts and the interpreter's Unicode table *)

Section Tables.

Variables table1 table2 : char -> bool.

Lemma is_word_at_ascii prev :
  ascii_before prev -> is_word_at table1 prev = is_word_at table2 prev.
Proof.
  destruct prev as [c|]; [|reflexivity]. cbn [ascii_before is_word_at]. intros Hc.
  unfold is_word. apply N.ltb_lt in Hc. now rewrite Hc.
Qed.

Lemma ascii_before_head (s : str) : ascii_text s -> ascii_before (head s).
Proof. intros H. destruct s; [exact I|]. now inversion H. Qed.

Lemma ascii_before_last_or prev (m : str) :
  ascii_before prev -> ascii_text m -> ascii_before (last_or prev m).
Proof.
  intros Hp Hm. unfold last_or. destruct (last m) as [c|] eqn:Hl; [|exact Hp].
  apply last_Some_elem_of in Hl. unfold ascii_text in Hm. rewrite Forall_forall in Hm.
  now apply Hm.
Qed.

Lemma flat_map_ext_on {A B} (f g : A -> list B) (l : list A) :
  (forall x, In x l -> f x = g x) -> flat_map f l = flat_map g l.
Proof.
  induction l as [|x l IH]; intros H; [reflexivity|]. cbn [flat_map].
  rewrite (H x) by now left. rewrite IH; [reflexivity|].
  intros y Hy. apply H. now right.
Qed.

Lemma run_ascii r : forall prev s,
  ascii_before prev -> ascii_text s -> run table1 r prev s = run table2 r prev s.
Proof.
  induction r as [| a | lo cls | r1 IH1 r2 IH2]; intros prev s Hp Hs; cbn [run];
    try reflexivity.
  - unfold word_boundary.
    now rewrite (is_word_at_ascii prev Hp), (is_word_at_ascii _ (ascii_before_head s Hs)).
  - rewrite <- (IH1 prev s Hp Hs). apply flat_map_ext_on. intros [m1 s1] Hin.
    apply run_spec in Hin as [-> _]. apply Forall_app in Hs as [Hm1 Hs1].
    now rewrite (IH2 _ s1 (ascii_before_last_or prev m1 Hp Hm1) Hs1).
Qed.

Lemma findall_from_ascii r fuel : forall prev s,
  ascii_before prev -> ascii_text s ->
  findall_from table1 fuel r prev s = findall_from table2 fuel r prev s.
Proof.
  induction fuel as [|fuel IH]; intros prev s Hp Hs; [reflexivity|].
  cbn [findall_from]. rewrite <- (run_ascii r prev s Hp Hs).
  destruct (run table1 r prev s) as [|[m rest] others] eqn:Hrun.
  - destruct s as [|c s']; [reflexivity|]. inversion Hs; subst. now apply IH.
  - assert (Hin : In (m, rest) (run table1 r prev s)) by (rewrite Hrun; now left).
    apply run_spec in Hin as [E _].
    destruct m as [|c0 m0].
    + destruct s as [|c s']; [reflexivity|]. inversion Hs; subst. f_equal. now apply IH.
    + f_equal. subst s. apply Forall_app in Hs as [Hm Hrest].
      apply IH; [now apply ascii_before_last_or | exact Hrest].
Qed.

(** X14. On a text within ASCII what the extractor returns does not depend
    on the interpreter's Unicode table: the table is consulted only for the
    characters beyond ASCII that stand next to a word boundary. *)
Theorem extract_email_on_ascii_ignores_the_table (text : str) :
  ascii_text text ->
  extract_email table1 text = extract_email table2 text.
Proof.
  intros Hs. unfold extract_email, findall.
  now rewrite (findall_from_ascii pattern (S (length text)) None text I Hs).
Qed.

End Tables.

Lemma extract_email_on_ascii_ignores_the_table_witness :
  ascii_text (py "mail me: <bob@example.org>") /\
  extract_email (fun _ => true) (py "mail me: <bob@example.org>")
    = Some (py "bob@example.org").
Proof.
  assert (H : ascii_text (py "mail me: <bob@example.org>")).
  { unfold ascii_text. rewrite Forall_forall. intros c Hc.
    apply list_elem_of_In in Hc. vm_compute in Hc.
    repeat (destruct Hc as [<-|Hc]; [reflexivity|]). contradiction. }
  split; [exact H|].
  rewrite (extract_email_on_ascii_ignores_the_table (fun _ => true) ascii_only _ H).
  vm_compute. reflexivity.
Defined.

Lemma extract_email_needs_six_characters_witness :
  ((length (@nil N) < 6)%nat \/ ~ In (chr "@") [] \/ ~ In (chr ".") []) /\
  extract_email ascii_only [] = None /\
  extract_email ascii_only (py "write to jane at example.org") = None.
Proof.
  assert (H : (length (@nil N) < 6)%nat \/ ~ In (chr "@") [] \/ ~ In (chr ".") [])
    by (left; simpl; lia).
  split; [exact H|]. split.
  - exact (extract_email_needs_six_characters ascii_only [] H).
  - apply extract_email_needs_six_characters. right. left.
    vm_compute. intuition discriminate.
Defined.

(** ** Further properties of the handle *)

Lemma join_split_on sep (s : str) : join sep (split_on sep s) = s.
Proof.
  induction s as [|c s IH]; [reflexivity|]. cbn [split_on].
  destruct (split_on_cons sep s) as (piece & pieces & E). rewrite E in *.
  destruct (N.eqb_spec c sep) as [->|Hne].
  - cbn [join app] in *. now rewrite IH.
  - cbn [join] in *. destruct pieces; rewrite <- IH; reflexivity.
Qed.

Lemma join_last sep pieces : forall p,
  last pieces = Some p -> exists pre, join sep pieces = pre ++ p.
Proof.
  induction pieces as [|x [|y rest] IH]; intros p Hp; [discriminate| |].
  - inversion Hp; subst. now exists [].
  - destruct (IH p Hp) as [pre E]. exists (x ++ sep :: pre).
    change (join sep (x :: y :: rest)) with (x ++ sep :: join sep (y :: rest)).
    now rewrite E, <- app_assoc.
Qed.

Lemma split_on_sep_free sep (s : str) :
  Forall (fun piece => ~ In sep piece) (split_on sep s).
Proof.
  induction s as [|c s IH]; cbn [split_on].
  - repeat constructor. intros [].
  - destruct (N.eqb_spec c sep) as [->|Hne].
    + constructor; [intros []|exact IH].
    + destruct (split_on sep s) as [|piece pieces]; [repeat constructor|].
      * intros [H|[]]. now apply Hne.
      * inversion IH; subst. constructor; [|assumption].
        intros [H|H]; [now apply Hne | contradiction].
Qed.

Lemma startswith_prefix (p s : str) :
  startswith p s = true -> exists x, s = p ++ x.
Proof.
  revert s. induction p as [|a p IH]; intros s H; [now exists s|].
  destruct s as [|b s]; [discriminate|]. cbn [startswith] in H.
  apply andb_true_iff in H as [Hab Hp]. apply N.eqb_eq in Hab as ->.
  destruct (IH s Hp) as [x ->]. now exists x.
Qed.

(** X6. The handle is always the end of the reference.  For a reference
    that starts with the profile prefix it holds no '/'; and taking the
    handle of a handle changes nothing. *)
Theorem username_of_is_a_final_segment (reference : str) :
  (exists before, reference = before ++ username_of reference) /\
  (startswith profile_prefix reference = true -> ~ In (chr "/") (username_of reference)) /\
  username_of (username_of reference) = username_of reference.
Proof.
  assert (Hfree : startswith profile_prefix reference = true ->
                  ~ In (chr "/") (username_of reference)).
  { intros Hp. unfold username_of. rewrite Hp.
    destruct (last (split_on (chr "/") reference)) as [piece|] eqn:Hl; [|intros []].
    apply last_Some_elem_of in Hl.
    pose proof (split_on_sep_free (chr "/") reference) as Hall.
    rewrite Forall_forall in Hall. now apply Hall. }
  split; [|split; [exact Hfree|]].
  - unfold username_of. destruct (startswith profile_prefix reference); [|now exists []].
    destruct (split_on_cons (chr "/") reference) as (piece & pieces & E).
    destruct (last (split_on (chr "/") reference)) as [p|] eqn:Hl.
    + destruct (join_last (chr "/") _ p Hl) as [pre Hj]. rewrite join_split_on in Hj.
      now exists pre.
    + rewrite E in Hl. apply last_None in Hl. discriminate.
  - destruct (startswith profile_prefix reference) eqn:Hp.
    + specialize (Hfree eq_refl).
      unfold username_of at 1.
      destruct (startswith profile_prefix (username_of reference)) eqn:Hp'; [|reflexivity].
      exfalso. apply Hfree. apply startswith_prefix in Hp' as [x ->].
      destruct profile_prefix_ends_with_slash as [q ->].
      rewrite <- app_assoc. apply in_or_app. right. now left.
    + unfold username_of. rewrite Hp, Hp. reflexivity.
Qed.

Lemma username_of_is_a_final_segment_witness :
  startswith profile_prefix (py "https://github.com/octo/cat") = true /\
  ~ In (chr "/") (username_of (py "https://github.com/octo/cat")).
Proof.
  assert (H : startswith profile_prefix (py "https://github.com/octo/cat") = true)
    by (vm_compute; reflexivity).
  split; [exact H|].
  destruct (username_of_is_a_final_segment (py "https://github.com/octo/cat"))
    as (_ & Hfree & _).
  exact (Hfree H).
Defined.

(** ** Further properties of the handler *)

Section Handler.

Variable unicode_alnum : char -> bool.
Variable W : World.

Local Abbreviation lookup := (Cloud02.get_user_info_from_github_api unicode_alnum W).
Local Abbreviation check := (Cloud02.check_and_switch_key W).

Lemma requests_app tr1 tr2 : requests (tr1 ++ tr2) = requests tr1 ++ requests tr2.
Proof. apply omap_app. Qed.

Lemma cursor_ok_rotate h : cursor_ok h -> cursor_ok (rotate h) /\ api_keys (rotate h) = api_keys h.
Proof.
  intros Hc. split.
  - apply rotate_index_in_range. unfold cursor_ok in Hc. lia.
  - unfold rotate. destruct (18 <=? failed_attempts h + 1); reflexivity.
Qed.

(** What a quota check leaves: one request, at most one wait, and the cursor
    still inside the same pool. *)
Lemma check_leaves m :
  cursor_ok (self m) ->
  exists key pause,
    api_keys (self m) !! current_key_index (self m) = Some key /\
    trace (snd (check m)) = trace m ++ Get (quota_request key) :: pause /\
    (pause = [] \/ pause = [Sleep 3900]) /\
    cursor_ok (self (snd (check m))) /\
    api_keys (self (snd (check m))) = api_keys (self m).
Proof.
  intros Hc. destruct (lookup_lt_is_Some_2 _ _ Hc) as [key Hkey].
  exists key. rewrite (check_and_switch_key_spec W m key Hkey).
  destruct (fst (get_remaining_requests W m)) as [q|e].
  - destruct (q <? 10).
    + destruct (cursor_ok_rotate _ Hc) as [Hc' Hk'].
      exists (cooldown (self m)). cbn [snd self trace].
      repeat split; auto. unfold cooldown.
      destruct (18 <=? failed_attempts (self m) + 1); auto.
    + exists []. cbn [snd]. unfold sent. cbn [self trace]. auto.
  - exists []. cbn [snd]. unfold sent. cbn [self trace]. auto.
Qed.

Lemma lookup_after_failed_check reference m e :
  fst (check m) = Raised e -> lookup reference m = (Raised e, snd (check m)).
Proof.
  intros H. unfold Cloud02.get_user_info_from_github_api, bind.
  destruct (check m) as [[[]|e'] m1]; simpl in *; congruence.
Qed.

(** What a lookup leaves after its quota check: nothing more when the check
    raised, else the profile query and perhaps the document query, with the
    credential the cursor is on. *)
Lemma lookup_leaves reference m :
  cursor_ok (self m) ->
  let m1 := snd (check m) in
  let m' := snd (lookup reference m) in
  exists key sent_after,
    api_keys (self m1) !! current_key_index (self m1) = Some key /\
    trace m' = trace m1 ++ sent_after /\
    (sent_after = [] \/
     sent_after = [Get (profile_request key (username_of reference))] \/
     sent_after = [Get (profile_request key (username_of reference));
                   Get (readme_request key (username_of reference))]) /\
    api_keys (self m') = api_keys (self m1) /\
    current_key_index (self m') = current_key_index (self m1) /\
    failed_attempts (self m') = failed_attempts (self m1).
Proof.
  intros Hc m1 m'. destruct (check_leaves m Hc) as (key0 & pause & _ & _ & _ & Hc1 & _).
  fold m1 in Hc1. destruct (lookup_lt_is_Some_2 _ _ Hc1) as [key Hkey].
  exists key. subst m'. cut (exists sent_after,
    trace (snd (lookup reference m)) = trace m1 ++ sent_after /\
    (sent_after = [] \/
     sent_after = [Get (profile_request key (username_of reference))] \/
     sent_after = [Get (profile_request key (username_of reference));
                   Get (readme_request key (username_of reference))]) /\
    api_keys (self (snd (lookup reference m))) = api_keys (self m1) /\
    current_key_index (self (snd (lookup reference m))) = current_key_index (self m1) /\
    failed_attempts (self (snd (lookup reference m))) = failed_attempts (self m1)).
  { intros (sa & H). exists sa. split; [exact Hkey | exact H]. }
  destruct (fst (check m)) as [[]|e] eqn:Hcheck.
  - rewrite (get_user_info_spec unicode_alnum W reference m key Hcheck Hkey). fold m1.
    set (u := username_of reference).
    destruct (respond W (trace m1) (profile_request key u)) as [p|e].
    + destruct (negb (status_code p =? 200)).
      * eexists. split; [reflexivity|]. auto.
      * destruct (json_email p) as [ud|e]; [|eexists; split; [reflexivity|]; auto].
        cbv zeta. destruct (truthy _); [eexists; split; [reflexivity|]; auto|].
        rewrite get_email_from_readme_spec. cbn [snd]. unfold sent, counted.
        cbn [self trace]. eexists. split; [now rewrite <- app_assoc|]. auto.
    + eexists. split; [reflexivity|]. auto.
  - rewrite (lookup_after_failed_check reference m e Hcheck). fold m1.
    exists []. rewrite app_nil_r. auto.
Qed.

Lemma lookup_effect (reference : str) (m : Machine) :
  cursor_ok (self m) ->
  let m' := snd (lookup reference m) in
  exists key added,
    api_keys (self m) !! current_key_index (self m) = Some key /\
    trace m' = trace m ++ Get (quota_request key) :: added /\
    Forall remote added /\
    (length (requests added) <= 2)%nat /\
    (sleeps added = [] \/ sleeps added = [3900]) /\
    Forall (fun req => exists k, k ∈ api_keys (self m) /\
                                 authorization req = py "token " ++ k)
           (requests (Get (quota_request key) :: added)) /\
    api_keys (self m') = api_keys (self m) /\
    cursor_ok (self m').
Proof.
  intros Hc m'.
  destruct (check_leaves m Hc) as (key & pause & Hkey & Htr & Hpause & Hc1 & Hk1).
  destruct (lookup_leaves reference m Hc) as (key1 & sa & Hkey1 & Htr' & Hsa & Hk' & Hi' & _).
  fold m' in Htr', Hk', Hi'.
  exists key, (pause ++ sa). split; [exact Hkey|].
  assert (Hin : key ∈ api_keys (self m)) by (eapply list_elem_of_lookup_2; eauto).
  assert (Hin1 : key1 ∈ api_keys (self m)).
  { rewrite <- Hk1. eapply list_elem_of_lookup_2; eauto. }
  split; [rewrite Htr', Htr, <- app_assoc; reflexivity|].
  assert (Hauth : forall k u, k ∈ api_keys (self m) ->
            exists k0, k0 ∈ api_keys (self m) /\
              authorization (profile_request k u) = py "token " ++ k0) by eauto.
  assert (Hauth' : forall k u, k ∈ api_keys (self m) ->
            exists k0, k0 ∈ api_keys (self m) /\
              authorization (readme_request k u) = py "token " ++ k0) by eauto.
  assert (Hq : exists k0, k0 ∈ api_keys (self m) /\
              authorization (quota_request key) = py "token " ++ k0) by eauto.
  split; [|split; [|split; [|split; [|split]]]].
  - apply Forall_app. split.
    + destruct Hpause as [-> | ->]; repeat constructor.
    + destruct Hsa as [-> | [-> | ->]]; repeat constructor.
  - destruct Hpause as [-> | ->]; destruct Hsa as [-> | [-> | ->]]; simpl; lia.
  - destruct Hpause as [-> | ->]; destruct Hsa as [-> | [-> | ->]]; simpl; auto.
  - destruct Hpause as [-> | ->]; destruct Hsa as [-> | [-> | ->]]; simpl;
      repeat (apply Forall_cons; split); auto; apply Forall_nil; exact I.
  - now rewrite Hk', Hk1.
  - unfold cursor_ok in *. now rewrite Hk', Hi'.
Qed.

(** X1. A lookup of cloud02.py that starts with the cursor inside the pool
    adds to the trace only requests and waits: first the quota query with the
    credential the cursor was on, then at most two more requests (three
    in all at most), and at most one wait, of 3900 seconds.  A request is one
    call of [get]; what the retrying session repeats is inside it.  Every
    request carries a credential of the pool, and the lookup leaves the pool
    as it was and the cursor inside it. *)
Theorem lookup_sends_at_most_three_requests (reference : str) (m : Machine) :
  cursor_ok (self m) ->
  let m' := snd (lookup reference m) in
  exists key added,
    api_keys (self m) !! current_key_index (self m) = Some key /\
    trace m' = trace m ++ Get (quota_request key) :: added /\
    Forall remote added /\
    (length (requests added) <= 2)%nat /\
    (sleeps added = [] \/ sleeps added = [3900]) /\
    Forall (fun req => exists k, k ∈ api_keys (self m) /\
                                 authorization req = py "token " ++ k)
           (requests (Get (quota_request key) :: added)) /\
    api_keys (self m') = api_keys (self m) /\
    cursor_ok (self m').
Proof. exact (lookup_effect reference m). Qed.

End Handler.

Lemma lookup_sends_at_most_three_requests_witness :
  cursor_ok (self two_keys) /\
  exists added,
    trace (snd (Cloud02.get_user_info_from_github_api ascii_only world_403
                  (py "https://github.com/bob") two_keys))
      = Get (quota_request (py "key-a")) :: added /\
    (length (requests added) <= 2)%nat.
Proof.
  assert (H : cursor_ok (self two_keys)) by (vm_compute; lia).
  split; [exact H|].
  destruct (lookup_sends_at_most_three_requests ascii_only world_403
              (py "https://github.com/bob") two_keys H)
    as (key & added & Hkey & Htr & _ & Hlen & _).
  exists added. split; [|exact Hlen].
  rewrite Htr. injection Hkey as <-. reflexivity.
Defined.

(** *** Lookups that fail at the start *)

Section Failures.

Variable unicode_alnum : char -> bool.
Variable W : World.

Local Abbreviation lookup02 := (Cloud02.get_user_info_from_github_api unicode_alnum W).
Local Abbreviation lookup03 := (Cloud03.get_user_info_from_github_api unicode_alnum W).

(** X12. When the quota query fails (the transport raises, or the reply has
    status 200 and a body from which the remaining quota cannot be read), the
    lookup of either script raises the same exception: the quota query is the
    only request it has sent, and the handler is as it was (no rotation, no
    request counted). *)
Theorem lookup_stops_when_the_quota_query_fails (reference : str) (m : Machine)
    (key : str) (e : exn) :
  api_keys (self m) !! current_key_index (self m) = Some key ->
  respond W (trace m) (quota_request key) = Raised e \/
  (exists r, respond W (trace m) (quota_request key) = Returned r /\
             status_code r = 200 /\ json_rate_remaining r = Raised e) ->
  lookup02 reference m = (Raised e, sent (quota_request key) m) /\
  lookup03 reference m = (Raised e, sent (quota_request key) m).
Proof.
  intros Hkey Hfail.
  assert (H : get_remaining_requests W m = (Raised e, sent (quota_request key) m)).
  { rewrite (get_remaining_requests_spec W m key Hkey).
    destruct Hfail as [-> | (r & -> & -> & ->)]; reflexivity. }
  unfold Cloud02.get_user_info_from_github_api, Cloud03.get_user_info_from_github_api,
    Cloud02.check_and_switch_key, Cloud03.check_and_switch_key, bind.
  rewrite H. split; reflexivity.
Qed.

(** X13. With the cursor outside the pool (an empty pool, for one) the
    lookup of either script raises IndexError when it builds the header of
    its first request: nothing is sent and nothing changes, and the division
    by the size of the pool is never reached. *)
Theorem lookup_with_cursor_outside_the_pool (reference : str) (m : Machine) :
  api_keys (self m) !! current_key_index (self m) = None ->
  lookup02 reference m = (Raised IndexError, m) /\
  lookup03 reference m = (Raised IndexError, m).
Proof.
  intros Hkey.
  assert (H : get_remaining_requests W m = (Raised IndexError, m)).
  { unfold get_remaining_requests, bind. now rewrite get_headers_spec, Hkey. }
  unfold Cloud02.get_user_info_from_github_api, Cloud03.get_user_info_from_github_api,
    Cloud02.check_and_switch_key, Cloud03.check_and_switch_key, bind.
  rewrite H. split; reflexivity.
Qed.

End Failures.

Lemma lookup_stops_when_the_quota_query_fails_witness :
  api_keys (self two_keys) !! current_key_index (self two_keys) = Some (py "key-a") /\
  Cloud02.get_user_info_from_github_api ascii_only
    {| respond := fun _ _ => Returned (json_reply (Raised KeyError) (Raised KeyError));
       clock := fun _ => 0 |} (py "bob") two_keys
  = (Raised KeyError, sent (quota_request (py "key-a")) two_keys).
Proof.
  split; [reflexivity|].
  apply (lookup_stops_when_the_quota_query_fails ascii_only
           {| respond := fun _ _ => Returned (json_reply (Raised KeyError) (Raised KeyError));
              clock := fun _ => 0 |} (py "bob") two_keys (py "key-a") KeyError eq_refl).
  right. eexists. split; [reflexivity|]. split; reflexivity.
Defined.

Lemma lookup_with_cursor_outside_the_pool_witness :
  api_keys (init_handler []) !! current_key_index (init_handler []) = None /\
  Cloud03.get_user_info_from_github_api ascii_only sample_service (py "bob")
    {| self := init_handler []; trace := [] |}
  = (Raised IndexError, {| self := init_handler []; trace := [] |}).
Proof.
  split; [reflexivity|].
  apply (lookup_with_cursor_outside_the_pool ascii_only sample_service (py "bob")
           {| self := init_handler []; trace := [] |} eq_refl).
Defined.

(** *** What a lookup returns *)

Section Returned.

Variable unicode_alnum : char -> bool.
Variable W : World.

Lemma readme_returns_none_or_nonempty username headers m v :
  fst (get_email_from_readme unicode_alnum W username headers m) = Returned v ->
  v = PyNone \/ truthy v = true.
Proof.
  unfold get_email_from_readme, bind, http_get.
  destruct (respond W (trace m) _) as [d|e]; [|discriminate].
  destruct (status_code d =? 200); cbn [ret fst]; intros E; inversion E; [|now left].
  destruct (extract_email unicode_alnum (text d)) as [a|] eqn:Ha; [|now left].
  right. destruct (extract_email_shape unicode_alnum _ _ Ha) as (_ & _ & l & dm & t & _ & Hs & _).
  destruct (address_shape_chars unicode_alnum _ _ _ _ Hs) as (_ & Hne & _).
  destruct a; [contradiction | reflexivity].
Qed.

(** What follows the quota check, in both scripts. *)
Lemma lookup_tail_returns_none_or_nonempty reference m v :
  fst ((do headers <- get_headers;
        modify_self (fun h => set_request_count (request_count h + 1) h) ;;
        let username := username_of reference in
        do response <- http_get W requests_retry_session (users_url username) headers;
        if negb (status_code response =? 200) then ret PyNone
        else
          do user_data <- lift (json_email response);
          let email := match user_data with Some v => v | None => PyStr [] end in
          if truthy email then ret email
          else get_email_from_readme unicode_alnum W username headers)%py m) = Returned v ->
  v = PyNone \/ truthy v = true.
Proof.
  unfold bind at 1. rewrite get_headers_spec.
  destruct (api_keys (self m) !! current_key_index (self m)) as [key|]; [|discriminate].
  unfold bind at 1, modify_self. unfold bind at 1, http_get at 1. cbn [self trace].
  destruct (respond W _ _) as [p|e]; [|discriminate].
  destruct (status_code p =? 200); cbn [negb]; [|intros E; inversion E; now left].
  unfold bind at 1, lift. destruct (json_email p) as [ud|e]; [|discriminate].
  cbv zeta. destruct (truthy _) eqn:Ht.
  - intros E. inversion E; subst v. now right.
  - apply readme_returns_none_or_nonempty.
Qed.

(** X5. In both scripts a lookup that returns gives either the absent value
    or a string that is not empty, never the empty string. *)
Theorem lookup_returns_none_or_nonempty (reference : str) (m : Machine) (v : pyval) :
  fst (Cloud02.get_user_info_from_github_api unicode_alnum W reference m) = Returned v \/
  fst (Cloud03.get_user_info_from_github_api unicode_alnum W reference m) = Returned v ->
  v = PyNone \/ exists c s, v = PyStr (c :: s).
Proof.
  intros H. cut (v = PyNone \/ truthy v = true).
  { intros [->|Ht]; [now left|]. right. destruct v as [|[|c s]]; try discriminate. eauto. }
  destruct H as [H|H]; revert H.
  - unfold Cloud02.get_user_info_from_github_api. unfold bind at 1.
    destruct (Cloud02.check_and_switch_key W m) as [[[]|e] m1]; [|discriminate].
    apply lookup_tail_returns_none_or_nonempty.
  - unfold Cloud03.get_user_info_from_github_api. unfold bind at 1.
    destruct (Cloud03.check_and_switch_key W m) as [[[]|e] m1]; [|discriminate].
    apply lookup_tail_returns_none_or_nonempty.
Qed.

End Returned.

Lemma lookup_returns_none_or_nonempty_witness :
  fst (Cloud02.get_user_info_from_github_api ascii_only sample_service
         (py "https://github.com/bob") two_keys)
    = Returned (PyStr (py "bob@example.org")) /\
  (PyStr (py "bob@example.org") = PyNone \/
   exists c s, PyStr (py "bob@example.org") = PyStr (c :: s)).
Proof.
  assert (H : fst (Cloud02.get_user_info_from_github_api ascii_only sample_service
                     (py "https://github.com/bob") two_keys)
              = Returned (PyStr (py "bob@example.org"))) by (vm_compute; reflexivity).
  split; [exact H|].
  exact (lookup_returns_none_or_nonempty ascii_only sample_service
           (py "https://github.com/bob") two_keys _ (or_introl H)).
Defined.

(** *** The rotation counters over a series of lookups *)

Section Counters.

Variable unicode_alnum : char -> bool.
Variable W : World.

Local Abbreviation lookup := (Cloud02.get_user_info_from_github_api unicode_alnum W).
Local Abbreviation check := (Cloud02.check_and_switch_key W).
Local Abbreviation detects_low := (detects_low W).
Local Abbreviation lookups := (lookups unicode_alnum W).
Local Abbreviation low_detections := (low_detections unicode_alnum W).

(** What one lookup does to the cursor, the counter and the waits. *)
Lemma lookup_counters reference m :
  cursor_ok (self m) ->
  let m' := snd (lookup reference m) in
  let f := failed_attempts (self m) in
  api_keys (self m') = api_keys (self m) /\
  cursor_ok (self m') /\
  current_key_index (self m') =
    (if detects_low m
     then (current_key_index (self m) + 1) mod length (api_keys (self m))
     else current_key_index (self m))%nat /\
  failed_attempts (self m') =
    (if detects_low m then (if 18 <=? f + 1 then 0 else f + 1) else f) /\
  sleeps (trace m') =
    sleeps (trace m) ++ (if detects_low m && (18 <=? f + 1) then [3900] else []).
Proof.
  intros Hc m' f.
  destruct (lookup_effect unicode_alnum W reference m Hc)
    as (key & _ & Hkey & _ & _ & _ & _ & _ & Hk & Hc').
  destruct (lookup_leaves unicode_alnum W reference m Hc)
    as (key1 & sa & _ & Htr & Hsa & _ & Hi & Hf).
  fold m' in Hk, Hc', Htr, Hi, Hf.
  split; [exact Hk|]. split; [exact Hc'|].
  assert (Hsl : sleeps (trace m') = sleeps (trace (snd (check m)))).
  { rewrite Htr, sleeps_app. destruct Hsa as [-> | [-> | ->]]; simpl; apply app_nil_r. }
  rewrite Hi, Hf, Hsl. clear Hi Hf Hsl Htr Hsa.
  rewrite (check_and_switch_key_spec W m key Hkey). unfold detects_low.
  destruct (fst (get_remaining_requests W m)) as [q|e].
  - destruct (q <? 10); cbn [snd self trace sent andb].
    + unfold rotate, cooldown. fold f.
      destruct (18 <=? f + 1); cbn [current_key_index failed_attempts set_failed_attempts
        set_request_count set_current_key_index];
        rewrite !sleeps_app; simpl; rewrite ?app_nil_r; auto.
    + rewrite sleeps_app. simpl. rewrite !app_nil_r. auto.
  - cbn [snd self trace sent]. rewrite sleeps_app. simpl. rewrite !app_nil_r. auto.
Qed.

(** X4. Over any series of lookups of cloud02.py, started with the cursor
    inside the pool and the counter below its threshold: the pool stays as
    it is; with L the number of lookups whose quota check found the quota
    low, the cursor has moved L places round the pool, the counter stands at
    (counter + L) mod 18, and the lookups have blocked (counter + L) / 18
    times, each time for 3900 seconds.  A lookup whose check finds enough
    quota, or raises, neither moves the cursor nor resets the counter. *)
Theorem rotation_counters_over_lookups (references : list str) (m : Machine) :
  cursor_ok (self m) ->
  0 <= failed_attempts (self m) < 18 ->
  let m' := lookups references m in
  let L := low_detections references m in
  let f := failed_attempts (self m) in
  api_keys (self m') = api_keys (self m) /\
  current_key_index (self m') =
    ((current_key_index (self m) + L) mod length (api_keys (self m)))%nat /\
  failed_attempts (self m') = (f + Z.of_nat L) mod 18 /\
  sleeps (trace m') =
    sleeps (trace m) ++ replicate (Z.to_nat ((f + Z.of_nat L) / 18)) 3900.
Proof.
  revert m. induction references as [|r refs IH]; intros m Hc Hf; cbv zeta.
  - cbn [lookups low_detections]. rewrite Nat.add_0_r, Z.add_0_r.
    rewrite Nat.mod_small by exact Hc.
    rewrite Z.mod_small, Z.div_small by exact Hf.
    simpl. rewrite app_nil_r. auto.
  - cbn [lookups low_detections].
    destruct (lookup_counters r m Hc) as (Hk & Hc1 & Hi & Hfa & Hsl).
    set (m1 := snd (lookup r m)) in *.
    set (f := failed_attempts (self m)) in *.
    assert (Hf1 : 0 <= failed_attempts (self m1) < 18).
    { rewrite Hfa. destruct (detects_low m); [|exact Hf].
      destruct (Z.leb_spec 18 (f + 1)); lia. }
    destruct (IH m1 Hc1 Hf1) as (IHk & IHi & IHf & IHs).
    set (L' := low_detections refs m1) in *.
    rewrite IHk, IHi, IHf, IHs, Hk, Hi, Hfa, Hsl. clear IHk IHi IHf IHs.
    split; [reflexivity|].
    destruct (detects_low m); cbn [andb].
    + split; [|destruct (Z.leb_spec 18 (f + 1)) as [Hge|Hlt]].
      * rewrite Nat.Div0.add_mod_idemp_l. f_equal. lia.
      * assert (f = 17) as -> by lia.
        replace (17 + Z.of_nat (1 + L')) with (Z.of_nat L' + 1 * 18) by lia.
        rewrite Z_mod_plus_full, Z_div_plus_full by lia. split; [reflexivity|].
        rewrite <- app_assoc. f_equal.
        rewrite Z.add_0_l, Z2Nat.inj_add by (try apply Z.div_pos; lia).
        rewrite Nat.add_comm. reflexivity.
      * replace (f + 1 + Z.of_nat L') with (f + Z.of_nat (1 + L')) by lia.
        rewrite app_nil_r. auto.
    + rewrite app_nil_r. cbn [Nat.add]. auto.
Qed.

End Counters.

Lemma rotation_counters_over_lookups_witness :
  cursor_ok (self two_keys) /\
  0 <= failed_attempts (self two_keys) < 18 /\
  failed_attempts
    (self (lookups ascii_only world_403 (replicate 20 (py "bob")) two_keys)) = 2 /\
  sleeps (trace (lookups ascii_only world_403 (replicate 20 (py "bob")) two_keys))
    = [3900].
Proof.
  assert (H1 : cursor_ok (self two_keys)) by (vm_compute; lia).
  assert (H2 : 0 <= failed_attempts (self two_keys) < 18) by (simpl; lia).
  split; [exact H1|]. split; [exact H2|].
  destruct (rotation_counters_over_lookups ascii_only world_403
              (replicate 20 (py "bob")) two_keys H1 H2) as (_ & _ & Hf & Hs).
  split; [rewrite Hf | rewrite Hs]; vm_compute; reflexivity.
Defined.

(** ** Further properties of the batch runner *)

Section Run02.

Import Cloud02.

Variable unicode_alnum : char -> bool.
Variable W : World.

Local Abbreviation lookup := (Cloud02.get_user_info_from_github_api unicode_alnum W).
Local Abbreviation iteration := (Cloud02.iteration unicode_alnum W).
Local Abbreviation loop := (Cloud02.loop unicode_alnum W).
Local Abbreviation main := (Cloud02.main unicode_alnum W).
Local Abbreviation startup := (Cloud02.startup W).

Lemma within_budget_app ev1 ev2 :
  within_budget ev1 -> within_budget ev2 -> within_budget (ev1 ++ ev2).
Proof.
  unfold within_budget. rewrite requests_app, sleeps_app, attempted_app, !length_app.
  intros (? & ? & ? & ?) (? & ? & ? & ?). repeat split; try lia. now apply Forall_app.
Qed.

(** The events of one lookup, with its announcement before and whatever the
    runner logs after. *)
Lemma turn_within_budget u key added after :
  Forall remote added ->
  (length (requests added) <= 2)%nat ->
  (sleeps added = [] \/ sleeps added = [3900]) ->
  requests after = [] -> sleeps after = [] -> attempted after = [] ->
  within_budget (LogProcessing u :: (Get (quota_request key) :: added) ++ after) /\
  attempted (LogProcessing u :: (Get (quota_request key) :: added) ++ after) = [u].
Proof.
  intros Hrem Hreq Hsl Ha1 Ha2 Ha3. unfold within_budget.
  change (LogProcessing u :: (Get (quota_request key) :: added) ++ after)
    with ([LogProcessing u; Get (quota_request key)] ++ added ++ after).
  rewrite !requests_app, !sleeps_app, !attempted_app, Ha1, Ha2, Ha3,
    (attempted_remote added Hrem), !length_app.
  cbn [requests sleeps attempted omap length app].
  split; [|reflexivity].
  destruct Hsl as [-> | ->]; simpl; repeat split; try lia; repeat constructor.
Qed.

(** One turn of the loop: what it adds to the trace is within the budget, and
    it keeps the pool and the cursor inside it. *)
Lemma iteration_effect st index row :
  cursor_ok (self (machine st)) ->
  let st' := iteration st (index, row) in
  exists ev,
    trace (machine st') = trace (machine st) ++ ev /\
    within_budget ev /\
    attempted ev = (if skips row st then [] else [Profile_URL row]) /\
    api_keys (self (machine st')) = api_keys (self (machine st)) /\
    cursor_ok (self (machine st')).
Proof.
  intros Hc st'. subst st'.
  assert (Hc' : cursor_ok (self (machine (announced row st)))) by (fields; exact Hc).
  destruct (lookup_effect unicode_alnum W (Profile_URL row) _ Hc')
    as (key & added & _ & Htr & Hrem & Hreq & Hsl & _ & Hkeys & Hcur).
  destruct (iteration_cases unicode_alnum W st index row)
    as [[Hs ->] | [(Hs & e & m & Hres & ->) | (Hs & email & m & Hres & ->)]];
    rewrite Hs.
  - exists []. rewrite app_nil_r. unfold within_budget. simpl. repeat split; auto.
  - rewrite Hres in Htr, Hkeys, Hcur. cbn [snd] in Htr, Hkeys, Hcur.
    revert Htr Hkeys Hcur. fields. intros Htr Hkeys Hcur.
    destruct (turn_within_budget (Profile_URL row) key added
                [LogError (Profile_URL row) e] Hrem Hreq Hsl eq_refl eq_refl eq_refl)
      as [Hb Ha].
    eexists. fields. rewrite Htr. split; [|split; [exact Hb|split; [exact Ha|auto]]].
    now rewrite <- !app_assoc.
  - rewrite Hres in Htr, Hkeys, Hcur. cbn [snd] in Htr, Hkeys, Hcur.
    revert Htr Hkeys Hcur. fields. intros Htr Hkeys Hcur.
    cbv zeta. unfold looked_up.
    destruct (_ >? _); destruct (truthy email); fields; rewrite Htr.
    1,2: destruct (turn_within_budget (Profile_URL row) key added
                [Now; Now] Hrem Hreq Hsl eq_refl eq_refl eq_refl) as [Hb Ha].
    3,4: destruct (turn_within_budget (Profile_URL row) key added
                [Now] Hrem Hreq Hsl eq_refl eq_refl eq_refl) as [Hb Ha].
    all: eexists; (split; [|split; [exact Hb|split; [exact Ha|auto]]]);
      now rewrite <- !app_assoc.
Qed.

(** The same for any number of turns. *)
Lemma loop_effect rows : forall st,
  cursor_ok (self (machine st)) ->
  let st' := loop rows st in
  exists ev,
    trace (machine st') = trace (machine st) ++ ev /\
    within_budget ev /\
    (length (attempted ev) <= length rows)%nat /\
    api_keys (self (machine st')) = api_keys (self (machine st)) /\
    cursor_ok (self (machine st')).
Proof.
  induction rows as [|[index row] rows IH]; intros st Hc; cbv zeta.
  - exists []. rewrite app_nil_r. unfold within_budget. simpl. repeat split; auto.
  - destruct (iteration_effect st index row Hc) as (ev1 & E1 & B1 & A1 & K1 & C1).
    destruct (IH _ C1) as (ev2 & E2 & B2 & A2 & K2 & C2).
    exists (ev1 ++ ev2). unfold Cloud02.loop in *. cbn [fold_left].
    rewrite E2, E1, K2, K1, attempted_app, length_app, A1, <- app_assoc.
    split; [reflexivity|]. split; [now apply within_budget_app|].
    split; [|split; [reflexivity | exact C2]].
    cbn [length]. destruct (skips row st); simpl; lia.
Qed.

Lemma startup_handler environ_keys fs tr st0 :
  startup environ_keys fs tr = Returned st0 ->
  exists keys,
    environ_keys = Some keys /\
    self (machine st0) = init_handler (split_on (chr ",") keys) /\
    cursor_ok (self (machine st0)).
Proof.
  unfold Cloud02.startup. destruct environ_keys as [keys|]; [|discriminate].
  destruct (input_csv fs) as [rows|]; [|discriminate].
  intros E. inversion E; subst st0; clear E. exists keys. cbn [machine self].
  split; [reflexivity|]. split; [reflexivity|].
  unfold cursor_ok, init_handler. cbn [current_key_index api_keys].
  destruct (split_on_cons (chr ",") keys) as (piece & pieces & ->). simpl. lia.
Qed.

(** X2. Whatever the service answers and however many records the input
    holds, all through the loop of cloud02.py the pool is the list of
    credentials read from the environment (the variable split at its commas)
    and the cursor is inside it: the authorization header can be built, with
    a credential of that list. *)
Theorem run_keeps_cursor_in_pool (environ_keys : option str) (fs : Files)
    (tr : list Event) (st0 : Run) (rows : list (nat * InputRecord)) :
  startup environ_keys fs tr = Returned st0 ->
  let m := machine (loop rows st0) in
  exists keys key,
    environ_keys = Some keys /\
    api_keys (self m) = split_on (chr ",") keys /\
    cursor_ok (self m) /\
    key ∈ split_on (chr ",") keys /\
    get_headers m = (Returned (py "token " ++ key), m).
Proof.
  intros Hst m. destruct (startup_handler _ _ _ _ Hst) as (keys & -> & Hself & Hc).
  destruct (loop_effect rows st0 Hc) as (_ & _ & _ & _ & Hk & Hc'). fold m in Hk, Hc'.
  rewrite Hself in Hk. cbn [init_handler api_keys] in Hk.
  destruct (lookup_lt_is_Some_2 _ _ Hc') as [key Hkey].
  exists keys, key. split; [reflexivity|]. split; [exact Hk|]. split; [exact Hc'|].
  split.
  - rewrite <- Hk. eapply list_elem_of_lookup_2; eauto.
  - now rewrite get_headers_spec, Hkey.
Qed.





End Run02.

Lemma run_keeps_cursor_in_pool_witness :
  Cloud02.startup sample_service sample_keys (fresh [pending "alice"; pending "bob"]) []
    = Returned (begun [pending "alice"; pending "bob"] 0) /\
  cursor_ok (self (Cloud02.machine
     (Cloud02.loop ascii_only sample_service
        (Cloud02.iterrows [pending "alice"; pending "bob"])
        (begun [pending "alice"; pending "bob"] 0)))).
Proof.
  assert (H : Cloud02.startup sample_service sample_keys
                (fresh [pending "alice"; pending "bob"]) []
              = Returned (begun [pending "alice"; pending "bob"] 0))
    by (vm_compute; reflexivity).
  split; [exact H|].
  destruct (run_keeps_cursor_in_pool ascii_only sample_service _ _ _ _
              (Cloud02.iterrows [pending "alice"; pending "bob"]) H)
    as (keys & key & _ & _ & Hc & _).
  exact Hc.
Defined.


(** *** The records a run marks *)

Lemma mark_done_nil rows : mark_done [] rows = rows.
Proof.
  apply list_eq. intros j. unfold mark_done. rewrite list_lookup_imap.
  destruct (rows !! j); reflexivity.
Qed.

Lemma mark_done_alter i indices rows :
  mark_done indices (alter (set_Status (py "Done")) i rows) = mark_done (i :: indices) rows.
Proof.
  apply list_eq. intros j. unfold mark_done. rewrite !list_lookup_imap, list_lookup_alter.
  destruct (decide (i = j)) as [->|Hne].
  - destruct (rows !! j) as [r|]; [|reflexivity]. cbn.
    rewrite (bool_decide_eq_true_2 (j ∈ j :: indices)) by left.
    destruct (bool_decide (j ∈ indices)); reflexivity.
  - destruct (rows !! j) as [r|]; [|reflexivity]. cbn. f_equal.
    rewrite (bool_decide_ext (j ∈ i :: indices) (j ∈ indices)); [reflexivity|].
    rewrite elem_of_cons. intuition congruence.
Qed.

Section Marks.

Import Cloud02.

Variable unicode_alnum : char -> bool.
Variable W : World.

Local Abbreviation iteration := (Cloud02.iteration unicode_alnum W).
Local Abbreviation loop := (Cloud02.loop unicode_alnum W).
Local Abbreviation main := (Cloud02.main unicode_alnum W).
Local Abbreviation startup := (Cloud02.startup W).

(** The same for any number of turns: the records they resolve, in the
    order of the turns, are those whose lookup returned an e-mail. *)
Lemma loop_resolutions rows : forall st,
  let resolved := resolutions unicode_alnum W rows st in
  map fst resolved `sublist_of` rows /\
  Forall (fun x => truthy (email_of x) = true /\
                   Status (row_of x) <> Some (py "Done")) resolved /\
  known (loop rows st) =
    known st ++ map (fun x => output_row (row_of x) (email_of x)) resolved /\
  input_df (loop rows st) = mark_done (map index_of resolved) (input_df st).
Proof.
  induction rows as [|[index row] rows IH]; intros st; cbv zeta.
  - cbn. rewrite app_nil_r, mark_done_nil. repeat split; constructor.
  - unfold Cloud02.loop. cbn [fold_left resolutions].
    fold (loop rows (iteration st (index, row))).
    destruct (IH (iteration st (index, row))) as (Hsub & Hall & Hk & Hi).
    rewrite Hk, Hi. clear Hk Hi.
    destruct (skips row st) eqn:Hs.
    + rewrite (iteration_skipped unicode_alnum W st index row Hs) in *. cbn [app].
      split; [now apply sublist_cons|]. auto.
    + destruct (iteration_not_skipped unicode_alnum W st index row Hs) as [_ Hm].
      cbv zeta in Hm.
      destruct (fst (get_user_info_from_github_api unicode_alnum W (Profile_URL row)
                       (machine (announced row st)))) as [email|e];
        [destruct (truthy email) eqn:Ht|].
      * destruct Hm as (_ & Ek & Ei). rewrite Ek, Ei. cbn [app map].
        split; [now apply sublist_skip|].
        split; [constructor; [split; [exact Ht | apply (skips_false row st Hs)] | exact Hall]|].
        split; [now rewrite <- app_assoc|]. apply mark_done_alter.
      * destruct Hm as (_ & Ek & Ei). rewrite Ek, Ei. cbn [app].
        split; [now apply sublist_cons|]. auto.
      * destruct Hm as (_ & Ek & Ei & _). rewrite Ek, Ei. cbn [app].
        split; [now apply sublist_cons|]. auto.
Qed.

Lemma main_resolved (keys : str) (fs : Files) (tr : list Event)
    (rows : list InputRecord) :
  input_csv fs = Some rows ->
  let fs' := fst (main (Some keys) fs tr) in
  exists st0,
    startup (Some keys) fs tr = Returned st0 /\
    let resolved := resolutions unicode_alnum W (iterrows rows) st0 in
    map fst resolved `sublist_of` iterrows rows /\
    Forall (fun x => truthy (email_of x) = true /\
                     Status (row_of x) <> Some (py "Done")) resolved /\
    rows_of (output_csv fs') =
      rows_of (output_csv fs) ++
      map (fun x => output_row (row_of x) (email_of x)) resolved /\
    input_csv fs' = Some (mark_done (map index_of resolved) rows).
Proof.
  intros Hin fs'. subst fs'. unfold Cloud02.main.
  destruct (startup (Some keys) fs tr) as [st0|e] eqn:Hst.
  - exists st0. split; [reflexivity|].
    destruct (startup_spec W _ _ _ _ Hst) as (Hc & Hk & Hin' & _ & _).
    rewrite Hin in Hin'. inversion Hin' as [Hrows]. rewrite <- Hrows.
    destruct (loop_known unicode_alnum W (iterrows rows) st0 Hc) as (Hc' & _).
    destruct (loop_resolutions (iterrows rows) st0) as (Hsub & Hall & Hk' & Hi').
    destruct (final_save_known _ Hc') as [Hout _].
    destruct (final_save_files (loop (iterrows rows) st0)) as [Hinp _].
    cbn [fst]. cbv zeta. rewrite Hout, Hinp, Hk', Hi', Hk, <- Hrows. auto.
  - exfalso. unfold Cloud02.startup in Hst. rewrite Hin in Hst. discriminate.
Qed.

(** X9. A run of cloud02.py that finds its credentials and its input file
    resolves exactly the records that, when their turn comes, are not
    skipped and whose lookup returns an e-mail that is not empty ([resolutions]
    runs those lookups, in the order of the file, each from the state the
    turns before it left).  It appends their rows, with the e-mails the
    lookups returned and in that order, to what the output file held, and
    rewrites the input file with the same records in the same order, the
    status of exactly the resolved ones set to "Done". *)
Theorem main_marks_the_resolved_records (keys : str) (fs : Files) (tr : list Event)
    (rows : list InputRecord) :
  input_csv fs = Some rows ->
  let fs' := fst (main (Some keys) fs tr) in
  exists st0,
    startup (Some keys) fs tr = Returned st0 /\
    let resolved := resolutions unicode_alnum W (iterrows rows) st0 in
    map fst resolved `sublist_of` iterrows rows /\
    Forall (fun x => truthy (email_of x) = true /\
                     Status (row_of x) <> Some (py "Done")) resolved /\
    rows_of (output_csv fs') =
      rows_of (output_csv fs) ++
      map (fun x => output_row (row_of x) (email_of x)) resolved /\
    input_csv fs' = Some (mark_done (map index_of resolved) rows).
Proof. exact (main_resolved keys fs tr rows). Qed.

(** X15. A run of cloud02.py keeps the two files in step: if every input
    record marked "Done" had a row with its profile reference in the output
    file before the run, the same holds of the files the run leaves, whatever
    the service answered and whether or not the run could start. *)
Theorem main_keeps_done_records_in_the_output (environ_keys : option str) (fs : Files)
    (tr : list Event) :
  done_have_rows (default [] (input_csv fs)) (rows_of (output_csv fs)) ->
  let fs' := fst (main environ_keys fs tr) in
  done_have_rows (default [] (input_csv fs')) (rows_of (output_csv fs')).
Proof.
  intros Hsync fs'. subst fs'.
  destruct environ_keys as [keys|]; [|exact Hsync].
  destruct (input_csv fs) as [rows|] eqn:Hin;
    [|unfold Cloud02.main, Cloud02.startup; rewrite Hin; cbn [fst]; now rewrite Hin].
  destruct (main_resolved keys fs tr rows Hin) as (st0 & _ & Hres).
  cbv zeta in Hres. revert Hres.
  generalize (resolutions unicode_alnum W (iterrows rows) st0).
  intros resolved (Hsub & _ & -> & ->).
  cbn [default] in *. intros r' Hr' Hdone.
  apply elem_of_lookup_imap_1 in Hr' as (i & r & -> & Hlook).
  rewrite profiles_app, elem_of_app.
  destruct (bool_decide (i ∈ map index_of resolved)) eqn:Hi.
  - right. apply bool_decide_eq_true_1 in Hi.
    apply list_elem_of_In, in_map_iff in Hi as (x & <- & Hx).
    apply list_elem_of_In in Hx.
    assert (Hpair : fst x ∈ iterrows rows).
    { apply (elem_of_sublist (map fst resolved)); [|exact Hsub].
      apply list_elem_of_In. apply (in_map fst resolved x). now apply list_elem_of_In. }
    apply elem_of_lookup_imap_1 in Hpair as (j & y & Epair & Hy).
    assert (Ej : index_of x = j) by (unfold index_of; now rewrite Epair).
    assert (Ey : row_of x = y) by (unfold row_of; now rewrite Epair).
    rewrite Ej, Hy in Hlook. inversion Hlook; subst r.
    apply elem_of_profiles. exists (output_row (row_of x) (email_of x)).
    split; [|now rewrite Ey].
    apply list_elem_of_In.
    apply (in_map (fun x => output_row (row_of x) (email_of x)) resolved x).
    now apply list_elem_of_In.
  - left. apply Hsync; [|exact Hdone]. eapply list_elem_of_lookup_2, Hlook.
Qed.

End Marks.

Lemma main_marks_the_resolved_records_witness :
  input_csv (fresh [pending "alice"; pending "carol"; pending "bob"])
    = Some [pending "alice"; pending "carol"; pending "bob"] /\
  rows_of (output_csv (fst (Cloud02.main ascii_only sample_service (Some (py "key-a,key-b"))
                              (fresh [pending "alice"; pending "carol"; pending "bob"]) [])))
    = [found "alice" "alice@example.org"; found "bob" "bob@example.org"] /\
  input_csv (fst (Cloud02.main ascii_only sample_service (Some (py "key-a,key-b"))
                    (fresh [pending "alice"; pending "carol"; pending "bob"]) []))
    = Some [set_Status (py "Done") (pending "alice"); pending "carol";
            set_Status (py "Done") (pending "bob")].
Proof.
  split; [reflexivity|].
  destruct (main_marks_the_resolved_records ascii_only sample_service (py "key-a,key-b")
              (fresh [pending "alice"; pending "carol"; pending "bob"]) []
              [pending "alice"; pending "carol"; pending "bob"] eq_refl)
    as (st0 & Hst & _ & _ & Hout & Hin).
  assert (E : Cloud02.startup sample_service (Some (py "key-a,key-b"))
                (fresh [pending "alice"; pending "carol"; pending "bob"]) []
              = Returned (begun [pending "alice"; pending "carol"; pending "bob"] 0))
    by (vm_compute; reflexivity).
  rewrite E in Hst. injection Hst as <-.
  rewrite Hout, Hin. split; vm_compute; reflexivity.
Defined.

Lemma main_keeps_done_records_in_the_output_witness :
  done_have_rows (default [] (input_csv (fresh [pending "alice"; pending "bob"])))
                 (rows_of (output_csv (fresh [pending "alice"; pending "bob"]))) /\
  done_have_rows
    (default [] (input_csv (fst (Cloud02.main ascii_only sample_service sample_keys
                                   (fresh [pending "alice"; pending "bob"]) []))))
    (rows_of (output_csv (fst (Cloud02.main ascii_only sample_service sample_keys
                                 (fresh [pending "alice"; pending "bob"]) [])))).
Proof.
  assert (H : done_have_rows
                (default [] (input_csv (fresh [pending "alice"; pending "bob"])))
                (rows_of (output_csv (fresh [pending "alice"; pending "bob"])))).
  { intros r Hr Hd. apply list_elem_of_In in Hr.
    destruct Hr as [<-|[<-|[]]]; discriminate Hd. }
  split; [exact H|].
  exact (main_keeps_done_records_in_the_output ascii_only sample_service sample_keys
           (fresh [pending "alice"; pending "bob"]) [] H).
Defined.

(** ** cloud03.py: no waits, and an output file written anew *)

Lemma sleepless_ret {A} (a : A) : sleepless (ret a).
Proof. intros m. reflexivity. Qed.

Lemma sleepless_raise {A} e : sleepless (@raise A e).
Proof. intros m. reflexivity. Qed.

Lemma sleepless_lift {A} (o : outcome A) : sleepless (lift o).
Proof. intros m. reflexivity. Qed.

Lemma sleepless_get_self : sleepless get_self.
Proof. intros m. reflexivity. Qed.

Lemma sleepless_modify_self f : sleepless (modify_self f).
Proof. intros m. reflexivity. Qed.

Lemma sleepless_http_get W t u h : sleepless (http_get W t u h).
Proof. intros m. unfold http_get. cbn [snd trace]. rewrite sleeps_app. apply app_nil_r. Qed.

Lemma sleepless_bind {A B} (c : M A) (k : A -> M B) :
  sleepless c -> (forall a, sleepless (k a)) -> sleepless (bind c k).
Proof.
  intros Hc Hk m. unfold bind. specialize (Hc m).
  destruct (c m) as [[a|e] m1]; cbn [snd] in *; [|exact Hc].
  now rewrite (Hk a m1).
Qed.

Ltac sleepless :=
  repeat first
    [ apply sleepless_ret | apply sleepless_raise | apply sleepless_lift
    | apply sleepless_get_self | apply sleepless_modify_self | apply sleepless_http_get
    | apply sleepless_bind; [|intros]
    | match goal with
      | |- sleepless (if ?b then _ else _) => destruct b
      | |- sleepless (match ?x with _ => _ end) => destruct x
      end ].

Lemma sleepless_get_user_info_03 ua W reference :
  sleepless (Cloud03.get_user_info_from_github_api ua W reference).
Proof.
  unfold Cloud03.get_user_info_from_github_api, Cloud03.check_and_switch_key,
    get_remaining_requests, get_headers, get_email_from_readme.
  sleepless.
Qed.

Lemma sends_none {A} (c : M A) n :
  (forall m, trace (snd (c m)) = trace m) -> sends_at_most n c.
Proof.
  intros H m. exists []. rewrite app_nil_r. split; [apply H|]. split; [constructor|].
  simpl. lia.
Qed.

Lemma sends_at_most_ret {A} (a : A) n : sends_at_most n (ret a).
Proof. now apply sends_none. Qed.

Lemma sends_at_most_raise {A} e n : sends_at_most n (@raise A e).
Proof. now apply sends_none. Qed.

Lemma sends_at_most_lift {A} (o : outcome A) n : sends_at_most n (lift o).
Proof. now apply sends_none. Qed.

Lemma sends_at_most_modify_self f n : sends_at_most n (modify_self f).
Proof. now apply sends_none. Qed.

Lemma sends_at_most_get_headers n : sends_at_most n get_headers.
Proof. apply sends_none. intros m. now rewrite get_headers_spec. Qed.

Lemma sends_at_most_http_get W t u h n : sends_at_most (S n) (http_get W t u h).
Proof.
  intros m. exists [Get {| via := t; url := u; authorization := h |}].
  split; [reflexivity|]. split; [repeat constructor|]. simpl. lia.
Qed.

Lemma sends_at_most_bind n1 n2 {A B} (c : M A) (k : A -> M B) :
  sends_at_most n1 c -> (forall a, sends_at_most n2 (k a)) ->
  sends_at_most (n1 + n2) (bind c k).
Proof.
  intros Hc Hk m. unfold bind. destruct (Hc m) as (tr1 & E1 & F1 & L1).
  destruct (c m) as [[a|e] m1]; cbn [snd] in *.
  - destruct (Hk a m1) as (tr2 & E2 & F2 & L2). exists (tr1 ++ tr2).
    rewrite E2, E1, app_assoc, requests_app, length_app.
    split; [reflexivity|]. split; [now apply Forall_app | lia].
  - exists tr1. split; [exact E1|]. split; [exact F1 | lia].
Qed.

Lemma sends_at_most_get_remaining_requests W :
  sends_at_most 1 (get_remaining_requests W).
Proof.
  unfold get_remaining_requests.
  apply (sends_at_most_bind 0 1); [apply sends_at_most_get_headers | intros headers].
  apply (sends_at_most_bind 1 0); [apply sends_at_most_http_get | intros response].
  destruct (_ =? _); [|apply sends_at_most_ret].
  apply (sends_at_most_bind 0 0); [apply sends_at_most_lift | intros; apply sends_at_most_ret].
Qed.

Lemma sends_at_most_check_and_switch_key_03 W :
  sends_at_most 1 (Cloud03.check_and_switch_key W).
Proof.
  unfold Cloud03.check_and_switch_key.
  apply (sends_at_most_bind 1 0); [apply sends_at_most_get_remaining_requests | intros q].
  destruct (_ <? _); [|apply sends_at_most_ret].
  apply (sends_at_most_bind 0 0); [now apply sends_none | intros h].
  destruct (length (api_keys h)); [apply sends_at_most_raise|].
  apply (sends_at_most_bind 0 0); [apply sends_at_most_modify_self | intros _].
  apply sends_at_most_modify_self.
Qed.

Lemma sends_at_most_get_email_from_readme ua W u h :
  sends_at_most 1 (get_email_from_readme ua W u h).
Proof.
  unfold get_email_from_readme.
  apply (sends_at_most_bind 1 0); [apply sends_at_most_http_get | intros response].
  destruct (_ =? _); apply sends_at_most_ret.
Qed.

Lemma sends_at_most_get_user_info_03 ua W reference :
  sends_at_most 3 (Cloud03.get_user_info_from_github_api ua W reference).
Proof.
  unfold Cloud03.get_user_info_from_github_api.
  apply (sends_at_most_bind 1 2); [apply sends_at_most_check_and_switch_key_03 | intros _].
  apply (sends_at_most_bind 0 2); [apply sends_at_most_get_headers | intros headers].
  apply (sends_at_most_bind 0 2); [apply sends_at_most_modify_self | intros _].
  apply (sends_at_most_bind 1 1); [apply sends_at_most_http_get | intros response].
  destruct (negb _); [apply sends_at_most_ret|].
  apply (sends_at_most_bind 0 1); [apply sends_at_most_lift | intros user_data].
  destruct (truthy _); [apply sends_at_most_ret | apply sends_at_most_get_email_from_readme].
Qed.

Section Run03.

Variable unicode_alnum : char -> bool.
Variable W : World.

Local Abbreviation lookup03 := (Cloud03.get_user_info_from_github_api unicode_alnum W).
Local Abbreviation iteration03 := (Cloud03.iteration unicode_alnum W).
Local Abbreviation loop03 := (Cloud03.loop unicode_alnum W).
Local Abbreviation main03 := (Cloud03.main unicode_alnum W).

(** One turn of cloud03.py: the record is announced and looked up; it
    gets a row when the lookup returns an e-mail that is not empty. *)
Lemma iteration03_step st row :
  let res := lookup03 (Profile_URL row) (Cloud03.machine (announced03 row st)) in
  let st' := iteration03 st row in
  sleeps (trace (Cloud03.machine st')) = sleeps (trace (Cloud03.machine st)) /\
  Cloud03.output_data st' =
    Cloud03.output_data st ++
    map (fun x => output_row (fst x) (snd x))
      (match fst res with
       | Returned email => if truthy email then [(row, email)] else []
       | Raised _ => []
       end) /\
  exists ev,
    trace (Cloud03.machine st') = trace (Cloud03.machine st) ++ ev /\
    record_budget03 row ev.
Proof.
  cbv zeta. unfold Cloud03.iteration, Cloud03.try_body. fold (announced03 row st).
  pose proof (sleepless_get_user_info_03 unicode_alnum W (Profile_URL row)
                (Cloud03.machine (announced03 row st))) as Hs.
  destruct (sends_at_most_get_user_info_03 unicode_alnum W (Profile_URL row)
              (Cloud03.machine (announced03 row st))) as (tr & Htr & Hq & Hn).
  assert (Hquiet : sleeps tr = []).
  { rewrite Htr, sleeps_app in Hs. rewrite <- (app_nil_r (sleeps _)) in Hs at 2.
    now apply app_inv_head in Hs. }
  assert (Hb : forall after,
            requests after = [] -> sleeps after = [] -> attempted after = [] ->
            record_budget03 row (LogProcessing (Profile_URL row) :: tr ++ after)).
  { intros after Ha1 Ha2 Ha3. eexists. split; [reflexivity|].
    rewrite requests_app, sleeps_app, attempted_app, Ha1, Ha2, Ha3,
      (attempted_remote tr Hq), Hquiet, !app_nil_r. auto. }
  destruct (lookup03 (Profile_URL row) (Cloud03.machine (announced03 row st)))
    as [[email|e] m]; cbn [fst snd] in *; unfold announced03, Cloud03.log in *;
    cbn [Cloud03.machine Cloud03.output_data trace self] in *.
  - split; [rewrite Hs, sleeps_app; apply app_nil_r|].
    split; [destruct (truthy email); cbn [map app]; now rewrite ?app_nil_r|].
    exists (LogProcessing (Profile_URL row) :: tr ++ []).
    split; [rewrite Htr, app_nil_r, <- app_assoc; reflexivity|].
    now apply Hb.
  - split; [rewrite sleeps_app, Hs, sleeps_app; cbn; now rewrite !app_nil_r|].
    split; [cbn [map]; now rewrite app_nil_r|].
    exists (LogProcessing (Profile_URL row) :: tr ++ [LogError (Profile_URL row) e]).
    split; [rewrite Htr, <- !app_assoc; reflexivity|].
    now apply Hb.
Qed.

(** The turns of cloud03.py, one for every record. *)
Lemma loop03_resolutions rows : forall st,
  let resolved := resolutions03 unicode_alnum W rows st in
  sleeps (trace (Cloud03.machine (loop03 rows st))) = sleeps (trace (Cloud03.machine st)) /\
  Cloud03.output_data (loop03 rows st) =
    Cloud03.output_data st ++ map (fun x => output_row (fst x) (snd x)) resolved /\
  map fst resolved `sublist_of` rows /\
  Forall (fun x => truthy (snd x) = true) resolved /\
  exists turns,
    trace (Cloud03.machine (loop03 rows st)) = trace (Cloud03.machine st) ++ concat turns /\
    Forall2 record_budget03 rows turns.
Proof.
  induction rows as [|row rows IH]; intros st; cbv zeta.
  - cbn. rewrite app_nil_r. split; [reflexivity|]. split; [reflexivity|].
    split; [constructor|]. split; [constructor|].
    exists []. cbn. rewrite app_nil_r. split; [reflexivity | constructor].
  - unfold Cloud03.loop. cbn [fold_left resolutions03].
    fold (loop03 rows (iteration03 st row)).
    destruct (IH (iteration03 st row)) as (Hs & Ho & Hsub & Hall & turns & Ht & Hb).
    destruct (iteration03_step st row) as (Hs1 & Ho1 & ev & Ht1 & Hb1).
    rewrite Hs, Hs1, Ho, Ho1, Ht, Ht1, <- !app_assoc, map_app.
    split; [reflexivity|]. split; [reflexivity|].
    split; [|split].
    + destruct (fst (lookup03 (Profile_URL row) (Cloud03.machine (announced03 row st))))
        as [email|e]; [destruct (truthy email)|]; cbn [app map fst];
        [now apply sublist_skip | now apply sublist_cons | now apply sublist_cons].
    + apply Forall_app. split; [|exact Hall].
      destruct (fst (lookup03 (Profile_URL row) (Cloud03.machine (announced03 row st))))
        as [email|e]; [destruct (truthy email) eqn:E|]; repeat constructor. exact E.
    + exists (ev :: turns). cbn [concat]. split; [reflexivity | now constructor].
Qed.

(** X10. A run of cloud03.py that finds its credentials and its input file
    never blocks, leaves the input file as it is, and writes the output
    file anew: whatever that file held before, it then holds the rows of
    exactly the records whose lookup, run when their turn comes, returns an
    e-mail that is not empty ([resolutions03] runs those lookups, in the order
    of the input, each from the state the turns before it left), with the
    e-mails the lookups returned and in the order of the input. *)
Theorem main03_writes_the_output_anew (keys : str) (fs : Files) (tr : list Event)
    (rows : list InputRecord) :
  input_csv fs = Some rows ->
  let fs' := fst (main03 (Some keys) fs tr) in
  let tr' := snd (main03 (Some keys) fs tr) in
  let resolved := resolutions03 unicode_alnum W rows (begun03 keys tr) in
  sleeps tr' = sleeps tr /\
  input_csv fs' = Some rows /\
  output_csv fs' = Some (map (fun x => output_row (fst x) (snd x)) resolved) /\
  map fst resolved `sublist_of` rows /\
  Forall (fun x => truthy (snd x) = true) resolved.
Proof.
  intros Hin. unfold Cloud03.main. rewrite Hin. cbn [fst snd input_csv output_csv].
  fold (begun03 keys tr).
  destruct (loop03_resolutions rows (begun03 keys tr)) as (Hs & Ho & Hsub & Hall & _).
  cbn [begun03 Cloud03.machine Cloud03.output_data trace app] in Hs, Ho.
  split; [exact Hs|]. split; [reflexivity|]. rewrite Ho. auto.
Qed.

(** X16. A run of cloud03.py that finds its credentials and its input file
    takes one turn for every record of the input, in the order of the file
    and whatever the status of the record or the content of the output file
    (nothing is skipped).  The turn of a record announces that record, and
    then sends at most three requests and never blocks. *)
Theorem main03_looks_up_every_record (keys : str) (fs : Files) (tr : list Event)
    (rows : list InputRecord) :
  input_csv fs = Some rows ->
  exists turns,
    snd (main03 (Some keys) fs tr) = tr ++ concat turns /\
    Forall2 record_budget03 rows turns.
Proof.
  intros Hin. unfold Cloud03.main. rewrite Hin. cbn [snd]. fold (begun03 keys tr).
  destruct (loop03_resolutions rows (begun03 keys tr)) as (_ & _ & _ & _ & H).
  exact H.
Qed.

End Run03.

Lemma main03_writes_the_output_anew_witness :
  input_csv {| input_csv := Some [pending "alice"; pending "carol"];
               output_csv := Some [found "zed" "zed@example.org"] |}
    = Some [pending "alice"; pending "carol"] /\
  output_csv (fst (Cloud03.main ascii_only sample_service (Some (py "key-a"))
                     {| input_csv := Some [pending "alice"; pending "carol"];
                        output_csv := Some [found "zed" "zed@example.org"] |} []))
    = Some [found "alice" "alice@example.org"] /\
  sleeps (snd (Cloud03.main ascii_only sample_service (Some (py "key-a"))
                 {| input_csv := Some [pending "alice"; pending "carol"];
                    output_csv := Some [found "zed" "zed@example.org"] |} [])) = [].
Proof.
  split; [reflexivity|].
  destruct (main03_writes_the_output_anew ascii_only sample_service (py "key-a")
              {| input_csv := Some [pending "alice"; pending "carol"];
                 output_csv := Some [found "zed" "zed@example.org"] |} []
              [pending "alice"; pending "carol"] eq_refl)
    as (Hs & _ & Ho & _).
  split; [rewrite Ho; vm_compute; reflexivity | exact Hs].
Defined.

(** ** The request counter is never consulted *)

Lemma alike_ret {A} (a : A) : alike (ret a) (ret a).
Proof. intros m1 m2 H. auto. Qed.

Lemma alike_raise {A} e : alike (@raise A e) (raise e).
Proof. intros m1 m2 H. auto. Qed.

Lemma alike_lift {A} (o : outcome A) : alike (lift o) (lift o).
Proof. intros m1 m2 H. auto. Qed.

Lemma alike_modify_self f1 f2 :
  (forall h1 h2, agree_handlers h1 h2 -> agree_handlers (f1 h1) (f2 h2)) ->
  alike (modify_self f1) (modify_self f2).
Proof. intros Hf m1 m2 [Hh Ht]. split; [reflexivity|]. split; [now apply Hf | exact Ht]. Qed.

Lemma alike_emit e : alike (emit e) (emit e).
Proof.
  intros m1 m2 [Hh Ht]. split; [reflexivity|]. split; [exact Hh|].
  cbn [emit snd trace]. now rewrite Ht.
Qed.

Lemma alike_http_get W t u h : alike (http_get W t u h) (http_get W t u h).
Proof.
  intros m1 m2 [Hh Ht]. unfold http_get. cbn [fst snd]. rewrite Ht.
  split; [reflexivity|]. split; [exact Hh | reflexivity].
Qed.

Lemma alike_bind {A B} (c1 c2 : M A) (k1 k2 : A -> M B) :
  alike c1 c2 -> (forall a, alike (k1 a) (k2 a)) -> alike (bind c1 k1) (bind c2 k2).
Proof.
  intros Hc Hk m1 m2 H. unfold bind. destruct (Hc m1 m2 H) as [E Ha].
  destruct (c1 m1) as [[a1|e1] m1'], (c2 m2) as [[a2|e2] m2']; cbn [fst snd] in *;
    inversion E; subst; [now apply Hk | auto].
Qed.

Lemma alike_bind_get_self {B} (k1 k2 : GitHubApiHandler -> M B) :
  (forall h1 h2, agree_handlers h1 h2 -> alike (k1 h1) (k2 h2)) ->
  alike (bind get_self k1) (bind get_self k2).
Proof.
  intros Hk m1 m2 H. unfold bind, get_self. apply Hk; [apply H | exact H].
Qed.

Lemma alike_get_headers : alike get_headers get_headers.
Proof.
  unfold get_headers. apply alike_bind_get_self. intros h1 h2 (Hk & Hi & _).
  rewrite Hk, Hi. destruct (_ !! _); [apply alike_ret | apply alike_raise].
Qed.

Lemma alike_get_remaining_requests W :
  alike (get_remaining_requests W) (get_remaining_requests W).
Proof.
  unfold get_remaining_requests.
  apply alike_bind; [apply alike_get_headers | intros headers].
  apply alike_bind; [apply alike_http_get | intros response].
  destruct (_ =? _); [|apply alike_ret].
  apply alike_bind; [apply alike_lift | intros; apply alike_ret].
Qed.

Lemma alike_get_email_from_readme ua W u h :
  alike (get_email_from_readme ua W u h) (get_email_from_readme ua W u h).
Proof.
  unfold get_email_from_readme.
  apply alike_bind; [apply alike_http_get | intros response].
  destruct (_ =? _); apply alike_ret.
Qed.

Ltac agree_handlers :=
  let h1 := fresh "h" in let h2 := fresh "h" in
  intros h1 h2 (? & ? & ?); repeat split;
  cbn [api_keys current_key_index failed_attempts set_current_key_index
       set_request_count set_failed_attempts]; congruence.

Lemma alike_check_and_switch_key_02 W :
  alike (Cloud02.check_and_switch_key W) (Cloud02.check_and_switch_key W).
Proof.
  unfold Cloud02.check_and_switch_key.
  apply alike_bind; [apply alike_get_remaining_requests | intros remaining].
  destruct (_ <? _); [|apply alike_ret].
  apply alike_bind_get_self. intros h1 h2 (Hk & Hi & Hf). rewrite Hk, Hi.
  destruct (length (api_keys h2)); [apply alike_raise|].
  apply alike_bind; [apply alike_modify_self; agree_handlers | intros _].
  apply alike_bind; [apply alike_modify_self; agree_handlers | intros _].
  apply alike_bind; [apply alike_modify_self; agree_handlers | intros _].
  apply alike_bind_get_self. intros h3 h4 (_ & _ & Hf'). rewrite Hf'.
  destruct (_ <=? _); [|apply alike_ret].
  apply alike_bind; [apply alike_emit | intros _].
  apply alike_modify_self; agree_handlers.
Qed.

Lemma alike_check_and_switch_key_03 W :
  alike (Cloud03.check_and_switch_key W) (Cloud03.check_and_switch_key W).
Proof.
  unfold Cloud03.check_and_switch_key.
  apply alike_bind; [apply alike_get_remaining_requests | intros remaining].
  destruct (_ <? _); [|apply alike_ret].
  apply alike_bind_get_self. intros h1 h2 (Hk & Hi & Hf). rewrite Hk, Hi.
  destruct (length (api_keys h2)); [apply alike_raise|].
  apply alike_bind; [apply alike_modify_self; agree_handlers | intros _].
  apply alike_modify_self; agree_handlers.
Qed.

Lemma alike_lookup_tail ua W reference :
  let tail :=
    (do headers <- get_headers;
     modify_self (fun h => set_request_count (request_count h + 1) h) ;;
     let username := username_of reference in
     do response <- http_get W requests_retry_session (users_url username) headers;
     if negb (status_code response =? 200) then ret PyNone
     else
       do user_data <- lift (json_email response);
       let email := match user_data with Some v => v | None => PyStr [] end in
       if truthy email then ret email
       else get_email_from_readme ua W username headers)%py in
  alike tail tail.
Proof.
  cbv zeta.
  apply alike_bind; [apply alike_get_headers | intros headers].
  apply alike_bind; [apply alike_modify_self; agree_handlers | intros _].
  apply alike_bind; [apply alike_http_get | intros response].
  destruct (negb _); [apply alike_ret|].
  apply alike_bind; [apply alike_lift | intros user_data].
  destruct (truthy _); [apply alike_ret | apply alike_get_email_from_readme].
Qed.

(** X11. The handler counts its requests and holds a bound on the requests
    per credential, but neither is ever consulted: in both scripts two
    lookups of the same reference, from handlers that differ only in
    [request_count] and [max_requests_per_key] and with the same past, give
    the same result, send the same requests, and leave the same pool, cursor
    and rotation counter. *)
Theorem request_count_is_never_consulted (ua : char -> bool) (W : World)
    (reference : str) (m1 m2 : Machine) :
  agree m1 m2 ->
  (fst (Cloud02.get_user_info_from_github_api ua W reference m1)
     = fst (Cloud02.get_user_info_from_github_api ua W reference m2) /\
   agree (snd (Cloud02.get_user_info_from_github_api ua W reference m1))
         (snd (Cloud02.get_user_info_from_github_api ua W reference m2))) /\
  (fst (Cloud03.get_user_info_from_github_api ua W reference m1)
     = fst (Cloud03.get_user_info_from_github_api ua W reference m2) /\
   agree (snd (Cloud03.get_user_info_from_github_api ua W reference m1))
         (snd (Cloud03.get_user_info_from_github_api ua W reference m2))).
Proof.
  intros H. split.
  - revert m1 m2 H. change (alike (Cloud02.get_user_info_from_github_api ua W reference)
                                  (Cloud02.get_user_info_from_github_api ua W reference)).
    unfold Cloud02.get_user_info_from_github_api.
    apply alike_bind; [apply alike_check_and_switch_key_02 | intros _].
    apply alike_lookup_tail.
  - revert m1 m2 H. change (alike (Cloud03.get_user_info_from_github_api ua W reference)
                                  (Cloud03.get_user_info_from_github_api ua W reference)).
    unfold Cloud03.get_user_info_from_github_api.
    apply alike_bind; [apply alike_check_and_switch_key_03 | intros _].
    apply alike_lookup_tail.
Qed.

Lemma request_count_is_never_consulted_witness :
  agree two_keys
    {| self := {| api_keys := [py "key-a"; py "key-b"]; current_key_index := 0;
                  request_count := 4000; max_requests_per_key := 1;
                  failed_attempts := 0 |};
       trace := [] |} /\
  fst (Cloud02.get_user_info_from_github_api ascii_only sample_service (py "bob") two_keys)
  = fst (Cloud02.get_user_info_from_github_api ascii_only sample_service (py "bob")
           {| self := {| api_keys := [py "key-a"; py "key-b"]; current_key_index := 0;
                         request_count := 4000; max_requests_per_key := 1;
                         failed_attempts := 0 |};
              trace := [] |}).
Proof.
  assert (H : agree two_keys
    {| self := {| api_keys := [py "key-a"; py "key-b"]; current_key_index := 0;
                  request_count := 4000; max_requests_per_key := 1;
                  failed_attempts := 0 |};
       trace := [] |}) by (repeat split).
  split; [exact H|].
  destruct (request_count_is_never_consulted ascii_only sample_service (py "bob") _ _ H)
    as [[E _] _].
  exact E.
Defined.

Lemma main03_looks_up_every_record_witness :
  input_csv {| input_csv := Some [set_Status (py "Done") (pending "alice")];
               output_csv := Some [found "alice" "alice@example.org"] |}
    = Some [set_Status (py "Done") (pending "alice")] /\
  exists turns,
    snd (Cloud03.main ascii_only sample_service (Some (py "key-a"))
           {| input_csv := Some [set_Status (py "Done") (pending "alice")];
              output_csv := Some [found "alice" "alice@example.org"] |} [])
      = concat turns /\
    Forall2 record_budget03 [set_Status (py "Done") (pending "alice")] turns.
Proof.
  split; [reflexivity|].
  exact (main03_looks_up_every_record ascii_only sample_service (py "key-a")
           {| input_csv := Some [set_Status (py "Done") (pending "alice")];
              output_csv := Some [found "alice" "alice@example.org"] |} []
           [set_Status (py "Done") (pending "alice")] eq_refl).
Defined.
